(** * Mailpile IMAP mail source: a shallow embedding of
      [mailpile/mail_source/imap.py] and the properties of its
      response tokenizer, shared connection, mailbox facade and
      connection opening. *)

From Stdlib Require Import ZArith List String Ascii Bool Lia.
From Stdlib Require Import Sorting.Sorted Sorting.Permutation.
From stdpp Require Import base option strings gmap list.

Local Open Scope Z_scope.
Local Open Scope string_scope.

(** ** Python outcomes

    A Python call returns a value, raises, or does not come back at all
    ([Hangs]: a loop model out of fuel, or a lock acquired while held).
    Exceptions are named by their class and carry their message. *)

Inductive exn_class : Type :=
  | AssertionError
  | AttributeError
  | IndexError
  | KeyError
  | TypeError
  | ValueError
  | UnboundLocalError
  | ZeroDivisionError
  | IOError
  | IMAP_IOError      (* class IMAP_IOError(IOError) *)
  | IMAP4_error       (* imaplib.IMAP4.error *)
  | TimedOut          (* mailpile.util.TimedOut, an IOError *)
  | socket_error.     (* socket.error, an IOError since Python 2.6 *)

#[global] Instance exn_class_eq_dec : EqDecision exn_class.
Proof. solve_decision. Defined.

Record exn : Type := Exn { exn_cls : exn_class; exn_msg : string }.

Inductive result (A : Type) : Type :=
  | Returned (a : A)
  | Raised (e : exn)
  | Hangs.
Arguments Returned {A} a.
Arguments Raised {A} e.
Arguments Hangs {A}.

Definition raise {A} (c : exn_class) (msg : string) : result A :=
  Raised (Exn c msg).

Definition rbind {A B} (r : result A) (k : A -> result B) : result B :=
  match r with
  | Returned a => k a
  | Raised e => Raised e
  | Hangs => Hangs
  end.

Notation "'do' x <- r ; k" := (rbind r (fun x => k))
  (at level 10, x pattern, r at level 100, k at level 200).

(** ** Strings as Python 2 [str] (byte strings) *)

Definition ascii_upper (c : ascii) : ascii :=
  let n := N_of_ascii c in
  if ((97 <=? n) && (n <=? 122))%N then ascii_of_N (n - 32) else c.

Fixpoint upper (s : string) : string :=
  match s with
  | EmptyString => EmptyString
  | String c r => String (ascii_upper c) (upper r)
  end.

Fixpoint drop_str (n : nat) (s : string) : string :=
  match n, s with
  | O, _ => s
  | S _, EmptyString => EmptyString
  | S n', String _ r => drop_str n' r
  end.

(** A string of characters that all satisfy [p]. *)
Fixpoint all_chars (p : ascii -> bool) (s : string) : bool :=
  match s with
  | EmptyString => true
  | String c r => p c && all_chars p r
  end.

(** ** The response tokenizer (imap.py, lines 21-69) *)

Module Tokenizer.

(** Raw reply data as [imaplib] hands it over: a text line, [None]
    when a command produced no data, or a (header, literal) tuple. *)
Inductive item : Type :=
  | INone
  | IStr (s : string)
  | ITuple (hdr payload : string).

(** Parsed data: an atom (also a stripped quoted string) or a list. *)
Inductive value : Type :=
  | Atom (s : string)
  | List (l : list value).

Definition dquote : ascii := ascii_of_nat 34.
Definition lparen : ascii := "("%char.
Definition rparen : ascii := ")"%char.

(** [\s] of a byte pattern: space, \t, \n, \r, \f, \v. *)
Definition is_space (c : ascii) : bool :=
  let n := N_of_ascii c in
  ((n =? 32) || ((9 <=? n) && (n <=? 13)))%N.

Definition is_atom_char (c : ascii) : bool :=
  negb (Ascii.eqb c lparen || Ascii.eqb c rparen
        || Ascii.eqb c dquote || is_space c).

(** Longest prefix of [s] whose characters all satisfy [p]. *)
Fixpoint take_while (p : ascii -> bool) (s : string) : string :=
  match s with
  | EmptyString => EmptyString
  | String c r => if p c then String c (take_while p r) else EmptyString
  end.

(** First alternative of the pattern, a quoted string: an opening
    quote, then everything up to and including the next quote; no match
    when the quote is never closed. *)
Fixpoint upto_quote (s : string) : option string :=
  match s with
  | EmptyString => None
  | String c r =>
      if Ascii.eqb c dquote then Some (String c EmptyString)
      else option_map (String c) (upto_quote r)
  end.

Definition alt_quoted (s : string) : option string :=
  match s with
  | String c r =>
      if Ascii.eqb c dquote then option_map (String c) (upto_quote r)
      else None
  | EmptyString => None
  end.

(** Second alternative: one parenthesis. *)
Definition alt_paren (s : string) : option string :=
  match s with
  | String c _ =>
      if Ascii.eqb c lparen || Ascii.eqb c rparen
      then Some (String c EmptyString) else None
  | EmptyString => None
  end.

(** One or more characters of a class, greedily. *)
Definition alt_plus (p : ascii -> bool) (s : string) : option string :=
  match take_while p s with
  | EmptyString => None
  | t => Some t
  end.

Definition or_else {A} (a b : option A) : option A :=
  match a with Some _ => a | None => b end.

(** [IMAP_TOKEN.match(dline)], the matched text [m.group(0)]; the
    alternatives are tried in the order the pattern lists them. *)
Definition IMAP_TOKEN_match (dline : string) : option string :=
  or_else (alt_quoted dline)
    (or_else (alt_paren dline)
       (or_else (alt_plus is_atom_char dline)
          (alt_plus is_space dline))).

(** [token[1:-1]] *)
Fixpoint drop_last (s : string) : string :=
  match s with
  | EmptyString => EmptyString
  | String c EmptyString => EmptyString
  | String c r => String c (drop_last r)
  end.

Definition strip_ends (token : string) : string :=
  drop_last (drop_str 1 token).

(** The two variables of the loop.  [pdata] is the list being filled;
    [stack] holds the enclosing lists, innermost first.  In the source
    the list on top of the stack has [pdata] as its last element, by
    reference: it is stored here without that element and gets it back
    when a closing parenthesis pops it. *)
Record pstate : Type := PState {
  pdata : list value;
  stack : list (list value)
}.

Definition in_ws_tuple (c : ascii) : bool :=
  let n := N_of_ascii c in
  ((n =? 32) || (n =? 9) || (n =? 10) || (n =? 13))%N.

(** One token, lines 57-66. *)
Definition step (token : string) (st : pstate) : result pstate :=
  match token with
  | EmptyString =>
      Returned (PState (pdata st ++ [Atom token]) (stack st))
  | String c _ =>
      if Ascii.eqb c dquote then
        Returned (PState (pdata st ++ [Atom (strip_ends token)]) (stack st))
      else if Ascii.eqb c lparen then
        Returned (PState [] (pdata st :: stack st))
      else if Ascii.eqb c rparen then
        match stack st with
        | [] => raise IndexError "pop from empty list"
        | parent :: rest => Returned (PState (parent ++ [List (pdata st)]) rest)
        end
      else if in_ws_tuple c then Returned st
      else Returned (PState (pdata st ++ [Atom token]) (stack st))
  end.

(** The [while True] loop over one line, lines 52-68. *)
Fixpoint parse_line (fuel : nat) (dline : string) (st : pstate)
  : result pstate :=
  match fuel with
  | O => Hangs
  | S fuel' =>
      match IMAP_TOKEN_match dline with
      | Some token =>
          do st' <- step token st;
          parse_line fuel' (drop_str (String.length token) dline) st'
      | None => Returned st
      end
  end.

(** The [for dline in reply[1]] loop, lines 51-68. *)
Fixpoint parse_lines (lines : list item) (st : pstate) : result pstate :=
  match lines with
  | [] => Returned st
  | IStr dline :: rest =>
      do st' <- parse_line (S (String.length dline)) dline st;
      parse_lines rest st'
  | _ :: _ => raise TypeError "expected string or buffer"
  end.

Definition _parse_imap (reply : string * list item)
  : result (bool * list value) :=
  do st <- parse_lines (snd reply) (PState [] []);
  Returned (String.eqb (upper (fst reply)) "OK", pdata st).

Definition text (lines : list string) : list item := map IStr lines.

(** The token stream of a line: what the loop of [parse_line] sees, one
    [IMAP_TOKEN.match] after the other, until the pattern fails. *)
Fixpoint tokens (fuel : nat) (dline : string) : list string :=
  match fuel with
  | O => []
  | S fuel' =>
      match IMAP_TOKEN_match dline with
      | Some token =>
          token :: tokens fuel' (drop_str (String.length token) dline)
      | None => []
      end
  end.

Definition line_tokens (dline : string) : list string :=
  tokens (S (String.length dline)) dline.

Definition all_tokens (lines : list string) : list string :=
  concat (map line_tokens lines).

Definition starts_with (c : ascii) (token : string) : bool :=
  match token with
  | String c' _ => Ascii.eqb c' c
  | EmptyString => false
  end.

(** Every closing parenthesis of the stream has an opening one before
    it, [depth] groups being open at the start. *)
Fixpoint closes_matched (depth : nat) (toks : list string) : bool :=
  match toks with
  | [] => true
  | t :: rest =>
      if starts_with lparen t then closes_matched (S depth) rest
      else if starts_with rparen t then
        match depth with
        | O => false
        | S d => closes_matched d rest
        end
      else closes_matched depth rest
  end.

(** Parsed data written back as the text of a reply: an atom as it is
    when it can stand bare, between quotes otherwise; a list between
    parentheses; one blank between neighbours. *)
Definition is_bare (s : string) : bool :=
  match s with
  | EmptyString => false
  | _ => all_chars is_atom_char s
  end.

Definition quoted (s : string) : string :=
  String dquote (s +:+ String dquote EmptyString).

Definition render_atom (s : string) : string :=
  if is_bare s then s else quoted s.

Fixpoint spaced (l : list string) : string :=
  match l with
  | [] => EmptyString
  | [x] => x
  | x :: r => x +:+ " " +:+ spaced r
  end.

Fixpoint render (v : value) : string :=
  match v with
  | Atom s => render_atom s
  | List l =>
      String lparen (spaced (map render l) +:+ String rparen EmptyString)
  end.

Definition render_all (l : list value) : string := spaced (map render l).

(** Data that can be written so: no quote inside an atom. *)
Fixpoint writable (v : value) : bool :=
  match v with
  | Atom s => all_chars (fun c => negb (Ascii.eqb c dquote)) s
  | List l => forallb writable l
  end.

(** The tokens [render] writes. *)
Fixpoint between (l : list (list string)) : list string :=
  match l with
  | [] => []
  | [x] => x
  | x :: r => x ++ " " :: between r
  end.

Fixpoint render_tokens (v : value) : list string :=
  match v with
  | Atom s => [render_atom s]
  | List l =>
      String lparen EmptyString
      :: between (map render_tokens l) ++ [String rparen EmptyString]
  end.

(** The text that follows is empty or starts with a character
    satisfying [p]. *)
Definition next_is (p : ascii -> bool) (rest : string) : bool :=
  match rest with
  | EmptyString => true
  | String c _ => p c
  end.

(** The depth the stream ends at, [None] when a closing parenthesis has
    nothing to close. *)
Fixpoint depth_after (depth : nat) (toks : list string) : option nat :=
  match toks with
  | [] => Some depth
  | t :: rest =>
      if starts_with lparen t then depth_after (S depth) rest
      else if starts_with rparen t then
        match depth with
        | O => None
        | S d => depth_after d rest
        end
      else depth_after depth rest
  end.

(** Lines whose every group is opened and closed within them. *)
Definition balanced (lines : list string) : bool :=
  match depth_after 0 (all_tokens lines) with
  | Some O => true
  | _ => false
  end.

(** [q] put in front of the outermost list of a state. *)
Fixpoint prepend_last (q : list value) (stk : list (list value))
  : list (list value) :=
  match stk with
  | [] => []
  | [b] => [(q ++ b)%list]
  | x :: r => x :: prepend_last q r
  end.

Definition prepend_bottom (q : list value) (st : pstate) : pstate :=
  match stack st with
  | [] => PState (q ++ pdata st)%list []
  | stk => PState (pdata st) (prepend_last q stk)
  end.

(** The reply of the docstring, lines 43-44. *)
Definition example_reply : string :=
  "One (Two (Th ree)) " +:+ String dquote "Four Five" +:+ String dquote "".

Fixpoint run_tokens (toks : list string) (st : pstate) : result pstate :=
  match toks with
  | [] => Returned st
  | t :: rest => do st' <- step t st; run_tokens rest st'
  end.

(** The four blanks named on line 65: space, tab, line feed and
    carriage return. *)
Definition skipped_blank (c : ascii) : bool :=
  existsb (Ascii.eqb c) [" "%char; "009"%char; "010"%char; "013"%char].

(** What may stand between two neighbours of a reply: a run of white
    space that starts with one of these four. *)
Definition is_sep (sep : string) : bool :=
  match sep with
  | String c r => skipped_blank c && all_chars is_space r
  | EmptyString => false
  end.

(** Parsed data written back with [sep] between neighbours. *)
Fixpoint spaced_by (sep : string) (l : list string) : string :=
  match l with
  | [] => EmptyString
  | [x] => x
  | x :: r => x +:+ sep +:+ spaced_by sep r
  end.

Fixpoint render_by (sep : string) (v : value) : string :=
  match v with
  | Atom s => render_atom s
  | List l =>
      String lparen
        (spaced_by sep (map (render_by sep) l) +:+ String rparen EmptyString)
  end.

Definition render_all_by (sep : string) (l : list value) : string :=
  spaced_by sep (map (render_by sep) l).

Fixpoint between_by (sep : string) (l : list (list string)) : list string :=
  match l with
  | [] => []
  | [x] => x
  | x :: r => x ++ sep :: between_by sep r
  end.

Fixpoint render_tokens_by (sep : string) (v : value) : list string :=
  match v with
  | Atom s => [render_atom s]
  | List l =>
      String lparen EmptyString
      :: between_by sep (map (render_tokens_by sep) l)
         ++ [String rparen EmptyString]
  end.

(** A reply laid out on several lines: each line is the text of some
    values, written with a separator of its own. *)
Definition layout_lines (layout : list (string * list value)) : list string :=
  map (fun l => render_all_by (fst l) (snd l)) layout.

Definition layout_data (layout : list (string * list value)) : list value :=
  concat (map snd layout).

End Tokenizer.

(** ** State threaded through calls that may raise *)

Definition SR (S A : Type) : Type := S -> result A * S.

Definition sret {S A} (a : A) : SR S A := fun s => (Returned a, s).

Definition sraise {S A} (c : exn_class) (msg : string) : SR S A :=
  fun s => (raise c msg, s).

Definition sbind {S A B} (m : SR S A) (k : A -> SR S B) : SR S B :=
  fun s =>
    match m s with
    | (Returned a, s') => k a s'
    | (Raised e, s') => (Raised e, s')
    | (Hangs, s') => (Hangs, s')
    end.

(** [try: m  except: h] *)
Definition scatch {S A} (m : SR S A) (h : exn -> SR S A) : SR S A :=
  fun s =>
    match m s with
    | (Raised e, s') => h e s'
    | other => other
    end.

Definition slift {S A} (r : result A) : SR S A := fun s => (r, s).

Notation "'let*' x := m 'in' k" := (sbind m (fun x => k))
  (at level 10, x pattern, m at level 100, k at level 200).
Notation "'exec' m 'in' k" := (sbind m (fun _ => k))
  (at level 10, m at level 100, k at level 200).

(** [isinstance(e, c)] for the classes at hand. *)
Definition subclass (c base : exn_class) : bool :=
  match c, base with
  | IMAP_IOError, IOError | TimedOut, IOError | socket_error, IOError => true
  | _, _ => if decide (c = base) then true else false
  end.

Definition caught_by (e : exn) (classes : list exn_class) : bool :=
  existsb (subclass (exn_cls e)) classes.

(** ** Integers and their text: [int(s)], [int(s, 36)], [str(n)], [b36] *)

Module PyNum.

(** Digit of value [d < 36], lower case: [0-9a-z]. *)
Definition digit_char (d : N) : ascii :=
  if (d <? 10)%N then ascii_of_N (48 + d) else ascii_of_N (87 + d).

(** Value of a digit character, of either case. *)
Definition digit_val (c : ascii) : option N :=
  let n := N_of_ascii c in
  if ((48 <=? n) && (n <=? 57))%N then Some (n - 48)%N
  else if ((97 <=? n) && (n <=? 122))%N then Some (n - 87)%N
  else if ((65 <=? n) && (n <=? 90))%N then Some (n - 55)%N
  else None.

(** [while number: number, i = divmod(number, base); s = alphabet[i] + s] *)
Fixpoint to_base_loop (fuel : nat) (base number : N) (acc : string)
  : string :=
  match fuel with
  | O => acc
  | S fuel' =>
      if (number =? 0)%N then acc
      else to_base_loop fuel' base (number / base)
             (String (digit_char (number mod base)) acc)
  end.

(** The digits of [number], most significant first; [0] for zero. *)
Definition to_base (base number : N) : string :=
  match to_base_loop (S (N.to_nat (N.log2 number))) base number EmptyString
  with
  | EmptyString => String (digit_char 0) EmptyString
  | s => s
  end.

(** Modelled from the spec: [b36] of [mailpile.util], which is not part
    of the sources at hand.  The spec has message keys made of base-36
    encoded non-negative integers and writes the UID 100 as [2s], so the
    digits are [0-9a-z]; what [b36] does on a negative number the spec
    does not say, and no statement below depends on it. *)
Definition b36 (n : Z) : string := to_base 36 (Z.to_N n).

(** [str(n)] and the [%d] of string formatting. *)
Definition str_of_int (n : Z) : string :=
  if (n <? 0)%Z then String "-"%char (to_base 10 (Z.to_N (- n)))
  else to_base 10 (Z.to_N n).

Fixpoint parse_digits (base : N) (s : string) (acc : N) : option N :=
  match s with
  | EmptyString => Some acc
  | String c r =>
      match digit_val c with
      | Some d =>
          if (d <? base)%N then parse_digits base r (acc * base + d)%N
          else None
      | None => None
      end
  end.

Definition is_space (c : ascii) : bool :=
  let n := N_of_ascii c in
  ((n =? 32) || ((9 <=? n) && (n <=? 13)))%N.

Fixpoint lstrip (s : string) : string :=
  match s with
  | String c r => if is_space c then lstrip r else s
  | EmptyString => EmptyString
  end.

Fixpoint rstrip (s : string) : string :=
  match s with
  | EmptyString => EmptyString
  | String c r =>
      match rstrip r with
      | EmptyString => if is_space c then EmptyString
                       else String c EmptyString
      | r' => String c r'
      end
  end.

Definition unsigned (base : N) (s : string) : option Z :=
  match s with
  | EmptyString => None
  | _ => option_map Z.of_N (parse_digits base s 0%N)
  end.

(** [int(s, base)] for a [str] and [2 <= base <= 36]: blanks around the
    number are dropped, a sign may come first, then one digit at least;
    [None] is [ValueError]. *)
Definition py_int (base : N) (s : string) : option Z :=
  match rstrip (lstrip s) with
  | String c r =>
      if Ascii.eqb c "-"%char then option_map Z.opp (unsigned base r)
      else if Ascii.eqb c "+"%char then unsigned base r
      else unsigned base (String c r)
  | EmptyString => None
  end.

(** A character that is no blank and no sign; one that is no dot. *)
Definition plain (c : ascii) : bool :=
  negb (is_space c) && negb (Ascii.eqb c "-"%char)
  && negb (Ascii.eqb c "+"%char).

Definition nodot (c : ascii) : bool := negb (Ascii.eqb c "."%char).

(** [acc] reads as the [k] digits of [m], whatever was read before. *)
Definition reads (base : N) (acc : string) (k m : N) : Prop :=
  forall a, parse_digits base acc a = Some (a * base ^ k + m)%N.

End PyNum.

(** ** [urllib.quote] and [urllib.unquote] (Python 2), as the message
    pointers use them *)

Module Urllib.

Definition percent : ascii := "%"%char.

(** [always_safe]: letters, digits and [_.-]. *)
Definition always_safe (c : ascii) : bool :=
  let n := N_of_ascii c in
  (((65 <=? n) && (n <=? 90)) || ((97 <=? n) && (n <=? 122))
   || ((48 <=? n) && (n <=? 57))
   || (n =? 95) || (n =? 46) || (n =? 45))%N.

(** The characters [quote] leaves alone with its default [safe='/']. *)
Definition is_safe (c : ascii) : bool :=
  always_safe c || Ascii.eqb c "/"%char.

Definition hex_digit (n : N) : ascii :=
  if (n <? 10)%N then ascii_of_N (48 + n) else ascii_of_N (55 + n).

(** [_safe_map[c]]: the character itself, or [%XX] in upper-case hex. *)
Definition quoter (c : ascii) : string :=
  if is_safe c then String c EmptyString
  else
    let n := N_of_ascii c in
    String percent (String (hex_digit (n / 16))
                      (String (hex_digit (n mod 16)) EmptyString)).

Fixpoint all_safe (s : string) : bool :=
  match s with
  | EmptyString => true
  | String c r => is_safe c && all_safe r
  end.

Fixpoint map_join (f : ascii -> string) (s : string) : string :=
  match s with
  | EmptyString => EmptyString
  | String c r => f c +:+ map_join f r
  end.

(** [quote(s)]: an empty string and a string of safe characters only
    ([not s.rstrip(safe)]) are returned as they are. *)
Definition quote (s : string) : string :=
  if all_safe s then s else map_join quoter s.

(** [s.split(sep)] *)
Fixpoint split_on (sep : ascii) (s : string) : list string :=
  match s with
  | EmptyString => [EmptyString]
  | String c r =>
      if Ascii.eqb c sep then EmptyString :: split_on sep r
      else match split_on sep r with
           | h :: t => String c h :: t
           | [] => [String c EmptyString]
           end
  end.

(** Value of a hexadecimal digit, of either case. *)
Definition hex_val (c : ascii) : option N :=
  let n := N_of_ascii c in
  if ((48 <=? n) && (n <=? 57))%N then Some (n - 48)%N
  else if ((65 <=? n) && (n <=? 70))%N then Some (n - 55)%N
  else if ((97 <=? n) && (n <=? 102))%N then Some (n - 87)%N
  else None.

(** The body of the loop of [unquote]: [_hextochr[item[:2]]] followed by
    [item[2:]], or on [KeyError] the percent sign and the item. *)
Definition unquote_item (item : string) : string :=
  match item with
  | String a (String b rest) =>
      match hex_val a, hex_val b with
      | Some x, Some y => String (ascii_of_N (16 * x + y)) rest
      | _, _ => String percent item
      end
  | _ => String percent item
  end.

Fixpoint join (l : list string) : string :=
  match l with
  | [] => EmptyString
  | x :: r => x +:+ join r
  end.

Definition unquote (s : string) : string :=
  match split_on percent s with
  | [] | [_] => s
  | first :: items => first +:+ join (map unquote_item items)
  end.

End Urllib.

(** ** The transport

    An [imaplib.IMAP4]-like object (or a mock of one): calling a method
    of it by name, with positional and keyword arguments, gives a reply
    [(typ, data)] or raises, and moves the transport to a new state. *)

Inductive arg : Type :=
  | ANone
  | ABool (b : bool)
  | AInt (n : Z)
  | AStr (s : string).

Definition kwargs : Type := list (string * arg).

Definition reply : Type := string * list Tokenizer.item.

Record command : Type := Command {
  cmd_method : string;
  cmd_args : list arg;
  cmd_kwargs : kwargs;
  cmd_result : result reply
}.

Module Imap.
Import Tokenizer.

Section Transport.

Variable T : Type.
Variable call : string -> list arg -> kwargs -> T -> result reply * T.

(** *** SharedImapConn (imap.py, lines 72-191) *)

(** [_selected]: [((mailbox, readonly), rv, info)]. *)
Definition selection : Type :=
  (string * bool) * reply * gmap string (list item).

(** [_lock] is true while the lock is held; [_conn] is [None] once the
    connection is dead; [debug_imap] stands for
    ['imap' in self.session.config.sys.debug]; [sent] lists the calls
    that reached the transport, oldest first. *)
Record SharedImapConn : Type := Conn {
  _lock : bool;
  _conn : option T;
  _selected : option selection;
  debug_imap : bool;
  sent : list command
}.

Definition set_selected (sel : option selection) (c : SharedImapConn)
  : SharedImapConn :=
  Conn (_lock c) (_conn c) sel (debug_imap c) (sent c).

Definition set_lock (b : bool) (c : SharedImapConn) : SharedImapConn :=
  Conn b (_conn c) (_selected c) (debug_imap c) (sent c).

Definition set_conn (t : option T) (c : SharedImapConn) : SharedImapConn :=
  Conn (_lock c) t (_selected c) (debug_imap c) (sent c).

(** [SharedImapConn(session, conn, ...)], line 82-97. *)
Definition new_conn (debug : bool) (t : T) : SharedImapConn :=
  Conn false (Some t) None debug [].

(** [getattr(self._conn, method)] applied to the arguments. *)
Definition conn_call (method : string) (args : list arg) (kw : kwargs)
  : SR SharedImapConn reply :=
  fun c =>
    match _conn c with
    | None => (raise AttributeError "'NoneType' object has no attribute", c)
    | Some t =>
        let '(r, t') := call method args kw t in
        (r, Conn (_lock c) (Some t') (_selected c) (debug_imap c)
              (sent c ++ [Command method args kw r]))
    end.

(** [assert(self._lock.locked())] *)
Definition assert_locked : SR SharedImapConn unit :=
  fun c => if _lock c then (Returned tt, c)
           else (raise AssertionError "", c).

Definition status_ok (typ : string) : bool := String.eqb (upper typ) "OK".

Definition info_fields : list string :=
  ["FLAGS"; "EXISTS"; "RECENT"; "UIDVALIDITY"].

(** [dict(self._conn.response(f) for f in (...))]: each response is a
    pair [(code, data)]; a later pair overrides an earlier one with the
    same code. *)
Fixpoint responses (fields : list string) (info : gmap string (list item))
  : SR SharedImapConn (gmap string (list item)) :=
  match fields with
  | [] => sret info
  | f :: rest =>
      let* kv := conn_call "response" [AStr f] [] in
      responses rest (<[fst kv := snd kv]> info)
  end.

(** [mailbox=mailbox, readonly=readonly] *)
Definition select_kw (mailbox : string) (readonly : bool) : kwargs :=
  [("mailbox", AStr mailbox); ("readonly", ABool readonly)].

(** [select], lines 133-148: the part after the cache test (lines
    140-148), then the whole. *)
Definition select_uncached (mailbox : string) (readonly : bool)
  : SR SharedImapConn reply :=
  let* rv := conn_call "select" [] (select_kw mailbox readonly) in
  if status_ok (fst rv) then
    let* info := responses info_fields ∅ in
    exec (fun c => (Returned tt,
                    set_selected (Some ((mailbox, readonly), rv, info)) c)) in
    sret rv
  else
    fun c =>
      if debug_imap c then
        (raise UnboundLocalError
           "local variable 'info' referenced before assignment", c)
      else (Returned rv, c).

Definition select (mailbox : string) (readonly : bool)
  : SR SharedImapConn reply :=
  exec assert_locked in
  fun c =>
    match _selected c with
    | Some (key, rv, _) =>
        if decide (key = (mailbox, readonly)) then (Returned rv, c)
        else select_uncached mailbox readonly c
    | None => select_uncached mailbox readonly c
    end.

(** [close], lines 128-131. *)
Definition close : SR SharedImapConn reply :=
  exec assert_locked in
  exec (fun c => (Returned tt, set_selected None c)) in
  conn_call "close" [] [].

(** [mailbox_info], lines 150-151; [None] is Python's [None]. *)
Definition mailbox_info (k : string) (default : option (list item))
  : SR SharedImapConn (option (list item)) :=
  fun c =>
    match _selected c with
    | None =>
        (raise TypeError "'NoneType' object has no attribute '__getitem__'", c)
    | Some (_, _, info) =>
        (Returned (match info !! k with Some v => Some v | None => default end),
         c)
    end.

(** The methods installed by [__init__], lines 93-95. *)
Definition proxied : list string :=
  ["append"; "add"; "capability"; "fetch"; "noop";
   "list"; "login"; "search"; "uid"].

(** [proxy_method], lines 100-125.  [mailbox] is the keyword argument of
    that name, if given; [kw] the other keyword arguments.  The text of
    the [IMAP_IOError] is abridged to the method name; the debug output
    is left out. *)
Definition proxy_method (method : string) (args : list arg)
    (mailbox : option string) (kw : kwargs) : SR SharedImapConn reply :=
  scatch
    (exec assert_locked in
     match mailbox with
     | Some mbx =>
         let* rv := select mbx false in
         if negb (status_ok (fst rv)) then sret rv
         else conn_call method args kw
     | None => conn_call method args kw
     end)
    (fun e =>
       if subclass (exn_cls e) IMAP4_error
       then sraise IMAP_IOError ("Failed " +:+ method)
       else fun c => (Raised e, c)).

(** [__enter__] and [__exit__], lines 157-166. *)
Definition conn_enter : SR SharedImapConn unit :=
  fun c =>
    match _conn c with
    | None => (raise IOError "I am dead", c)
    | Some _ =>
        if _lock c then (Hangs, c) else (Returned tt, set_lock true c)
    end.

Definition conn_exit (c : SharedImapConn) : SharedImapConn :=
  set_lock false c.

(** [quit], lines 174-175. *)
Definition conn_quit (c : SharedImapConn) : SharedImapConn :=
  set_conn None c.

(** Attribute access [imap.<method>] followed by the call, for a name
    that is not one of the methods the class defines ([select], [close],
    [mailbox_info] and [quit] above): the proxies installed by
    [__init__] are all there is. *)
Definition forward (method : string) (args : list arg)
    (mailbox : option string) (kw : kwargs) : SR SharedImapConn reply :=
  if existsb (String.eqb method) proxied
  then proxy_method method args mailbox kw
  else sraise AttributeError
         ("'SharedImapConn' object has no attribute '" +:+ method +:+ "'").

(** A caller holding the lock issues forwarded commands one after the
    other, all with the same [mailbox] option, whatever each returns or
    raises. *)
Fixpoint run_forwarded (mailbox : string)
    (cmds : list (string * list arg * kwargs)) (c : SharedImapConn)
  : SharedImapConn :=
  match cmds with
  | [] => c
  | (method, args, kw) :: rest =>
      run_forwarded mailbox rest
        (snd (forward method args (Some mailbox) kw c))
  end.

(** The cache test of [select], line 138. *)
Definition hit (mailbox : string) (readonly : bool) (c : SharedImapConn)
  : bool :=
  match _selected c with
  | Some (key, _, _) => bool_decide (key = (mailbox, readonly))
  | None => false
  end.

(** The folder is the cached selection, as the proxies ask for it. *)
Definition cached (mailbox : string) (c : SharedImapConn) : Prop :=
  exists rv info, _selected c = Some ((mailbox, false), rv, info).

(** The transport answers [response] like [imaplib] does: with a pair,
    never by raising. *)
Definition responds : Prop :=
  forall f t, exists kv t', call "response" [AStr f] [] t = (Returned kv, t').

(** The transport answers [response(code)] with the pair of the code
    and a list that is not empty, as [imaplib] does: the data of the
    untagged response, or [[None]]. *)
Definition answers_code : Prop :=
  forall f t, exists d t',
    call "response" [AStr f] [] t = (Returned (f, d), t') /\ d <> [].

End Transport.

Arguments Conn {T}.
Arguments _lock {T}.
Arguments _conn {T}.
Arguments _selected {T}.
Arguments debug_imap {T}.
Arguments sent {T}.
Arguments set_selected {T}.
Arguments set_lock {T}.
Arguments set_conn {T}.
Arguments new_conn {T}.
Arguments conn_call {T}.
Arguments assert_locked {T}.
Arguments responses {T}.
Arguments select_uncached {T}.
Arguments select {T}.
Arguments close {T}.
Arguments mailbox_info {T}.
Arguments proxy_method {T}.
Arguments forward {T}.
Arguments run_forwarded {T}.
Arguments conn_enter {T}.
Arguments conn_exit {T}.
Arguments conn_quit {T}.
Arguments hit {T}.
Arguments cached {T}.
Arguments responds {T}.
Arguments answers_code {T}.

(** The SELECT commands among the calls that reached the transport. *)
Definition is_select (cmd : command) : bool :=
  String.eqb (cmd_method cmd) "select".

Definition select_count (log : list command) : nat :=
  length (List.filter is_select log).

(** Those of them that the server answered with OK. *)
Definition is_select_ok (cmd : command) : bool :=
  is_select cmd &&
  match cmd_result cmd with
  | Returned rv => String.eqb (upper (fst rv)) "OK"
  | _ => false
  end.

Definition select_ok_count (log : list command) : nat :=
  length (List.filter is_select_ok log).

(** Two transports without a state of their own: one refuses every
    SELECT and accepts the rest, one accepts everything. *)
Definition refusing (method : string) (args : list arg) (kw : kwargs)
    (t : unit) : result reply * unit :=
  if String.eqb method "select"
  then (Returned ("NO", [IStr "no such folder"]), t)
  else (Returned ("OK", []), t).

Definition accepting (method : string) (args : list arg) (kw : kwargs)
    (t : unit) : result reply * unit :=
  (Returned ("OK", []), t).

End Imap.

(** ** ImapMailSource (imap.py, lines 341-526) *)

Module MailSource.
Import Tokenizer Imap PyNum.

Record Config : Type := {
  host : string;
  port : Z;
  protocol : string;
  username : string;
  password : string
}.

(** [event.data]: a dict of status strings, flags and per-folder maps. *)
Inductive data_val : Type :=
  | DStr (s : string)
  | DBool (b : bool)
  | DDict (d : gmap string string).

Definition Event : Type := gmap string data_val.

(** What [open] hands back: [self.conn], or a [WithaBool]. *)
Inductive opened : Type :=
  | TheConn
  | WithaBool (v : bool).

(** [WithaBool.__nonzero__] and [WithaBool.__enter__], lines 31-35; a
    [SharedImapConn] is an object without [__nonzero__], hence true. *)
Definition truth (o : opened) : bool :=
  match o with TheConn => true | WithaBool v => v end.

Definition WithaBool_enter (v : bool) : bool := v.

Definition CONN_ERRORS : list exn_class :=
  [IOError; IMAP_IOError; IMAP4_error; TimedOut].

(** [str.split()] without argument: the words between runs of blanks. *)
Fixpoint words_aux (s : string) (cur : string) : list string :=
  match s with
  | EmptyString =>
      match cur with EmptyString => [] | _ => [cur] end
  | String c r =>
      if PyNum.is_space c then
        match cur with
        | EmptyString => words_aux r EmptyString
        | _ => cur :: words_aux r EmptyString
        end
      else words_aux r (cur +:+ String c EmptyString)
  end.

Definition words (s : string) : list string := words_aux s EmptyString.

(** [' '.join(data)] on parsed data: a nested list is a [TypeError]. *)
Fixpoint join_atoms (data : list value) : result string :=
  match data with
  | [] => Returned EmptyString
  | Atom s :: [] => Returned s
  | Atom s :: rest =>
      do r <- join_atoms rest; Returned (s +:+ " " +:+ r)
  | List _ :: _ =>
      raise TypeError "sequence item: expected string, list found"
  end.

Section Transport.

Variable T : Type.
Variable call : string -> list arg -> kwargs -> T -> result reply * T.

(** The transport classes of [imaplib]: building one connects. *)
Variables IMAP4 IMAP4_SSL : string -> Z -> result T.

Record ImapMailSource : Type := Source {
  my_config : Config;
  timeout : Z;
  capabilities : gset string;
  conn : option (SharedImapConn T);
  event : option Event;
  debug : bool
}.

Definition set_source_conn (c : option (SharedImapConn T))
    (src : ImapMailSource) : ImapMailSource :=
  Source (my_config src) (timeout src) (capabilities src) c
    (event src) (debug src).

Definition set_capabilities (caps : gset string) (src : ImapMailSource)
  : ImapMailSource :=
  Source (my_config src) (timeout src) caps (conn src)
    (event src) (debug src).

(** The event the function works on is [self.event] itself when there
    is one: what is written to it shows in the source. *)
Definition store_event (ev : Event) (src : ImapMailSource)
  : ImapMailSource :=
  match event src with
  | Some _ =>
      Source (my_config src) (timeout src) (capabilities src) (conn src)
        (Some ev) (debug src)
  | None => src
  end.

(** Modelled from the spec: [RunTimed] of [mailpile.util] is not part of
    the sources at hand.  It runs the operation and gives its result; a
    deadline that expires shows as the operation raising [TimedOut]. *)
Definition timed {A} (op : result A) : result A := op.

Definition timed_imap (op : result reply) : result (bool * list value) :=
  do rv <- timed op; _parse_imap rv.

(** Lines 389-396: is the connection we have still good?  [true] stands
    for [return self.conn]; otherwise [self.conn] is dropped. *)
Definition check_existing (src : ImapMailSource)
  : result bool * ImapMailSource :=
  match conn src with
  | None => (Returned false, src)
  | Some c =>
      let handle (e : exn) (c' : SharedImapConn T) :=
        if caught_by e (CONN_ERRORS ++ [AttributeError])
        then (Returned false, set_source_conn None src)
        else (Raised e, set_source_conn (Some c') src)
      in
      match conn_enter c with
      | (Raised e, c1) => handle e c1
      | (Hangs, c1) => (Hangs, set_source_conn (Some c1) src)
      | (Returned _, c1) =>
          let '(r, c2) := proxy_method call "noop" [] None [] c1 in
          let c3 := conn_exit c2 in
          match timed r with
          | Returned rv =>
              if String.eqb (fst rv) "OK"
              then (Returned true, set_source_conn (Some c3) src)
              else (Returned false, set_source_conn None src)
          | Raised e => handle e c3
          | Hangs => (Hangs, set_source_conn (Some c3) src)
          end
      end
  end.

(** The [try] block, lines 413-449.  Beside the outcome it gives the
    local [conn] (the transport, once built), the event data and the
    source. *)
Definition connect (factory : string -> Z -> result T)
    (throw : option exn_class) (ev : Event) (src : ImapMailSource)
  : result opened * option T * Event * ImapMailSource :=
  let cfg := my_config src in
  match timed (factory (host cfg) (port cfg)) with
  | Raised e => (Raised e, None, ev, src)
  | Hangs => (Hangs, None, ev, src)
  | Returned t0 =>
      let '(r1, t1) := call "login" [AStr (username cfg); AStr (password cfg)]
                         [] t0 in
      match timed_imap r1 with
      | Raised e => (Raised e, Some t1, ev, src)
      | Hangs => (Hangs, Some t1, ev, src)
      | Returned (false, _) =>
          let ev1 := <["conn_error" := DStr "Bad username or password"]> ev in
          match throw with
          | Some cls =>
              (raise cls "Bad username or password", Some t1, ev1, src)
          | None => (Returned (WithaBool false), Some t1, ev1, src)
          end
      | Returned (true, _) =>
          let '(r2, t2) := call "capability" [] [] t1 in
          match timed_imap r2 with
          | Raised e => (Raised e, Some t2, ev, src)
          | Hangs => (Hangs, Some t2, ev, src)
          | Returned (ok, data) =>
              match (if ok then join_atoms data else Returned EmptyString)
              with
              | Raised e => (Raised e, Some t2, ev, src)
              | Hangs => (Hangs, Some t2, ev, src)
              | Returned joined =>
                  let caps : gset string :=
                    if ok then list_to_set (words (upper joined)) else ∅ in
                  let src1 := set_capabilities caps src in
                  let src2 :=
                    set_source_conn (Some (new_conn (debug src) t2)) src1 in
                  let ensure (d : string) (e : Event) : Event :=
                    match e !! d with
                    | Some _ => e
                    | None => <[d := DDict ∅]> e
                    end in
                  (Returned TheConn, Some t2,
                   ensure "uidnext" (ensure "uidvalidity" ev), src2)
              end
          end
      end
  end.

(** The handlers, lines 451-462: the message for [conn_error], or
    nothing when no handler takes the exception. *)
Definition conn_error_for (e : exn) : option string :=
  if caught_by e [TimedOut] then Some "Connection timed out"
  else if caught_by e [IMAP_IOError; IMAP4_error]
  then Some "An IMAP protocol error occurred"
  else if caught_by e [IOError; AttributeError; socket_error]
  then Some "A network error occurred"
  else None.

(** Lines 464-471: shut the socket and close the file of the transport,
    letting pass what [except (AttributeError, IOError, socket.error)]
    lets pass. *)
Definition teardown (local : option T) : result unit :=
  match local with
  | None => Returned tt
  | Some t =>
      let swallow (r : result reply) (k : result unit) : result unit :=
        match r with
        | Returned _ => k
        | Raised e =>
            if caught_by e [AttributeError; IOError; socket_error]
            then Returned tt else Raised e
        | Hangs => Hangs
        end in
      let '(r1, t1) := call "socket().shutdown" [AStr "SHUT_RDWR"] [] t in
      swallow r1
        (let '(r2, _) := call "file.close" [] [] t1 in
         swallow r2 (Returned tt))
  end.

(** [_unlocked_open], lines 379-474.  The second component is the event
    data at the end, that of [self.event] or of the event made for the
    occasion. *)
Definition _unlocked_open (conn_cls : option (string -> Z -> result T))
    (throw : option exn_class) (src : ImapMailSource)
  : result opened * Event * ImapMailSource :=
  match check_existing src with
  | (Raised e, src0) => (Raised e, default ∅ (event src0), src0)
  | (Hangs, src0) => (Hangs, default ∅ (event src0), src0)
  | (Returned true, src0) => (Returned TheConn, default ∅ (event src0), src0)
  | (Returned false, src0) =>
      let src1 := set_source_conn None src0 in
      let factory :=
        match conn_cls with
        | Some cls => cls
        | None =>
            if String.eqb (protocol (my_config src1)) "imap_ssl"
            then IMAP4_SSL else IMAP4
        end in
      let ev0 := delete "conn_error" (default ∅ (event src1)) in
      match connect factory throw ev0 src1 with
      | (Returned o, _, ev, src2) => (Returned o, ev, store_event ev src2)
      | (Hangs, _, ev, src2) => (Hangs, ev, store_event ev src2)
      | (Raised e, local, ev, src2) =>
          match conn_error_for e with
          | None => (Raised e, ev, store_event ev src2)
          | Some msg =>
              let ev1 := <["conn_error" := DStr msg]> ev in
              let src3 := store_event ev1 src2 in
              match teardown local with
              | Raised e' => (Raised e', ev1, src3)
              | Hangs => (Hangs, ev1, src3)
              | Returned _ =>
                  match throw with
                  | Some cls => (raise cls msg, ev1, src3)
                  | None => (Returned (WithaBool false), ev1, src3)
                  end
              end
          end
      end
  end.

(** Modelled from the spec: [open] of [BaseMailSource] is not part of
    the sources at hand.  Per the spec (4.4) [open(conn_factory, throw)]
    runs the open algorithm, which is [_unlocked_open]. *)
Definition open := _unlocked_open.

End Transport.

Arguments Source {T}.
Arguments my_config {T}.
Arguments timeout {T}.
Arguments capabilities {T}.
Arguments conn {T}.
Arguments event {T}.
Arguments debug {T}.
Arguments set_source_conn {T}.
Arguments set_capabilities {T}.
Arguments store_event {T}.
Arguments check_existing {T}.
Arguments connect {T}.
Arguments teardown {T}.
Arguments _unlocked_open {T}.
Arguments open {T}.

(** *** The mocks of the test code, lines 531-580 *)

(** A [_MockImap] answers the commands of its result table with the
    value there, and has no other attribute. *)
Definition MockImap : Type := gmap string reply.

Definition DEFAULT_RESULTS : MockImap :=
  list_to_map
    [("append", ("OK", []));
     ("capability", ("OK", [IStr "X-MAGIC-BEANS"; IStr "IMAP4rev1"]));
     ("list", ("OK", []));
     ("login", ("OK", [IStr (String dquote "Welcome, human"
                             +:+ String dquote "")]));
     ("noop", ("OK", []));
     ("select", ("OK", []))].

(** [dict_merge(DEFAULT_RESULTS, RESULTS)] *)
Definition mock_new (RESULTS : MockImap) (h : string) (p : Z)
  : result MockImap :=
  Returned (RESULTS ∪ DEFAULT_RESULTS).

Definition mock_call (method : string) (args : list arg) (kw : kwargs)
    (t : MockImap) : result reply * MockImap :=
  match t !! method with
  | Some rval => (Returned rval, t)
  | None => (raise AttributeError method, t)
  end.

(** [_Mocks.BadLogin] and [_Mocks.NoDns]. *)
Definition BadLogin : string -> Z -> result MockImap :=
  mock_new {["login" := ("BAD", [IStr (String dquote "Sorry dude"
                                        +:+ String dquote "")])]}.

Definition NoDns (h : string) (p : Z) : result MockImap :=
  raise socket_error "Oops".

(** The configuration of the test code, lines 592-598. *)
Definition imap_config : Config :=
  {| host := "imap.gmail.com"; port := 993; protocol := "imap_ssl";
     username := "nobody"; password := "nowhere" |}.

Definition fresh_source : ImapMailSource MockImap :=
  Source imap_config 15 ∅ None None false.

(** *** Mailbox paths, lines 479-483 and 499-500 *)

(** [s.split(sep, 1)]: one cut at most, at the first [sep]. *)
Fixpoint split_once (sep : ascii) (s : string) : list string :=
  match s with
  | EmptyString => [EmptyString]
  | String c r =>
      if Ascii.eqb c sep then [EmptyString; r]
      else match split_once sep r with
           | h :: t => String c h :: t
           | [] => [String c EmptyString]
           end
  end.

(** [_fmt_path], lines 499-500; [key] is [self.my_config._key]. *)
Definition _fmt_path (key path : string) : string :=
  "src:" +:+ key +:+ "/" +:+ path.

(** [open_mailbox], lines 479-483.  [known] is the test of line 480;
    the mailbox made is given by its path, and [None] is the [False]
    of line 483. *)
Definition open_mailbox (known : bool) (mfn : string)
  : result (option string) :=
  if known then
    match split_once "/" mfn with
    | [_; path] => Returned (Some path)
    | _ => raise ValueError "need more than 1 value to unpack"
    end
  else Returned None.

End MailSource.

(** ** SharedImapMailbox (imap.py, lines 193-338) *)

Module Mailbox.
Import Tokenizer Imap PyNum MailSource.

(** Values of the dict [get_info] returns: parsed data, or the integers
    put there under [UIDVALIDITY] and [UID]. *)
Inductive info_val : Type :=
  | VData (v : value)
  | VInt (n : Z).

(** Order of Python 2 on parsed data: strings by their bytes, lists
    item by item, and any list before any string. *)
Fixpoint value_cmp (a b : value) : comparison :=
  match a, b with
  | Atom x, Atom y => String.compare x y
  | List _, Atom _ => Lt
  | Atom _, List _ => Gt
  | List xs, List ys =>
      (fix cmp_list (xs ys : list value) : comparison :=
         match xs, ys with
         | [], [] => Eq
         | [], _ :: _ => Lt
         | _ :: _, [] => Gt
         | x :: xs', y :: ys' =>
             match value_cmp x y with
             | Eq => cmp_list xs' ys'
             | c => c
             end
         end) xs ys
  end.

Definition value_le (a b : value) : bool :=
  match value_cmp a b with Gt => false | _ => true end.

(** [sorted] with the order given by [le]. *)
Fixpoint insert_by {A} (le : A -> A -> bool) (x : A) (l : list A) : list A :=
  match l with
  | [] => [x]
  | y :: r => if le x y then x :: l else y :: insert_by le x r
  end.

Fixpoint sort_by {A} (le : A -> A -> bool) (l : list A) : list A :=
  match l with
  | [] => []
  | x :: r => insert_by le x (sort_by le r)
  end.

(** [sorted(data)] *)
Definition sorted (data : list value) : list value := sort_by value_le data.

(** [int(x)] of a raw item and of a parsed value. *)
Definition int_of_item (x : item) : result Z :=
  match x with
  | IStr s =>
      match py_int 10 s with
      | Some n => Returned n
      | None => raise ValueError "invalid literal for int() with base 10"
      end
  | _ => raise TypeError "int() argument must be a string or a number"
  end.

Definition int_of_value (v : value) : result Z :=
  match v with
  | Atom s => int_of_item (IStr s)
  | List _ => raise TypeError "int() argument must be a string or a number"
  end.

(** [l[0]] *)
Definition first {A} (l : list A) : result A :=
  match l with
  | x :: _ => Returned x
  | [] => raise IndexError "list index out of range"
  end.

(** [uidv, uid = (int(k, 36) for k in key.split('.'))], line 243. *)
Definition parse_key (key : string) : result (Z * Z) :=
  match Urllib.split_on "."%char key with
  | [a; b] =>
      match py_int 36 a, py_int 36 b with
      | Some uidv, Some uid => Returned (uidv, uid)
      | _, _ => raise ValueError "invalid literal for int() with base 36"
      end
  | _ => raise ValueError "wrong number of values to unpack"
  end.

(** The generator of [iterkeys], lines 297-298, run to its end. *)
Fixpoint emit_keys (validity : item) (uids : list value)
  : result (list string) :=
  match uids with
  | [] => Returned []
  | k :: rest =>
      do v <- int_of_item validity;
      do u <- int_of_value k;
      do keys <- emit_keys validity rest;
      Returned ((b36 v +:+ "." +:+ b36 u) :: keys)
  end.

(** [iter(x)] of a parsed value: the items of a list, the characters of
    a string. *)
Fixpoint chars (s : string) : list value :=
  match s with
  | EmptyString => []
  | String c r => Atom (String c EmptyString) :: chars r
  end.

Definition iter_value (v : value) : list value :=
  match v with List l => l | Atom s => chars s end.

(** The dict of line 251, built from the items of [data[1]] taken two
    by two, a last odd one dropped; a list cannot be a key. *)
Fixpoint dict_of_pairs (l : list value) (d : gmap string info_val)
  : result (gmap string info_val) :=
  match l with
  | Atom k :: v :: rest => dict_of_pairs rest (<[k := VData v]> d)
  | List _ :: _ :: _ => raise TypeError "unhashable type: 'list'"
  | _ => Returned d
  end.

(** [data[0][1]], line 275. *)
Definition first_payload (data : list item) : result string :=
  do x <- first data;
  match x with
  | ITuple _ payload => Returned payload
  | IStr (String _ (String c _)) => Returned (String c EmptyString)
  | IStr _ => raise IndexError "string index out of range"
  | INone => raise TypeError "'NoneType' object has no attribute '__getitem__'"
  end.

(** [self._assert], lines 218-220. *)
Definition _assert {S} (test : bool) (error : string) : SR S unit :=
  if test then sret tt else sraise IMAP_IOError error.

(** [range(0, n)] *)
Definition range0 (n : Z) : list Z := map Z.of_nat (seq 0 (Z.to_nat n)).

(** The request of one chunk, line 268. *)
Definition body_request (offset size : Z) : string :=
  "(BODY[]<" +:+ str_of_int offset +:+ "." +:+ str_of_int size +:+ ">)".

Section Transport.

Variable T : Type.
Variable call : string -> list arg -> kwargs -> T -> result reply * T.
Variables IMAP4 IMAP4_SSL : string -> Z -> result T.

(** [MBX_ID_LEN] of [mailpile.mailutils], the width of a mailbox id. *)
Variable MBX_ID_LEN : nat.

(** The fields of the mailbox object. *)
Variable path : string.
Variable conn_cls : option (string -> Z -> result T).

(** [with self.open_imap() as imap: body], [open_imap] being
    [self.source.open(throw=IMAP_IOError, conn_cls=self.conn_cls)]. *)
Definition with_imap {A} (body : SR (SharedImapConn T) A)
  : SR (ImapMailSource T) A :=
  fun src =>
    match open call IMAP4 IMAP4_SSL conn_cls (Some IMAP_IOError) src with
    | (Raised e, _, src1) => (Raised e, src1)
    | (Hangs, _, src1) => (Hangs, src1)
    | (Returned (WithaBool _), _, src1) =>
        (raise AttributeError "'bool' object has no attribute", src1)
    | (Returned TheConn, _, src1) =>
        match conn src1 with
        | None =>
            (raise AttributeError "'NoneType' object has no attribute", src1)
        | Some c =>
            match conn_enter c with
            | (Returned _, c1) =>
                let '(r, c2) := body c1 in
                (r, set_source_conn (Some (conn_exit c2)) src1)
            | (Raised e, c1) => (Raised e, set_source_conn (Some c1) src1)
            | (Hangs, c1) => (Hangs, set_source_conn (Some c1) src1)
            end
        end
    end.

Definition parsed (rv : reply) : SR (SharedImapConn T) (bool * list value) :=
  slift (timed_imap (Returned rv)).

(** [remove], lines 235-239. *)
Definition remove (key : string) : SR (ImapMailSource T) unit :=
  with_imap
    (let* rv := forward call "store" [AStr "+FLAGS"; AStr "\Deleted"]
                  (Some path) [] in
     let* r := parsed rv in
     _assert (fst r) "Failed to remove message").

(** [add], lines 230-233. *)
Definition add (message : string) : SR (ImapMailSource T) unit :=
  with_imap
    (let* rv := forward call "append" [AStr path] None
                  [("message", AStr message)] in
     let* r := parsed rv in
     _assert (fst r) "Failed to add message").

(** [str(uidv) in x] *)
Definition str_in (s : string) (x : option (list item)) : result bool :=
  match x with
  | None => raise TypeError "argument of type 'NoneType' is not iterable"
  | Some l =>
      Returned (existsb (fun i => match i with
                                  | IStr s' => String.eqb s s'
                                  | _ => false
                                  end) l)
  end.

(** [data[1]] *)
Definition second (data : list value) : result value :=
  match data with
  | _ :: x :: _ => Returned x
  | _ => raise IndexError "list index out of range"
  end.

(** [get_info], lines 241-254. *)
Definition get_info (key : string)
  : SR (ImapMailSource T) (gmap string info_val) :=
  with_imap
    (let* k := slift (parse_key key) in
     let* rv := forward call "uid"
                  [AStr "FETCH"; AInt (snd k);
                   AStr "(RFC822.SIZE FLAGS ENVELOPE)"] (Some path) [] in
     let* r := parsed rv in
     if negb (fst r) then sraise KeyError ""
     else
       let* uv := mailbox_info "UIDVALIDITY" (Some [IStr "0"]) in
       let* insync := slift (str_in (str_of_int (fst k)) uv) in
       exec _assert insync "Mailbox is out of sync" in
       let* x := slift (second (snd r)) in
       let* info := slift (dict_of_pairs (iter_value x) ∅) in
       sret (<["UID" := VInt (snd k)]> (<["UIDVALIDITY" := VInt (fst k)]> info))).

Definition int_of_info (v : option info_val) : result Z :=
  match v with
  | None => raise KeyError "RFC822.SIZE"
  | Some (VInt n) => Returned n
  | Some (VData d) => int_of_value d
  end.

(** [info['UID']] as an argument of the fetch: the integer [get_info]
    put there. *)
Definition arg_of_info (v : option info_val) : result arg :=
  match v with
  | None => raise KeyError "UID"
  | Some (VInt n) => Returned (AInt n)
  | Some (VData (Atom s)) => Returned (AStr s)
  | Some (VData (List _)) => Returned ANone
  end.

(** The loop of [get], lines 267-275. *)
Fixpoint fetch_chunks (uid : arg) (chunk_size : Z) (chunks : list Z)
    (msg_data : list string) : SR (SharedImapConn T) (list string) :=
  match chunks with
  | [] => sret msg_data
  | chunk :: rest =>
      let req := body_request (chunk * chunk_size) chunk_size in
      let* rv := (fun c => let '(r, c') :=
                     forward call "uid" [AStr "FETCH"; uid; AStr req]
                       (Some path) [] c in (timed r, c')) in
      exec _assert (String.eqb (fst rv) "OK")
             ("Fetching chunk " +:+ str_of_int chunk +:+ " failed") in
      let* payload := slift (first_payload (snd rv)) in
      fetch_chunks uid chunk_size rest (msg_data ++ [payload])
  end.

(** The body of the [with] of [get], lines 260-277. *)
Definition get_body (uid : arg) (msg_bytes timeout : Z)
  : SR (SharedImapConn T) string :=
  let chunk_size := timeout * 1024 in
  if (chunk_size =? 0)%Z
  then sraise ZeroDivisionError "integer division or modulo by zero"
  else
    let* msg_data := fetch_chunks uid chunk_size
                       (range0 (1 + msg_bytes / chunk_size)) [] in
    sret (Urllib.join msg_data).

(** [get], lines 256-277. *)
Definition get (key : string)
  : SR (ImapMailSource T) (gmap string info_val * string) :=
  let* info := get_info key in
  let* msg_bytes := slift (int_of_info (info !! "RFC822.SIZE")) in
  fun src =>
    with_imap
      (let* uid := slift (arg_of_info (info !! "UID")) in
       let* payload := get_body uid msg_bytes (timeout src) in
       sret (info, payload)) src.

(** [get_file], lines 287-289: the stream is given by what it reads. *)
Definition get_file (key : string) : SR (ImapMailSource T) string :=
  let* r := get key in sret (snd r).

(** [iterkeys], lines 291-298: what is asked of the server, then the
    keys made of it. *)
Definition iterkeys_query : SR (SharedImapConn T) (item * list value) :=
  let* rv := forward call "uid" [AStr "SEARCH"; ANone; AStr "ALL"]
               (Some path) [] in
  let* r := parsed rv in
  exec _assert (fst r) "Failed to list mailbox contents" in
  let* uv := mailbox_info "UIDVALIDITY" (Some [IStr "0"]) in
  let* validity :=
    slift (match uv with
           | Some l => first l
           | None => raise TypeError
                       "'NoneType' object has no attribute '__getitem__'"
           end) in
  sret (validity, snd r).

Definition iterkeys : SR (ImapMailSource T) (list string) :=
  let* q := with_imap iterkeys_query in
  slift (emit_keys (fst q) (sorted (snd q))).

(** The connection is alive, locked by the caller, and has the folder
    selected with an OK reply. *)
Definition ready (c : SharedImapConn T) : Prop :=
  _lock c = true
  /\ is_Some (_conn c)
  /\ exists rv info,
       _selected c = Some ((path, false), rv, info)
       /\ status_ok (fst rv) = true.

(** The transport answers the partial fetches of the message [body],
    [chunk_size] bytes at a time, with OK and the bytes asked for, as a
    literal. *)
Definition serves (uid : arg) (chunk_size : Z) (body : string) : Prop :=
  forall t k,
    (0 <= k <= Z.of_nat (String.length body) / chunk_size)%Z ->
    exists hdr rest t',
      call "uid" [AStr "FETCH"; uid;
                  AStr (body_request (k * chunk_size) chunk_size)] [] t =
      (Returned ("OK",
                 ITuple hdr (substring (Z.to_nat (k * chunk_size))
                               (Z.to_nat chunk_size) body) :: rest), t').

(** [get_msg_ptr] and [get_file_by_ptr], lines 303-307. *)
Definition get_msg_ptr (mboxid key : string) : string :=
  mboxid +:+ Urllib.quote key.

Definition get_file_by_ptr (msg_ptr : string)
  : SR (ImapMailSource T) string :=
  get_file (Urllib.unquote (drop_str MBX_ID_LEN msg_ptr)).

(** [__nonzero__], lines 222-228. *)
Definition __nonzero__ : SR (ImapMailSource T) bool :=
  scatch
    (with_imap
       (let* rv := forward call "noop" [] (Some path) [] in
        let* r := parsed rv in
        sret (fst r)))
    (fun e =>
       if caught_by e [IOError; AttributeError] then sret false
       else fun src => (Raised e, src)).

(** [__contains__], lines 312-317. *)
Definition __contains__ (key : string) : SR (ImapMailSource T) bool :=
  scatch
    (exec get_info key in sret true)
    (fun e =>
       if caught_by e [KeyError] then sret false
       else fun src => (Raised e, src)).

(** [__len__], lines 319-322: the method, which gives the first item
    of the EXISTS data as it is. *)
Definition __len__ : SR (ImapMailSource T) item :=
  with_imap
    (let* rv := forward call "noop" [] (Some path) [] in
     exec parsed rv in
     let* ex := mailbox_info "EXISTS" (Some [IStr "0"]) in
     slift (match ex with
            | Some l => first l
            | None => raise TypeError
                        "'NoneType' object has no attribute '__getitem__'"
            end)).

End Transport.

(** The text of a UID or UIDVALIDITY, as the replies have it. *)
Definition uid_text (u : N) : string := str_of_int (Z.of_N u).

(** The key of a message, and the UIDs a list of keys stands for. *)
Definition key_of (uidvalidity uid : Z) : string :=
  b36 uidvalidity +:+ "." +:+ b36 uid.

Definition key_uids (keys : list string) : list (result Z) :=
  map (fun k => do p <- parse_key k; Returned (snd p)) keys.

Fixpoint ascending (l : list (result Z)) : bool :=
  match l with
  | Returned a :: ((Returned b :: _) as r) => (a <=? b)%Z && ascending r
  | [] | [Returned _] => true
  | _ => false
  end.

(** [s.startswith(p)] *)
Fixpoint starts_with_str (p s : string) : bool :=
  match p with
  | EmptyString => true
  | String a p' =>
      match s with
      | String b s' => Ascii.eqb a b && starts_with_str p' s'
      | EmptyString => false
      end
  end.

(** The partial-body fetches among the calls that reached the
    transport. *)
Definition is_body_fetch (cmd : command) : bool :=
  String.eqb (cmd_method cmd) "uid" &&
  match cmd_args cmd with
  | [AStr "FETCH"; _; AStr req] => starts_with_str "(BODY[]<" req
  | _ => false
  end.

Definition body_fetch_count (log : list command) : nat :=
  length (List.filter is_body_fetch log).

(** Their arguments, in the order they were sent. *)
Definition body_fetches (log : list command) : list (list arg) :=
  map cmd_args (List.filter is_body_fetch log).

(** [ceil(a / b)] for [b > 0]. *)
Definition ceil_div (a b : Z) : Z := (a + b - 1) / b.

Arguments with_imap {T} call IMAP4 IMAP4_SSL conn_cls {A} body.
Arguments remove {T}.
Arguments add {T}.
Arguments get_info {T}.
Arguments fetch_chunks {T}.
Arguments get_body {T}.
Arguments get {T}.
Arguments get_file {T}.
Arguments iterkeys_query {T}.
Arguments ready {T}.
Arguments serves {T}.
Arguments iterkeys {T}.
Arguments get_file_by_ptr {T}.
Arguments __nonzero__ {T}.
Arguments __contains__ {T}.
Arguments __len__ {T}.

End Mailbox.

(** ** A small server to run the mailbox against

    It holds one folder with the given UIDVALIDITY and UIDs, every
    message having the same body, and answers partial fetches of
    [chunk] bytes with a literal. *)

Module Demo.
Import Tokenizer Imap PyNum MailSource Mailbox.

Fixpoint join_with (sep : string) (l : list string) : string :=
  match l with
  | [] => EmptyString
  | [x] => x
  | x :: r => x +:+ sep +:+ join_with sep r
  end.

Definition server (uidvalidity : Z) (uids : list Z) (body : string)
    (chunk : Z) (method : string) (args : list arg) (kw : kwargs) (t : unit)
  : result reply * unit :=
  let size := Z.of_nat (String.length body) in
  if String.eqb method "response" then
    match args with
    | [AStr f] =>
        if String.eqb f "UIDVALIDITY"
        then (Returned (f, [IStr (str_of_int uidvalidity)]), t)
        else (Returned (f, [INone]), t)
    | _ => (raise TypeError "response() takes exactly 2 arguments", t)
    end
  else if String.eqb method "uid" then
    match args with
    | [AStr "SEARCH"; ANone; AStr "ALL"] =>
        (Returned ("OK", [IStr (join_with " " (map str_of_int uids))]), t)
    | [AStr "FETCH"; AInt u; AStr req] =>
        if String.eqb req "(RFC822.SIZE FLAGS ENVELOPE)" then
          (Returned ("OK", [IStr ("1 (UID " +:+ str_of_int u
                                  +:+ " RFC822.SIZE " +:+ str_of_int size
                                  +:+ " FLAGS (\Seen) ENVELOPE (NIL))")]), t)
        else
          match List.find
                  (fun k => String.eqb req (body_request (k * chunk) chunk))
                  (range0 (size / chunk + 2)) with
          | Some k =>
              (Returned ("OK",
                         [ITuple ("1 (UID " +:+ str_of_int u +:+ " BODY[]")
                            (substring (Z.to_nat (k * chunk))
                               (Z.to_nat chunk) body);
                          IStr ")"]), t)
          | None => (Returned ("NO", [IStr "bad range"]), t)
          end
    | _ => (Returned ("BAD", [IStr "unknown command"]), t)
    end
  else (Returned ("OK", [IStr "done"]), t).

Definition connect_to (h : string) (p : Z) : result unit := Returned tt.

Fixpoint repeat_char (c : ascii) (n : nat) : string :=
  match n with
  | O => EmptyString
  | S n' => String c (repeat_char c n')
  end.

(** A source not yet connected, with the given timeout. *)
Definition source (timeout : Z) : ImapMailSource unit :=
  Source imap_config timeout ∅ None None false.

End Demo.

(** * Properties *)

Module TokenizerFacts.
Import Tokenizer.

Lemma append_nil (r : string) : "" +:+ r = r.
Proof. reflexivity. Qed.

Lemma append_cons c (s r : string) : String c s +:+ r = String c (s +:+ r).
Proof. reflexivity. Qed.

Lemma append_assoc (a b c : string) : (a +:+ b) +:+ c = a +:+ (b +:+ c).
Proof.
  induction a as [|x a IH]; [reflexivity|].
  now rewrite !append_cons, IH.
Qed.

Lemma drop_str_app (t r : string) :
  drop_str (String.length t) (t +:+ r) = r.
Proof. induction t as [|c t IH]; [reflexivity|]. rewrite append_cons; simpl; auto. Qed.

Lemma length_app_str (t r : string) :
  String.length (t +:+ r) = (String.length t + String.length r)%nat.
Proof. induction t as [|c t IH]; [reflexivity|]. rewrite append_cons; simpl; auto. Qed.

Lemma take_while_prefix p s : exists r, s = take_while p s +:+ r.
Proof.
  induction s as [|c s [r IH]]; simpl.
  - exists ""; reflexivity.
  - destruct (p c); simpl.
    + exists r. rewrite append_cons. now f_equal.
    + now exists (String c s).
Qed.

Lemma upto_quote_prefix s t :
  upto_quote s = Some t -> t <> "" /\ exists r, s = t +:+ r.
Proof.
  revert t; induction s as [|c s IH]; simpl; intros t H; [discriminate|].
  destruct (Ascii.eqb c dquote).
  - injection H as <-. split; [discriminate|]. now exists s.
  - destruct (upto_quote s) as [u|]; simpl in H; [|discriminate].
    injection H as <-. destruct (IH u eq_refl) as [_ [r ->]].
    split; [discriminate|]. now exists r.
Qed.

Lemma alt_plus_prefix p s t :
  alt_plus p s = Some t -> t <> "" /\ exists r, s = t +:+ r.
Proof.
  unfold alt_plus. destruct (take_while_prefix p s) as [r Hr].
  destruct (take_while p s) as [|c u] eqn:E; [discriminate|].
  intros [= <-]. split; [discriminate|]. now exists r.
Qed.

(** A match is a non-empty prefix of the line. *)
Lemma IMAP_TOKEN_match_prefix dline token :
  IMAP_TOKEN_match dline = Some token ->
  token <> "" /\ exists r, dline = token +:+ r.
Proof.
  unfold IMAP_TOKEN_match, or_else.
  destruct (alt_quoted dline) as [t|] eqn:Eq.
  { intros [= <-]. unfold alt_quoted in Eq.
    destruct dline as [|c s]; [discriminate|].
    destruct (Ascii.eqb c dquote); [|discriminate].
    destruct (upto_quote s) as [u|] eqn:Eu; simpl in Eq; [|discriminate].
    injection Eq as <-. destruct (upto_quote_prefix _ _ Eu) as [_ [r ->]].
    split; [discriminate|]. now exists r. }
  destruct (alt_paren dline) as [t|] eqn:Ep.
  { intros [= <-]. unfold alt_paren in Ep.
    destruct dline as [|c s]; [discriminate|].
    destruct (Ascii.eqb c lparen || Ascii.eqb c rparen); [|discriminate].
    injection Ep as <-. split; [discriminate|]. now exists s. }
  destruct (alt_plus is_atom_char dline) as [t|] eqn:Ea.
  { intros [= <-]. eapply alt_plus_prefix; eauto. }
  apply alt_plus_prefix.
Qed.

Lemma IMAP_TOKEN_match_shrinks dline token :
  IMAP_TOKEN_match dline = Some token ->
  (String.length (drop_str (String.length token) dline)
   < String.length dline)%nat.
Proof.
  intros H. destruct (IMAP_TOKEN_match_prefix _ _ H) as [Hne [r ->]].
  rewrite drop_str_app, length_app_str.
  destruct token; [congruence|simpl; lia].
Qed.

(** The loop over a line is the token stream fed to [step]; with the
    fuel [_parse_imap] gives it, it never runs out. *)
Lemma parse_line_run_tokens fuel dline st :
  (String.length dline < fuel)%nat ->
  parse_line fuel dline st = run_tokens (tokens fuel dline) st.
Proof.
  revert dline st; induction fuel as [|fuel IH]; intros dline st Hlt; [lia|].
  simpl. destruct (IMAP_TOKEN_match dline) as [token|] eqn:E; [|reflexivity].
  simpl. destruct (step token st) as [st'| |]; simpl; auto.
  apply IH. pose proof (IMAP_TOKEN_match_shrinks _ _ E). lia.
Qed.

Lemma run_tokens_app t1 t2 st :
  run_tokens (t1 ++ t2) st = do st' <- run_tokens t1 st; run_tokens t2 st'.
Proof.
  revert st; induction t1 as [|t t1 IH]; intros st; simpl; [reflexivity|].
  destruct (step t st); simpl; auto.
Qed.

Lemma parse_lines_run_tokens lines st :
  parse_lines (text lines) st = run_tokens (all_tokens lines) st.
Proof.
  revert st; induction lines as [|l lines IH]; intros st; [reflexivity|].
  change (parse_lines (text (l :: lines)) st)
    with (do st' <- parse_line (S (String.length l)) l st;
          parse_lines (text lines) st').
  change (all_tokens (l :: lines)) with (line_tokens l ++ all_tokens lines)%list.
  rewrite run_tokens_app, parse_line_run_tokens by lia.
  fold (line_tokens l).
  destruct (run_tokens (line_tokens l) st); simpl; auto.
Qed.

Lemma starts_with_quote_not_paren c :
  Ascii.eqb c dquote = true ->
  Ascii.eqb c lparen = false /\ Ascii.eqb c rparen = false.
Proof. intros H%Ascii.eqb_eq; subst c; split; reflexivity. Qed.

Ltac token_head c :=
  destruct (Ascii.eqb c dquote) eqn:?Hq;
  [ destruct (starts_with_quote_not_paren c) as [?Hl ?Hr]; [assumption|];
    rewrite ?Hl, ?Hr
  | destruct (Ascii.eqb c lparen) eqn:?Hl;
    [ | destruct (Ascii.eqb c rparen) eqn:?Hr ] ].

(** [step] raises exactly on a closing parenthesis met at depth 0, with
    [IndexError]; the depth is the height of the stack. *)
Lemma run_tokens_total toks st :
  if closes_matched (length (stack st)) toks
  then exists st', run_tokens toks st = Returned st'
  else run_tokens toks st = raise IndexError "pop from empty list".
Proof.
  revert st; induction toks as [|t toks IH]; intros [p s]; simpl.
  { eauto. }
  destruct t as [|c t]; simpl.
  { apply (IH (PState _ s)). }
  token_head c; simpl.
  - apply (IH (PState _ s)).
  - apply (IH (PState [] (p :: s))).
  - destruct s as [|parent s]; simpl; [reflexivity|].
    apply (IH (PState _ s)).
  - destruct (in_ws_tuple c); simpl; [apply (IH (PState p s))|].
    apply (IH (PState _ s)).
Qed.

(** What lies below the starting stack is never looked at. *)
Lemma run_tokens_frame toks p s0 s p' s' :
  run_tokens toks (PState p s0) = Returned (PState p' s') ->
  run_tokens toks (PState p (s0 ++ s)) = Returned (PState p' (s' ++ s)).
Proof.
  revert p s0; induction toks as [|t toks IH]; intros p s0; simpl.
  { intros [= -> ->]; reflexivity. }
  destruct t as [|c t]; simpl.
  { apply IH. }
  token_head c; simpl.
  - apply IH.
  - apply (IH [] (p :: s0)).
  - destruct s0 as [|parent s0]; simpl; [discriminate|]. apply IH.
  - destruct (in_ws_tuple c); simpl; apply IH.
Qed.

Lemma all_tokens_app l1 l2 :
  all_tokens (l1 ++ l2) = (all_tokens l1 ++ all_tokens l2)%list.
Proof. unfold all_tokens. now rewrite map_app, concat_app. Qed.

Lemma parse_imap_run_tokens status lines :
  _parse_imap (status, text lines) =
  do st <- run_tokens (all_tokens lines) (PState [] []);
  Returned (String.eqb (upper status) "OK", pdata st).
Proof. unfold _parse_imap; simpl. now rewrite parse_lines_run_tokens. Qed.

(** *** Reading back what [render] writes *)

Lemma tokens_fuel f1 : forall f2 s,
  (String.length s < f1)%nat -> (String.length s < f2)%nat ->
  tokens f1 s = tokens f2 s.
Proof.
  induction f1 as [|f1 IH]; intros f2 s H1 H2; [lia|].
  destruct f2 as [|f2]; [lia|]. simpl.
  destruct (IMAP_TOKEN_match s) as [t|] eqn:E; [|reflexivity].
  pose proof (IMAP_TOKEN_match_shrinks _ _ E).
  f_equal. apply IH; lia.
Qed.

Lemma line_tokens_step s t :
  IMAP_TOKEN_match s = Some t ->
  line_tokens s = t :: line_tokens (drop_str (String.length t) s).
Proof.
  intros E. unfold line_tokens at 1. simpl. rewrite E. f_equal.
  pose proof (IMAP_TOKEN_match_shrinks _ _ E).
  apply tokens_fuel; lia.
Qed.

Lemma line_tokens_app t r :
  IMAP_TOKEN_match (t +:+ r) = Some t ->
  line_tokens (t +:+ r) = t :: line_tokens r.
Proof.
  intros E. rewrite (line_tokens_step _ _ E). now rewrite drop_str_app.
Qed.

Lemma take_while_app p s rest :
  all_chars p s = true -> next_is (fun c => negb (p c)) rest = true ->
  take_while p (s +:+ rest) = s.
Proof.
  induction s as [|c s IH]; cbn [all_chars]; intros Hs Hr.
  - rewrite append_nil. destruct rest as [|c r]; [reflexivity|].
    simpl in *. now destruct (p c).
  - apply andb_prop in Hs as [Hc Hs]. rewrite append_cons. simpl.
    rewrite Hc. now rewrite IH.
Qed.

Lemma match_bare s rest :
  is_bare s = true ->
  next_is (fun c => negb (is_atom_char c)) rest = true ->
  IMAP_TOKEN_match (s +:+ rest) = Some s.
Proof.
  intros Hb Hr. destruct s as [|c s]; [discriminate|].
  unfold is_bare in Hb. pose proof Hb as Hb'.
  cbn [all_chars] in Hb'. apply andb_prop in Hb' as [Hc _].
  unfold IMAP_TOKEN_match, or_else, alt_quoted, alt_paren, alt_plus.
  rewrite append_cons.
  unfold is_atom_char in Hc. apply negb_true_iff in Hc.
  apply orb_false_elim in Hc as [Hc _]. apply orb_false_elim in Hc as [Hc Hq].
  rewrite Hq, Hc. rewrite <- append_cons.
  rewrite (take_while_app is_atom_char (String c s) rest Hb Hr).
  reflexivity.
Qed.

Lemma upto_quote_app s rest :
  writable (Atom s) = true ->
  upto_quote (s +:+ String dquote rest) = Some (s +:+ String dquote "").
Proof.
  cbn [writable]. induction s as [|c s IH]; cbn [all_chars]; intros H.
  - reflexivity.
  - apply andb_prop in H as [Hc Hs]. rewrite !append_cons. simpl.
    apply negb_true_iff in Hc. rewrite Hc. now rewrite IH.
Qed.

Lemma match_quoted s rest :
  writable (Atom s) = true ->
  IMAP_TOKEN_match (quoted s +:+ rest) = Some (quoted s).
Proof.
  intros Hw. unfold quoted. rewrite append_cons, append_assoc.
  rewrite append_cons, append_nil.
  unfold IMAP_TOKEN_match, or_else, alt_quoted.
  rewrite Ascii.eqb_refl, (upto_quote_app s rest Hw). reflexivity.
Qed.

Lemma match_paren c rest :
  c = lparen \/ c = rparen ->
  IMAP_TOKEN_match (String c rest) = Some (String c "").
Proof. intros [-> | ->]; reflexivity. Qed.

Lemma match_blank rest :
  next_is (fun c => negb (is_space c)) rest = true ->
  IMAP_TOKEN_match (" " +:+ rest) = Some " ".
Proof.
  intros Hr. rewrite append_cons, append_nil.
  assert (Ht : take_while is_space rest = "").
  { destruct rest as [|c r]; [reflexivity|]. cbn [next_is] in Hr.
    apply negb_true_iff in Hr. cbn [take_while]. now rewrite Hr. }
  change (IMAP_TOKEN_match (String " "%char rest))
    with (Some (String " "%char (take_while is_space rest))).
  now rewrite Ht.
Qed.

Lemma value_nested_ind (P : value -> Prop) :
  (forall s, P (Atom s)) ->
  (forall l, Forall P l -> P (List l)) ->
  forall v, P v.
Proof.
  intros HA HL. fix IH 1. intros [s|l]; [apply HA|].
  apply HL. induction l as [|x l IHl]; constructor; [apply IH|exact IHl].
Qed.

Lemma append_nil_r (s : string) : s +:+ "" = s.
Proof. induction s as [|c s IH]; [reflexivity|]. now rewrite append_cons, IH. Qed.

Lemma spaced_cons x tl :
  spaced (x :: tl) =
  x +:+ match tl with [] => "" | _ => " " +:+ spaced tl end.
Proof. destruct tl; [now rewrite append_nil_r|reflexivity]. Qed.

Lemma between_cons x tl :
  between (x :: tl) =
  (x ++ match tl with [] => [] | _ => " " :: between tl end)%list.
Proof. destruct tl; [now rewrite app_nil_r|reflexivity]. Qed.

(** Rendered data never starts with a blank. *)
Lemma render_head v rest :
  next_is (fun c => negb (is_space c)) (render v +:+ rest) = true.
Proof.
  destruct v as [s|l]; [|reflexivity].
  cbn [render]. unfold render_atom.
  destruct (is_bare s) eqn:Hb; [|reflexivity].
  destruct s as [|c s]; [discriminate|].
  unfold is_bare in Hb. cbn [all_chars] in Hb.
  apply andb_prop in Hb as [Hc _]. rewrite append_cons. cbn [next_is].
  unfold is_atom_char in Hc. apply negb_true_iff in Hc.
  apply orb_false_elim in Hc as [_ Hc]. now rewrite Hc.
Qed.

Lemma lexes_list l :
  Forall (fun v => forall rest,
              writable v = true ->
              next_is (fun c => negb (is_atom_char c)) rest = true ->
              line_tokens (render v +:+ rest) =
              (render_tokens v ++ line_tokens rest)%list) l ->
  forall rest,
    forallb writable l = true ->
    next_is (fun c => negb (is_atom_char c)) rest = true ->
    line_tokens (spaced (map render l) +:+ rest) =
    (between (map render_tokens l) ++ line_tokens rest)%list.
Proof.
  induction 1 as [|v l Hv Hl IH]; intros rest Hw Hr; [reflexivity|].
  cbn [map forallb] in *. apply andb_prop in Hw as [Hwv Hwl].
  rewrite spaced_cons, between_cons, append_assoc, <- app_assoc.
  destruct l as [|v' l'].
  - cbn [map]. rewrite append_nil. now apply Hv.
  - cbn [map] in *. rewrite Hv by (assumption || reflexivity). f_equal.
    rewrite append_assoc.
    rewrite line_tokens_app.
    + cbn [app]. f_equal. now apply IH.
    + apply match_blank. rewrite spaced_cons, append_assoc.
      apply render_head.
Qed.

(** The tokens of rendered data are those [render] wrote. *)
Lemma lexes_value v :
  forall rest,
    writable v = true ->
    next_is (fun c => negb (is_atom_char c)) rest = true ->
    line_tokens (render v +:+ rest) =
    (render_tokens v ++ line_tokens rest)%list.
Proof.
  induction v as [s|l IH] using value_nested_ind; intros rest Hw Hr.
  - cbn [render render_tokens]. unfold render_atom.
    destruct (is_bare s) eqn:Hb.
    + now rewrite line_tokens_app by now apply match_bare.
    + now rewrite line_tokens_app by now apply match_quoted.
  - cbn [render render_tokens writable] in *.
    change (String lparen (spaced (map render l) +:+ String rparen "")
            +:+ rest)
      with (String lparen "" +:+
            ((spaced (map render l) +:+ String rparen "") +:+ rest)).
    rewrite line_tokens_app by (apply match_paren; now left).
    cbn [app]. f_equal. rewrite append_assoc, <- app_assoc.
    rewrite (lexes_list l IH (String rparen "" +:+ rest) Hw eq_refl).
    f_equal.
    all: rewrite line_tokens_app; [reflexivity|apply match_paren; now right].
Qed.

Lemma drop_last_snoc s c : drop_last (s +:+ String c "") = s.
Proof.
  induction s as [|x s IH]; [reflexivity|].
  rewrite append_cons. cbn [drop_last]. rewrite IH.
  destruct s; reflexivity.
Qed.

Lemma step_bare s st :
  is_bare s = true ->
  step s st = Returned (PState (pdata st ++ [Atom s]) (stack st)).
Proof.
  intros Hb. destruct s as [|c s]; [discriminate|].
  unfold is_bare in Hb. cbn [all_chars] in Hb.
  apply andb_prop in Hb as [Hc _]. unfold is_atom_char in Hc.
  apply negb_true_iff in Hc.
  apply orb_false_elim in Hc as [Hc Hsp].
  apply orb_false_elim in Hc as [Hc Hq].
  apply orb_false_elim in Hc as [Hl Hr].
  unfold step. rewrite Hq, Hl, Hr.
  assert (Hws : in_ws_tuple c = false).
  { unfold in_ws_tuple. unfold is_space in Hsp.
    apply orb_false_elim in Hsp as [H32 H913]. rewrite H32.
    apply andb_false_iff in H913.
    destruct (N.eqb_spec (N_of_ascii c) 9) as [E|_];
      [rewrite E in H913; now destruct H913|].
    destruct (N.eqb_spec (N_of_ascii c) 10) as [E|_];
      [rewrite E in H913; now destruct H913|].
    destruct (N.eqb_spec (N_of_ascii c) 13) as [E|_];
      [rewrite E in H913; now destruct H913|].
    reflexivity. }
  now rewrite Hws.
Qed.

Lemma step_quoted s st :
  step (quoted s) st = Returned (PState (pdata st ++ [Atom s]) (stack st)).
Proof.
  unfold step, quoted. rewrite Ascii.eqb_refl. unfold strip_ends.
  cbn [drop_str]. now rewrite drop_last_snoc.
Qed.

Lemma step_render_atom s st :
  step (render_atom s) st =
  Returned (PState (pdata st ++ [Atom s]) (stack st)).
Proof.
  unfold render_atom. destruct (is_bare s) eqn:Hb;
    [now apply step_bare|apply step_quoted].
Qed.

Lemma runs_list l :
  Forall (fun v => forall p s more,
              run_tokens (render_tokens v ++ more) (PState p s) =
              run_tokens more (PState (p ++ [v]) s)) l ->
  forall p s more,
    run_tokens (between (map render_tokens l) ++ more) (PState p s) =
    run_tokens more (PState (p ++ l) s).
Proof.
  induction 1 as [|v l Hv Hl IH]; intros p s more.
  { cbn. now rewrite app_nil_r. }
  cbn [map]. rewrite between_cons, <- app_assoc, Hv.
  destruct l as [|v' l'].
  - reflexivity.
  - cbn [map] in *. cbn [app run_tokens].
    change (step " " (PState (p ++ [v]) s))
      with (Returned (PState (p ++ [v]) s)).
    cbn [rbind]. rewrite IH. now rewrite <- app_assoc.
Qed.

(** Feeding the tokens of a value to the loop appends the value. *)
Lemma runs_value v :
  forall p s more,
    run_tokens (render_tokens v ++ more) (PState p s) =
    run_tokens more (PState (p ++ [v]) s).
Proof.
  induction v as [a|l IH] using value_nested_ind; intros p s more.
  - cbn [render_tokens app run_tokens]. now rewrite step_render_atom.
  - cbn [render_tokens]. rewrite <- app_comm_cons. cbn [run_tokens].
    change (step (String lparen "") (PState p s))
      with (Returned (PState [] (p :: s))).
    cbn [rbind]. rewrite <- app_assoc, (runs_list l IH).
    reflexivity.
Qed.

(** Parsing the text of any writable data gives the data back, however
    deep its lists are nested. *)
Lemma parse_imap_render status vs :
  forallb writable vs = true ->
  _parse_imap (status, text [render_all vs]) =
  Returned (String.eqb (upper status) "OK", vs).
Proof.
  intros Hw. rewrite parse_imap_run_tokens.
  unfold all_tokens. cbn [map concat]. unfold render_all.
  rewrite <- (append_nil_r (spaced (map render vs))).
  rewrite lexes_list, app_nil_r; [|
    apply Forall_forall; intros v _; apply lexes_value | exact Hw
    | reflexivity ].
  change (line_tokens "") with (@nil string).
  rewrite (runs_list vs); [reflexivity|].
  apply Forall_forall. intros v _. apply runs_value.
Qed.

(** *** Any layout of the data *)

Lemma skipped_blank_cases c :
  skipped_blank c = true ->
  c = " "%char \/ c = "009"%char \/ c = "010"%char \/ c = "013"%char.
Proof.
  unfold skipped_blank. cbn [existsb]. rewrite !orb_true_iff.
  intros [H|[H|[H|[H|H]]]]; try discriminate;
    apply Ascii.eqb_eq in H; auto.
Qed.

(** The four blanks are white space for the pattern, are skipped by the
    loop, and are neither a quote nor a parenthesis. *)
Lemma skipped_blank_head c :
  skipped_blank c = true ->
  is_space c = true /\ in_ws_tuple c = true
  /\ Ascii.eqb c dquote = false /\ Ascii.eqb c lparen = false
  /\ Ascii.eqb c rparen = false.
Proof.
  intros H. destruct (skipped_blank_cases c H) as [-> | [-> | [-> | ->]]];
    repeat split; reflexivity.
Qed.

Lemma match_sep sep rest :
  is_sep sep = true ->
  next_is (fun c => negb (is_space c)) rest = true ->
  IMAP_TOKEN_match (sep +:+ rest) = Some sep.
Proof.
  intros Hs Hr. destruct sep as [|c r]; [discriminate|].
  cbn [is_sep] in Hs. apply andb_prop in Hs as [Hc Hws].
  destruct (skipped_blank_head c Hc) as (Hsp & _ & Hq & Hl & Hrp).
  assert (Ht : take_while is_space (String c r +:+ rest) = String c r).
  { apply take_while_app; [cbn [all_chars]; now rewrite Hsp|exact Hr]. }
  rewrite append_cons in *.
  unfold IMAP_TOKEN_match, or_else, alt_quoted, alt_paren.
  rewrite Hq, Hl, Hrp.
  assert (Ha : alt_plus is_atom_char (String c (r +:+ rest)) = None).
  { unfold alt_plus, is_atom_char. cbn [take_while].
    rewrite Hsp, !orb_true_r. reflexivity. }
  rewrite Ha. unfold alt_plus. rewrite Ht. reflexivity.
Qed.

Lemma step_sep sep st : is_sep sep = true -> step sep st = Returned st.
Proof.
  intros Hs. destruct sep as [|c r]; [discriminate|].
  cbn [is_sep] in Hs. apply andb_prop in Hs as [Hc _].
  destruct (skipped_blank_head c Hc) as (_ & Hw & Hq & Hl & Hrp).
  unfold step. now rewrite Hq, Hl, Hrp, Hw.
Qed.

Lemma spaced_by_cons sep x tl :
  spaced_by sep (x :: tl) =
  x +:+ match tl with [] => "" | _ => sep +:+ spaced_by sep tl end.
Proof. destruct tl; [now rewrite append_nil_r|reflexivity]. Qed.

Lemma between_by_cons sep x tl :
  between_by sep (x :: tl) =
  (x ++ match tl with [] => [] | _ => sep :: between_by sep tl end)%list.
Proof. destruct tl; [now rewrite app_nil_r|reflexivity]. Qed.

Lemma render_by_head sep v rest :
  next_is (fun c => negb (is_space c)) (render_by sep v +:+ rest) = true.
Proof.
  destruct v as [s|l]; [|reflexivity].
  exact (render_head (Atom s) rest).
Qed.

Lemma lexes_list_by sep l :
  is_sep sep = true ->
  Forall (fun v => forall rest,
              writable v = true ->
              next_is (fun c => negb (is_atom_char c)) rest = true ->
              line_tokens (render_by sep v +:+ rest) =
              (render_tokens_by sep v ++ line_tokens rest)%list) l ->
  forall rest,
    forallb writable l = true ->
    next_is (fun c => negb (is_atom_char c)) rest = true ->
    line_tokens (spaced_by sep (map (render_by sep) l) +:+ rest) =
    (between_by sep (map (render_tokens_by sep) l) ++ line_tokens rest)%list.
Proof.
  intros Hsep. induction 1 as [|v l Hv Hl IH]; intros rest Hw Hr;
    [reflexivity|].
  cbn [map forallb] in *. apply andb_prop in Hw as [Hwv Hwl].
  rewrite spaced_by_cons, between_by_cons, append_assoc, <- app_assoc.
  destruct l as [|v' l'].
  - cbn [map]. rewrite append_nil. now apply Hv.
  - cbn [map] in *.
    assert (Hnext : next_is (fun c => negb (is_atom_char c))
                      ((sep +:+ spaced_by sep
                                  (render_by sep v' :: map (render_by sep) l'))
                       +:+ rest) = true).
    { destruct sep as [|c r]; [discriminate|].
      cbn [is_sep] in Hsep. apply andb_prop in Hsep as [Hc _].
      destruct (skipped_blank_head c Hc) as (Hsp & _).
      rewrite !append_cons. cbn [next_is]. unfold is_atom_char.
      rewrite Hsp, !orb_true_r. reflexivity. }
    rewrite Hv by assumption. f_equal.
    rewrite append_assoc.
    rewrite line_tokens_app.
    + cbn [app]. f_equal. now apply IH.
    + apply match_sep; [exact Hsep|].
      rewrite spaced_by_cons, append_assoc. apply render_by_head.
Qed.

Lemma lexes_value_by sep v :
  is_sep sep = true ->
  forall rest,
    writable v = true ->
    next_is (fun c => negb (is_atom_char c)) rest = true ->
    line_tokens (render_by sep v +:+ rest) =
    (render_tokens_by sep v ++ line_tokens rest)%list.
Proof.
  intros Hsep.
  induction v as [s|l IH] using value_nested_ind; intros rest Hw Hr.
  - cbn [render_by render_tokens_by]. unfold render_atom.
    destruct (is_bare s) eqn:Hb.
    + now rewrite line_tokens_app by now apply match_bare.
    + now rewrite line_tokens_app by now apply match_quoted.
  - cbn [render_by render_tokens_by writable] in *.
    change (String lparen
              (spaced_by sep (map (render_by sep) l) +:+ String rparen "")
            +:+ rest)
      with (String lparen "" +:+
            ((spaced_by sep (map (render_by sep) l) +:+ String rparen "")
             +:+ rest)).
    rewrite line_tokens_app by (apply match_paren; now left).
    cbn [app]. f_equal. rewrite append_assoc, <- app_assoc.
    rewrite (lexes_list_by sep l Hsep IH (String rparen "" +:+ rest) Hw
               eq_refl).
    f_equal.
    all: rewrite line_tokens_app; [reflexivity|apply match_paren; now right].
Qed.

Lemma runs_list_by sep l :
  is_sep sep = true ->
  Forall (fun v => forall p s more,
              run_tokens (render_tokens_by sep v ++ more) (PState p s) =
              run_tokens more (PState (p ++ [v]) s)) l ->
  forall p s more,
    run_tokens (between_by sep (map (render_tokens_by sep) l) ++ more)
      (PState p s) =
    run_tokens more (PState (p ++ l) s).
Proof.
  intros Hsep. induction 1 as [|v l Hv Hl IH]; intros p s more.
  { cbn. now rewrite app_nil_r. }
  cbn [map]. rewrite between_by_cons, <- app_assoc, Hv.
  destruct l as [|v' l'].
  - reflexivity.
  - cbn [map] in *. cbn [app run_tokens].
    rewrite (step_sep sep _ Hsep).
    cbn [rbind]. rewrite IH. now rewrite <- app_assoc.
Qed.

Lemma runs_value_by sep v :
  is_sep sep = true ->
  forall p s more,
    run_tokens (render_tokens_by sep v ++ more) (PState p s) =
    run_tokens more (PState (p ++ [v]) s).
Proof.
  intros Hsep.
  induction v as [a|l IH] using value_nested_ind; intros p s more.
  - cbn [render_tokens_by app run_tokens]. now rewrite step_render_atom.
  - cbn [render_tokens_by]. rewrite <- app_comm_cons. cbn [run_tokens].
    change (step (String lparen "") (PState p s))
      with (Returned (PState [] (p :: s))).
    cbn [rbind]. rewrite <- app_assoc, (runs_list_by sep l Hsep IH).
    reflexivity.
Qed.

(** The lines of a layout, one after the other, append their data. *)
Lemma runs_layout layout :
  Forall (fun l => is_sep (fst l) = true
                   /\ forallb writable (snd l) = true) layout ->
  forall p,
    run_tokens (all_tokens (layout_lines layout)) (PState p []) =
    Returned (PState (p ++ layout_data layout) []).
Proof.
  induction 1 as [|[sep vs] layout [Hsep Hw] Hl IH]; intros p.
  { cbn. now rewrite app_nil_r. }
  cbn [fst snd] in *.
  change (all_tokens (layout_lines ((sep, vs) :: layout)))
    with (line_tokens (render_all_by sep vs)
          ++ all_tokens (layout_lines layout))%list.
  change (layout_data ((sep, vs) :: layout))
    with (vs ++ layout_data layout)%list.
  unfold render_all_by.
  rewrite <- (append_nil_r (spaced_by sep (map (render_by sep) vs))).
  rewrite lexes_list_by; [| exact Hsep
    | apply Forall_forall; intros v _; now apply lexes_value_by
    | exact Hw | reflexivity ].
  change (line_tokens "") with (@nil string). rewrite app_nil_r.
  rewrite (runs_list_by sep vs Hsep);
    [|apply Forall_forall; intros v _; now apply runs_value_by].
  rewrite IH. now rewrite app_assoc.
Qed.

Lemma depth_after_matched toks : forall n d,
  depth_after n toks = Some d -> closes_matched n toks = true.
Proof.
  induction toks as [|t toks IH]; intros n d; cbn; [reflexivity|].
  destruct (starts_with lparen t); [apply IH|].
  destruct (starts_with rparen t); [|apply IH].
  destruct n; [discriminate|apply IH].
Qed.

(** C6, amended. For every reply of text lines in which no closing
    parenthesis is unmatched, the tokenizer returns [(ok, parsed)];
    whenever it returns, [ok] is true exactly when the uppercased
    status word is [OK].  [parsed] is the list of atoms, stripped
    quoted strings and nested lists the text stands for: any such
    data, nested to any depth, laid out on any number of lines, each
    line with a separator of its own choice (any run of white space
    that starts with a space, a tab, a line feed or a carriage
    return), is what the tokenizer makes of that text; so on the two
    replies of the docstring. *)
Theorem parse_imap_reply :
  (forall status lines,
      closes_matched 0 (all_tokens lines) = true ->
      exists parsed,
        _parse_imap (status, text lines) =
        Returned (String.eqb (upper status) "OK", parsed))
  /\ (forall status lines ok parsed,
        _parse_imap (status, text lines) = Returned (ok, parsed) ->
        (ok = true <-> upper status = "OK"))
  /\ (forall status layout,
        Forall (fun l => is_sep (fst l) = true
                         /\ forallb writable (snd l) = true) layout ->
        _parse_imap (status, text (layout_lines layout)) =
        Returned (String.eqb (upper status) "OK", layout_data layout))
  /\ _parse_imap ("OK", text [example_reply]) =
     Returned (true, [Atom "One";
                      List [Atom "Two"; List [Atom "Th"; Atom "ree"]];
                      Atom "Four Five"])
  /\ _parse_imap ("BAD", text ["Sorry"]) = Returned (false, [Atom "Sorry"]).
Proof.
  split; [|split; [|split; [|split; reflexivity]]].
  - intros status lines Hm. rewrite parse_imap_run_tokens.
    pose proof (run_tokens_total (all_tokens lines) (PState [] [])) as H.
    cbn [stack length] in H. rewrite Hm in H. destruct H as [st' ->].
    cbn [rbind]. eauto.
  - intros status lines ok parsed. rewrite parse_imap_run_tokens.
    destruct (run_tokens (all_tokens lines) (PState [] [])) as [st| |];
      cbn [rbind]; try discriminate.
    intros [= <- _]. apply String.eqb_eq.
  - intros status layout Hl. rewrite parse_imap_run_tokens.
    now rewrite (runs_layout layout Hl []).
Qed.

(** A reply on two lines, the first written with tabs, the second with
    carriage return and line feed between neighbours. *)
Lemma parse_imap_reply_witness :
  let tab := String "009"%char "" in
  let crlf := String "013"%char (String "010"%char "") in
  let first := [Atom "One";
                List [Atom "Two"; List [Atom "Th"; Atom "ree"; List []]]] in
  let second := [Atom "Four Five"; Atom ""; List [Atom "a b"; Atom "c"]] in
  _parse_imap ("ok", text (layout_lines [(tab, first); (crlf, second)])) =
  Returned (true, (first ++ second)%list).
Proof.
  intros tab crlf first second.
  destruct parse_imap_reply as (_ & _ & H & _).
  apply (H "ok" [(tab, first); (crlf, second)]).
  repeat constructor.
Defined.

(** A closing parenthesis too many: no [(ok, parsed)] comes back. *)
Lemma parse_imap_reply_raises :
  _parse_imap ("OK", text ["One (Two)) Three"]) =
  raise IndexError "pop from empty list".
Proof. reflexivity. Qed.

(** An unmatched closing parenthesis makes the tokenizer raise. *)
Lemma parse_imap_unmatched_close_raises :
  ~ exists r, _parse_imap ("OK", text ["a )"]) = Returned r.
Proof. intros [r H]; vm_compute in H; discriminate. Qed.

(** C7, amended. When no closing parenthesis of the input is unmatched,
    the tokenizer reaches the end of the input and returns without
    raising, however many groups ([d] of them) are still open there. *)
Theorem parse_imap_open_groups (status : string) (lines : list string)
    (d : nat) :
  depth_after 0 (all_tokens lines) = Some d ->
  exists parsed,
    _parse_imap (status, text lines) =
    Returned (String.eqb (upper status) "OK", parsed).
Proof.
  intros Hd. apply depth_after_matched in Hd.
  pose proof (run_tokens_total (all_tokens lines) (PState [] [])) as H.
  cbn [stack length] in H. rewrite Hd in H. destruct H as [st' Hrun].
  exists (pdata st'). rewrite parse_imap_run_tokens, Hrun. reflexivity.
Qed.

(** Two groups are left open. *)
Lemma parse_imap_open_groups_witness :
  exists parsed,
    _parse_imap ("OK", text ["One (Two"; "(Th ree"]) =
    Returned (true, parsed).
Proof.
  exact (parse_imap_open_groups "OK" ["One (Two"; "(Th ree"] 2 eq_refl).
Defined.

End TokenizerFacts.

Module PyNumFacts.
Import PyNum.

Local Open Scope N_scope.

Lemma digit_char_code d :
  d < 36 ->
  N_of_ascii (digit_char d) = if d <? 10 then 48 + d else 87 + d.
Proof.
  intros Hd. unfold digit_char.
  destruct (d <? 10) eqn:E; apply N_ascii_embedding;
    [apply N.ltb_lt in E|apply N.ltb_ge in E]; lia.
Qed.

Lemma digit_val_char d : d < 36 -> digit_val (digit_char d) = Some d.
Proof.
  intros Hd. unfold digit_val. rewrite (digit_char_code d Hd).
  destruct (d <? 10) eqn:E; [apply N.ltb_lt in E|apply N.ltb_ge in E].
  - replace ((48 <=? 48 + d) && (48 + d <=? 57))%bool with true.
    + f_equal; lia.
    + symmetry. apply andb_true_intro. split; apply N.leb_le; lia.
  - replace ((48 <=? 87 + d) && (87 + d <=? 57))%bool with false.
    + replace ((97 <=? 87 + d) && (87 + d <=? 122))%bool with true.
      * f_equal; lia.
      * symmetry. apply andb_true_intro. split; apply N.leb_le; lia.
    + symmetry. apply andb_false_intro2. apply N.leb_gt. lia.
Qed.

Lemma digit_char_plain d : d < 36 -> plain (digit_char d) = true.
Proof.
  intros Hd. pose proof (digit_char_code d Hd) as Hc.
  assert (Hn : 48 <= N_of_ascii (digit_char d)).
  { rewrite Hc. destruct (d <? 10); lia. }
  unfold plain, is_space.
  destruct (Ascii.eqb (digit_char d) "-"%char) eqn:E1.
  { apply Ascii.eqb_eq in E1. rewrite E1 in Hn. vm_compute in Hn.
    now contradiction Hn. }
  destruct (Ascii.eqb (digit_char d) "+"%char) eqn:E2.
  { apply Ascii.eqb_eq in E2. rewrite E2 in Hn. vm_compute in Hn.
    now contradiction Hn. }
  replace (N_of_ascii (digit_char d) =? 32) with false
    by (symmetry; apply N.eqb_neq; lia).
  replace (N_of_ascii (digit_char d) <=? 13) with false
    by (symmetry; apply N.leb_gt; lia).
  now rewrite andb_false_r.
Qed.

Lemma to_base_loop_reads base fuel n acc k m :
  2 <= base <= 36 ->
  n < 2 ^ N.of_nat fuel ->
  reads base acc k m ->
  parse_digits base (to_base_loop fuel base n acc) 0 = Some (n * base ^ k + m).
Proof.
  intros Hb. revert n acc k m.
  induction fuel as [|fuel IH]; intros n acc k m Hn Hr.
  { simpl in *. assert (n = 0) as -> by lia. rewrite (Hr 0). f_equal. }
  cbn [to_base_loop]. destruct (n =? 0) eqn:E.
  { apply N.eqb_eq in E; subst n. rewrite (Hr 0). f_equal. }
  apply N.eqb_neq in E.
  assert (Hmod : n mod base < base) by (apply N.mod_lt; lia).
  rewrite (IH (n / base) _ (N.succ k) (n mod base * base ^ k + m)).
  - f_equal. rewrite N.pow_succ_r'.
    rewrite (N.div_mod n base) at 3 by lia. lia.
  - rewrite Nat2N.inj_succ, N.pow_succ_r' in Hn.
    apply N.Div0.div_lt_upper_bound.
    assert (2 * 2 ^ N.of_nat fuel <= base * 2 ^ N.of_nat fuel)
      by (apply N.mul_le_mono_r; lia).
    lia.
  - intros a. cbn [parse_digits]. rewrite digit_val_char by lia.
    replace (n mod base <? base) with true
      by (symmetry; now apply N.ltb_lt).
    rewrite (Hr (a * base + n mod base)). f_equal.
    rewrite N.pow_succ_r'. lia.
Qed.

Lemma log2_fuel n : n < 2 ^ N.of_nat (S (N.to_nat (N.log2 n))).
Proof.
  rewrite Nat2N.inj_succ, N2Nat.id.
  destruct (N.eq_dec n 0) as [->|Hn]; [reflexivity|].
  apply N.log2_spec. lia.
Qed.

Lemma to_base_loop_all p base fuel n acc :
  (forall d, d < 36 -> p (digit_char d) = true) ->
  2 <= base <= 36 ->
  all_chars p acc = true ->
  all_chars p (to_base_loop fuel base n acc) = true.
Proof.
  intros Hp Hb. revert n acc.
  induction fuel as [|fuel IH]; intros n acc Ha; [exact Ha|].
  cbn [to_base_loop]. destruct (n =? 0); [exact Ha|].
  apply IH. cbn [all_chars]. rewrite Ha, andb_true_r.
  apply Hp.
  assert (n mod base < base) by (apply N.mod_lt; lia). lia.
Qed.

Lemma to_base_all p base n :
  (forall d, d < 36 -> p (digit_char d) = true) ->
  2 <= base <= 36 ->
  all_chars p (to_base base n) = true /\ to_base base n <> EmptyString.
Proof.
  intros Hp Hb. unfold to_base.
  pose proof (to_base_loop_all p base (S (N.to_nat (N.log2 n))) n
                EmptyString Hp Hb eq_refl) as H.
  destruct (to_base_loop _ base n EmptyString); [|split; [exact H|discriminate]].
  split; [|discriminate]. cbn [all_chars]. rewrite Hp by lia. reflexivity.
Qed.

Lemma to_base_plain base n :
  2 <= base <= 36 ->
  all_chars plain (to_base base n) = true /\ to_base base n <> EmptyString.
Proof. apply to_base_all. apply digit_char_plain. Qed.

Lemma digit_char_nodot d : d < 36 -> nodot (digit_char d) = true.
Proof.
  intros Hd. pose proof (digit_char_code d Hd) as Hc. unfold nodot.
  destruct (Ascii.eqb (digit_char d) "."%char) eqn:E; [|reflexivity].
  apply Ascii.eqb_eq in E. rewrite E in Hc.
  change (N_of_ascii "."%char) with 46 in Hc.
  destruct (d <? 10); lia.
Qed.

Lemma parse_to_base base n :
  2 <= base <= 36 ->
  parse_digits base (to_base base n) 0 = Some n.
Proof.
  intros Hb. unfold to_base.
  pose proof (to_base_loop_reads base _ n EmptyString 0 0 Hb (log2_fuel n))
    as H.
  rewrite N.pow_0_r, N.mul_1_r, N.add_0_r in H.
  specialize (H ltac:(intros a; cbn; f_equal; lia)).
  destruct (to_base_loop _ base n EmptyString) eqn:E; [|exact H].
  cbn in H. injection H as <-. cbn [parse_digits].
  rewrite digit_val_char by lia.
  replace (0 <? base) with true by (symmetry; apply N.ltb_lt; lia).
  cbn [parse_digits]. f_equal; lia.
Qed.

Lemma rstrip_plain s : all_chars plain s = true -> rstrip s = s.
Proof.
  induction s as [|c s IH]; [reflexivity|]. cbn [all_chars rstrip].
  intros [Hc Hs]%andb_prop. rewrite (IH Hs).
  destruct s; [|reflexivity].
  unfold plain in Hc. destruct (is_space c); [discriminate|reflexivity].
Qed.

Lemma lstrip_plain s : all_chars plain s = true -> lstrip s = s.
Proof.
  destruct s as [|c s]; [reflexivity|]. cbn [all_chars lstrip].
  intros [Hc _]%andb_prop. unfold plain in Hc.
  destruct (is_space c); [discriminate|reflexivity].
Qed.

(** Reading back what [to_base] wrote. *)
Lemma py_int_to_base base n :
  2 <= base <= 36 ->
  py_int base (to_base base n) = Some (Z.of_N n).
Proof.
  intros Hb. destruct (to_base_plain base n Hb) as [Hp Hne].
  unfold py_int. rewrite (lstrip_plain _ Hp), (rstrip_plain _ Hp).
  pose proof (parse_to_base base n Hb) as H.
  destruct (to_base base n) as [|c r]; [congruence|].
  cbn [all_chars] in Hp. apply andb_prop in Hp as [Hc _].
  unfold plain in Hc.
  destruct (Ascii.eqb c "-"%char); [now rewrite andb_false_r in Hc|].
  destruct (Ascii.eqb c "+"%char); [now rewrite andb_false_r in Hc|].
  unfold unsigned. now rewrite H.
Qed.

Lemma py_int_b36 (n : N) : py_int 36 (b36 (Z.of_N n)) = Some (Z.of_N n).
Proof. unfold b36. rewrite N2Z.id. apply py_int_to_base. lia. Qed.

Lemma py_int_str (n : N) : py_int 10 (str_of_int (Z.of_N n)) = Some (Z.of_N n).
Proof.
  unfold str_of_int. replace (Z.of_N n <? 0)%Z with false
    by (symmetry; apply Z.ltb_ge; lia).
  rewrite N2Z.id. apply py_int_to_base. lia.
Qed.

End PyNumFacts.

Module UrllibFacts.
Import Urllib.

Lemma split_on_cons sep s : exists h t, split_on sep s = h :: t.
Proof.
  induction s as [|c s (h & t & IH)]; simpl; [eauto|].
  destruct (Ascii.eqb c sep); [eauto|]. rewrite IH; eauto.
Qed.

Lemma split_on_single sep s b : split_on sep s = [b] -> b = s.
Proof.
  revert b; induction s as [|c s IH]; simpl; intros b.
  { now intros [= <-]. }
  destruct (Ascii.eqb c sep).
  { destruct (split_on_cons sep s) as (h & t & E). rewrite E. discriminate. }
  destruct (split_on_cons sep s) as (h & t & E). rewrite E in *.
  intros [= <- ->]. now rewrite (IH h eq_refl).
Qed.

(** [unquote] is the join of the decoded pieces, fast path or not. *)
Lemma unquote_join s :
  unquote s =
  match split_on percent s with
  | [] => EmptyString
  | first :: items => first +:+ join (map unquote_item items)
  end.
Proof.
  unfold unquote. destruct (split_on_cons percent s) as (h & t & E).
  rewrite E. destruct t as [|i t]; [|reflexivity].
  simpl. rewrite (split_on_single _ _ _ E).
  clear. induction s as [|c s IH]; [reflexivity|].
  now rewrite TokenizerFacts.append_cons, <- IH.
Qed.

Lemma quote_map_join s : quote s = map_join quoter s.
Proof.
  unfold quote. destruct (all_safe s) eqn:E; [|reflexivity].
  induction s as [|c s IH]; [reflexivity|]. simpl in *.
  apply andb_prop in E as [Hc Hs].
  assert (Hq : quoter c = String c EmptyString)
    by (unfold quoter; now rewrite Hc).
  rewrite Hq, TokenizerFacts.append_cons, TokenizerFacts.append_nil.
  now rewrite <- IH.
Qed.

(** What the pieces of one quoted character look like. *)
Lemma quoter_cases c :
  (quoter c = String c EmptyString /\ Ascii.eqb c percent = false)
  \/ (exists a b,
        quoter c = String percent (String a (String b EmptyString))
        /\ Ascii.eqb a percent = false /\ Ascii.eqb b percent = false
        /\ unquote_item (String a (String b EmptyString)) =
           String c EmptyString).
Proof.
  destruct c as [[] [] [] [] [] [] [] []];
    first [ left; split; reflexivity
          | right; eexists; eexists; repeat split; reflexivity ].
Qed.

Lemma unquote_item_rest a b rest c :
  unquote_item (String a (String b EmptyString)) = String c EmptyString ->
  unquote_item (String a (String b rest)) = String c rest.
Proof.
  unfold unquote_item. destruct (hex_val a), (hex_val b);
    try discriminate. now intros [= ->].
Qed.

Lemma unquote_map_join k :
  match split_on percent (map_join quoter k) with
  | [] => False
  | first :: items => first +:+ join (map unquote_item items) = k
  end.
Proof.
  induction k as [|c k IH]; [reflexivity|]. simpl.
  destruct (split_on percent (map_join quoter k)) as [|h t] eqn:E;
    [contradiction|].
  destruct (quoter_cases c) as [[-> Hc] | (a & b & -> & Ha & Hb & Hd)].
  - rewrite TokenizerFacts.append_cons, TokenizerFacts.append_nil. simpl.
    rewrite Hc, E. rewrite TokenizerFacts.append_cons. now rewrite IH.
  - rewrite !TokenizerFacts.append_cons, TokenizerFacts.append_nil.
    cbn [split_on]. rewrite Ascii.eqb_refl, Ha, Hb, E.
    cbn [map join]. rewrite TokenizerFacts.append_nil.
    rewrite (unquote_item_rest a b h c Hd).
    rewrite TokenizerFacts.append_cons. now rewrite IH.
Qed.

Lemma unquote_quote k : unquote (quote k) = k.
Proof.
  rewrite unquote_join, quote_map_join.
  pose proof (unquote_map_join k) as H.
  destruct (split_on percent (map_join quoter k)); [contradiction|exact H].
Qed.

End UrllibFacts.

Module SharedConnFacts.
Import Tokenizer Imap.

Section Transport.

Context {T : Type}.
Variable call : string -> list arg -> kwargs -> T -> result reply * T.

Lemma conn_call_frame method args kw (c : SharedImapConn T) :
  _selected (snd (conn_call call method args kw c)) = _selected c
  /\ _lock (snd (conn_call call method args kw c)) = _lock c.
Proof.
  unfold conn_call. destruct (_conn c) as [t|]; [|easy].
  destruct (call method args kw t); easy.
Qed.

Lemma responses_frame fields info (c : SharedImapConn T) :
  _selected (snd (responses call fields info c)) = _selected c
  /\ _lock (snd (responses call fields info c)) = _lock c.
Proof.
  revert info c; induction fields as [|f fields IH]; intros info c;
    [easy|].
  simpl. unfold sbind.
  pose proof (conn_call_frame "response" [AStr f] [] c) as [Hs Hl].
  destruct (conn_call call "response" [AStr f] [] c) as [[kv|e|] c1];
    simpl in *; try easy.
  destruct (IH (<[kv.1:=kv.2]> info) c1) as [-> ->]. easy.
Qed.

(** A cache hit answers from the cache and leaves the connection, the
    log of transport calls included, as it was. *)
Lemma select_hit (c : SharedImapConn T) mailbox readonly rv info :
  _lock c = true ->
  _selected c = Some ((mailbox, readonly), rv, info) ->
  select call mailbox readonly c = (Returned rv, c).
Proof.
  intros Hl Hs. unfold select, sbind, assert_locked. rewrite Hl, Hs.
  now rewrite decide_True.
Qed.

Lemma select_count_snoc log cmd :
  select_count (log ++ [cmd]) =
  (select_count log + if is_select cmd then 1 else 0)%nat.
Proof.
  unfold select_count. rewrite List.filter_app, length_app. simpl.
  destruct (is_select cmd); reflexivity.
Qed.

Lemma select_ok_count_snoc log cmd :
  select_ok_count (log ++ [cmd]) =
  (select_ok_count log + if is_select_ok cmd then 1 else 0)%nat.
Proof.
  unfold select_ok_count. rewrite List.filter_app, length_app. simpl.
  destruct (is_select_ok cmd); reflexivity.
Qed.

Lemma proxied_not_select method :
  existsb (String.eqb method) proxied = true ->
  String.eqb method "select" = false.
Proof.
  unfold proxied; simpl. intros H.
  repeat (apply orb_prop in H; destruct H as [H|H]);
    try discriminate; apply String.eqb_eq in H; subst; reflexivity.
Qed.

(** Calling a method other than [select] adds no SELECT to the log and
    keeps lock and selection. *)
Lemma conn_call_other method args kw (c : SharedImapConn T) :
  String.eqb method "select" = false ->
  let c' := snd (conn_call call method args kw c) in
  select_count (sent c') = select_count (sent c)
  /\ select_ok_count (sent c') = select_ok_count (sent c)
  /\ _selected c' = _selected c /\ _lock c' = _lock c
  /\ (is_Some (_conn c) -> is_Some (_conn c')).
Proof.
  intros Hm. unfold conn_call.
  destruct (_conn c) as [t|] eqn:E.
  - destruct (call method args kw t) as [r t']; simpl.
    rewrite select_count_snoc, select_ok_count_snoc.
    unfold is_select_ok, is_select; simpl. rewrite Hm; simpl.
    repeat split; try lia. intros _; eexists; reflexivity.
  - simpl. repeat split; auto. rewrite E. auto.
Qed.

Lemma scatch_state {A} (m : SR (SharedImapConn T) A) h c :
  (forall e s, snd (h e s) = s) ->
  snd (scatch m h c) = snd (m c).
Proof.
  intros Hh. unfold scatch. destruct (m c) as [[a|e|] s]; simpl; auto.
Qed.

Lemma proxy_handler_state method e (s : SharedImapConn T) :
  snd ((if subclass (exn_cls e) IMAP4_error
        then sraise IMAP_IOError ("Failed " +:+ method)
        else fun c => (@Raised reply e, c)) s) = s.
Proof. destruct (subclass (exn_cls e) IMAP4_error); reflexivity. Qed.

(** With the folder cached, a forwarded command sends no SELECT. *)
Lemma forward_cached method args kw mailbox (c : SharedImapConn T) :
  cached mailbox c ->
  let c' := snd (forward call method args (Some mailbox) kw c) in
  cached mailbox c'
  /\ select_count (sent c') = select_count (sent c)
  /\ select_ok_count (sent c') = select_ok_count (sent c)
  /\ _lock c' = _lock c.
Proof.
  intros Hc c'. pose proof Hc as (rv & info & Hs).
  assert (E : c' = c \/
              (c' = snd (conn_call call method args kw c)
               /\ String.eqb method "select" = false)).
  { subst c'. unfold forward.
    destruct (existsb (String.eqb method) proxied) eqn:Hp;
      [|left; reflexivity].
    apply proxied_not_select in Hp. unfold proxy_method.
    rewrite scatch_state by (intros; apply proxy_handler_state).
    unfold sbind, assert_locked.
    destruct (_lock c) eqn:Hl; [|left; reflexivity].
    rewrite (select_hit c mailbox false rv info Hl Hs).
    destruct (negb (status_ok rv.1)); [left; reflexivity|right; easy]. }
  clearbody c'. destruct E as [-> | [-> Hp]]; [easy|].
  destruct (conn_call_other method args kw c Hp) as (H1 & H2 & H3 & H4 & _).
  unfold cached. rewrite H3, H1, H2, H4. easy.
Qed.

Lemma run_forwarded_cached mailbox cmds (c : SharedImapConn T) :
  cached mailbox c ->
  let c' := run_forwarded call mailbox cmds c in
  cached mailbox c'
  /\ select_count (sent c') = select_count (sent c)
  /\ select_ok_count (sent c') = select_ok_count (sent c).
Proof.
  revert c; induction cmds as [|[[m a] kw] cmds IH]; intros c Hc; [easy|].
  simpl. destruct (forward_cached m a kw mailbox c Hc) as (H1 & H2 & H3 & _).
  destruct (IH _ H1) as (H4 & H5 & H6). simpl in *.
  rewrite H5, H6, H2, H3. easy.
Qed.

Lemma responses_total fields info (c : SharedImapConn T) :
  responds call -> is_Some (_conn c) ->
  exists info' c',
    responses call fields info c = (Returned info', c')
    /\ select_ok_count (sent c') = select_ok_count (sent c)
    /\ _lock c' = _lock c /\ is_Some (_conn c').
Proof.
  intros Hresp. revert info c.
  induction fields as [|f fields IH]; intros info c Hc.
  { exists info, c. easy. }
  simpl. unfold sbind.
  destruct (conn_call_other "response" [AStr f] [] c eq_refl)
    as (_ & H2 & _ & H4 & H5).
  destruct Hc as [t Ht]. unfold conn_call in *. rewrite Ht in *.
  destruct (Hresp f t) as (kv & t' & Hcall). rewrite Hcall in *. simpl in *.
  match goal with
  | |- context [responses call fields ?i ?s] =>
      destruct (IH i s) as (info' & c' & E & E1 & E2 & E3); [simpl; eauto|]
  end.
  exists info', c'. rewrite E. simpl in *. repeat split; auto; congruence.
Qed.

(** What one uncached [select] does to the log and to the cache. *)
Lemma select_uncached_step mailbox readonly (c : SharedImapConn T) r c' :
  responds call ->
  select_uncached call mailbox readonly c = (r, c') ->
  _lock c' = _lock c
  /\ ((exists rv info,
         r = Returned rv /\ status_ok rv.1 = true
         /\ _selected c' = Some ((mailbox, readonly), rv, info)
         /\ select_ok_count (sent c') = S (select_ok_count (sent c)))
      \/ ((forall rv, r = Returned rv -> status_ok rv.1 = false)
          /\ _selected c' = _selected c
          /\ select_ok_count (sent c') = select_ok_count (sent c))).
Proof.
  intros Hresp H. unfold select_uncached, sbind in H.
  unfold conn_call at 1 in H.
  destruct (_conn c) as [t|] eqn:Ht.
  2:{ injection H as <- <-. repeat split; auto. right. easy. }
  destruct (call "select" [] (select_kw mailbox readonly) t) as [r1 t'] eqn:Hcall.
  revert H. set (c1 := Conn _ _ _ _ _). intros H.
  assert (Hcount : select_ok_count (sent c1) =
                   (select_ok_count (sent c) +
                    match r1 with
                    | Returned rv => if status_ok rv.1 then 1 else 0
                    | _ => 0
                    end)%nat).
  { subst c1; simpl. rewrite select_ok_count_snoc. f_equal.
    unfold is_select_ok, is_select; simpl. destruct r1 as [rv| |]; auto. }
  assert (Hl1 : _lock c1 = _lock c) by reflexivity.
  assert (Hs1 : _selected c1 = _selected c) by reflexivity.
  assert (Hc1 : is_Some (_conn c1)) by (subst c1; simpl; eauto).
  clearbody c1.
  destruct r1 as [rv| |].
  2,3: injection H as <- <-; repeat split; auto; right;
       repeat split; auto; try easy; lia.
  destruct (status_ok rv.1) eqn:Hok.
  - destruct (responses_total info_fields ∅ c1 Hresp Hc1) as
      (info & c2 & E & E1 & E2 & E3).
    rewrite E in H. simpl in H. injection H as <- <-.
    simpl. repeat split; [congruence|].
    left. exists rv, info. repeat split; auto. rewrite E1, Hcount. lia.
  - destruct (debug_imap c1); injection H as <- <-;
      (repeat split; [assumption|]); right;
      (repeat split; [|assumption|rewrite Hcount; lia]);
      intros rv'; [discriminate|intros [= <-]; assumption].
Qed.

Lemma forward_state method args kw mailbox (c : SharedImapConn T) :
  existsb (String.eqb method) proxied = true ->
  _lock c = true ->
  snd (forward call method args (Some mailbox) kw c) =
  match select call mailbox false c with
  | (Returned rv, c1) =>
      if negb (status_ok rv.1) then c1
      else snd (conn_call call method args kw c1)
  | (_, c1) => c1
  end.
Proof.
  intros Hp Hl. unfold forward. rewrite Hp. unfold proxy_method.
  rewrite scatch_state by (intros; apply proxy_handler_state).
  unfold sbind at 1. unfold assert_locked at 1. rewrite Hl.
  unfold sbind. destruct (select call mailbox false c) as [[rv|e|] c1];
    simpl; auto.
  destruct (negb (status_ok rv.1)); reflexivity.
Qed.

Lemma select_locked mailbox readonly (c : SharedImapConn T) :
  _lock c = true ->
  select call mailbox readonly c =
  match _selected c with
  | Some (key, rv, _) =>
      if decide (key = (mailbox, readonly)) then (Returned rv, c)
      else select_uncached call mailbox readonly c
  | None => select_uncached call mailbox readonly c
  end.
Proof. intros Hl. unfold select, sbind, assert_locked. now rewrite Hl. Qed.

(** One forwarded command: either the folder is cached afterwards and at
    most one SELECT was answered OK, or no SELECT was answered OK. *)
Lemma forward_step method args kw mailbox (c : SharedImapConn T) :
  responds call -> _lock c = true ->
  let c' := snd (forward call method args (Some mailbox) kw c) in
  _lock c' = true
  /\ ((cached mailbox c'
       /\ (select_ok_count (sent c') <= S (select_ok_count (sent c)))%nat)
      \/ select_ok_count (sent c') = select_ok_count (sent c)).
Proof.
  intros Hresp Hl c'.
  destruct (existsb (String.eqb method) proxied) eqn:Hp.
  2:{ subst c'. unfold forward. rewrite Hp. simpl. auto. }
  assert (Hunc : forall r c1 c2,
             select_uncached call mailbox false c = (r, c1) ->
             c2 = match r with
                  | Returned rv =>
                      if negb (status_ok rv.1) then c1
                      else snd (conn_call call method args kw c1)
                  | _ => c1
                  end ->
             _lock c2 = true
             /\ ((cached mailbox c2
                  /\ (select_ok_count (sent c2)
                      <= S (select_ok_count (sent c)))%nat)
                 \/ select_ok_count (sent c2) = select_ok_count (sent c))).
  { clear c'. intros r c1 c' Hsel ->.
    destruct (select_uncached_step mailbox false c r c1 Hresp Hsel)
      as (Hl1 & [(rv & info & -> & Hok & Hs & Hn) | (Hno & Hs & Hn)]).
    - rewrite Hok. simpl.
      destruct (conn_call_other method args kw c1 (proxied_not_select _ Hp))
        as (_ & H2 & H3 & H4 & _).
      split; [congruence|]. left. split; [|lia].
      exists rv, info. congruence.
    - destruct r as [rv| |]; [|split; [congruence|right; assumption]..].
      rewrite (Hno rv eq_refl). simpl. split; [congruence|right; assumption]. }
  pose proof (forward_state method args kw mailbox c Hp Hl) as E.
  fold c' in E. rewrite (select_locked _ _ _ Hl) in E.
  destruct (_selected c) as [[[key rv] info]|] eqn:Hs.
  - destruct (decide (key = (mailbox, false))) as [->|Hne].
    + destruct (forward_cached method args kw mailbox c) as (H1 & _ & H3 & H4);
        [now exists rv, info|].
      fold c' in H1, H3, H4. split; [congruence|]. right; assumption.
    + destruct (select_uncached call mailbox false c) as [r c1] eqn:Hsel.
      apply (Hunc r c1 c' eq_refl). rewrite E. destruct r; reflexivity.
  - destruct (select_uncached call mailbox false c) as [r c1] eqn:Hsel.
    apply (Hunc r c1 c' eq_refl). rewrite E. destruct r; reflexivity.
Qed.

(** Over a whole sequence of forwarded commands with one [mailbox]
    option, at most one SELECT is answered OK. *)
Lemma run_forwarded_bound mailbox cmds (c : SharedImapConn T) :
  responds call -> _lock c = true ->
  (select_ok_count (sent (run_forwarded call mailbox cmds c))
   <= S (select_ok_count (sent c)))%nat.
Proof.
  intros Hresp. revert c.
  induction cmds as [|[[m a] kw] cmds IH]; intros c Hl; simpl; [lia|].
  destruct (forward_step m a kw mailbox c Hresp Hl) as (Hl' & [[Hc Hn]|Hn]).
  - destruct (run_forwarded_cached mailbox cmds _ Hc) as (_ & _ & ->). lia.
  - specialize (IH _ Hl'). lia.
Qed.

Lemma responses_info fields k : forall info (c : SharedImapConn T) info' c',
  answers_code call ->
  responses call fields info c = (Returned info', c') ->
  In k fields \/ (exists d, info !! k = Some d /\ d <> []) ->
  exists d, info' !! k = Some d /\ d <> [].
Proof.
  induction fields as [|f fields IH]; intros info c info' c' Ha E Hk.
  { injection E as <- <-. destruct Hk as [[]|Hk]; exact Hk. }
  cbn [responses] in E. unfold sbind in E.
  unfold conn_call in E. destruct (_conn c) as [t|]; [|discriminate].
  destruct (Ha f t) as (d & t' & Hcall & Hd). rewrite Hcall in E.
  cbn [fst snd] in E. apply (IH _ _ _ _ Ha E).
  destruct (decide (f = k)) as [->|Hne].
  - right. exists d. now rewrite lookup_insert_eq.
  - destruct Hk as [[Hk|Hk]|Hk]; [congruence|now left|right].
    now rewrite lookup_insert_ne.
Qed.

(** After a select that went to the server and came back OK,
    [mailbox_info('UIDVALIDITY')] is the list the transport gave for
    that code, which is not empty. *)
Lemma mailbox_info_after_select mailbox readonly (c : SharedImapConn T)
    rv c' default :
  answers_code call ->
  select_uncached call mailbox readonly c = (Returned rv, c') ->
  status_ok rv.1 = true ->
  exists d, mailbox_info "UIDVALIDITY" default c' = (Returned (Some d), c')
            /\ d <> [].
Proof.
  intros Ha E Hok. unfold select_uncached, sbind in E.
  destruct (conn_call call "select" [] (select_kw mailbox readonly) c)
    as [[rv1|e|] c1]; try discriminate.
  destruct (status_ok rv1.1) eqn:Hok1.
  - destruct (responses call info_fields ∅ c1) as [[info|e|] c2] eqn:Er;
      try discriminate.
    cbn in E. injection E as <- <-.
    destruct (responses_info info_fields "UIDVALIDITY" _ _ _ _ Ha Er)
      as (d & Hd & Hne); [left; cbn; auto|].
    exists d. unfold mailbox_info. cbn. now rewrite Hd.
  - destruct (debug_imap c1); [discriminate|].
    injection E as <- <-. congruence.
Qed.

(** C10. When the transport's answer to the protocol select is not an
    OK reply (another status, or no reply at all), [select] leaves the
    cached selection exactly as it was: a selection cached before, also
    one of another folder, is kept, and no new one is installed. *)
Theorem select_not_ok_keeps_selection
    (c : SharedImapConn T) mailbox readonly t r t' :
  _conn c = Some t ->
  call "select" [] (select_kw mailbox readonly) t = (r, t') ->
  (forall rv, r = Returned rv -> status_ok (fst rv) = false) ->
  _selected (snd (select call mailbox readonly c)) = _selected c.
Proof.
  intros Hc Hcall Hno. unfold select, sbind, assert_locked.
  destruct (_lock c); [|reflexivity].
  assert (Hmiss :
    _selected (snd (select_uncached call mailbox readonly c)) = _selected c).
  { unfold select_uncached, sbind, conn_call. rewrite Hc, Hcall.
    destruct r as [rv| |]; simpl; try reflexivity.
    rewrite (Hno rv eq_refl). simpl. destruct (debug_imap c); reflexivity. }
  destruct (_selected c) as [[[key rv] info]|] eqn:Hs; [|exact Hmiss].
  destruct (decide (key = (mailbox, readonly))); [exact Hs|exact Hmiss].
Qed.

(** C1, amended. Under the lock, a [select] whose (path, read-only)
    pair is the cached one returns the cached reply and leaves the
    connection, its log of transport calls included, untouched.  So in
    a sequence of forwarded commands with the same [mailbox] option no
    SELECT is sent once that folder is cached, and at most one SELECT
    of the sequence is answered OK (the transport answering [response]
    without raising).  A SELECT answered otherwise is not cached: the
    next command sends it again. *)
Theorem select_cached_within_lock_hold (c : SharedImapConn T) mailbox :
  _lock c = true ->
  (forall readonly rv info,
      _selected c = Some ((mailbox, readonly), rv, info) ->
      select call mailbox readonly c = (Returned rv, c))
  /\ (forall cmds,
        cached mailbox c ->
        select_count (sent (run_forwarded call mailbox cmds c)) =
        select_count (sent c))
  /\ (forall cmds,
        responds call ->
        (select_ok_count (sent (run_forwarded call mailbox cmds c))
         <= S (select_ok_count (sent c)))%nat).
Proof.
  intros Hl. split; [|split].
  - intros readonly rv info Hs. now apply (select_hit c mailbox readonly rv info).
  - intros cmds Hc. now destruct (run_forwarded_cached mailbox cmds c Hc) as (_ & ? & _).
  - intros cmds Hresp. now apply run_forwarded_bound.
Qed.

End Transport.

Lemma select_cached_within_lock_hold_witness :
  let c := Conn true (Some tt) (Some (("INBOX", false), ("OK", []), ∅)) false [] in
  let cmds := [("noop", [], []); ("uid", [AStr "SEARCH"; ANone; AStr "ALL"], [])] in
  select accepting "INBOX" false c = (Returned ("OK", []), c)
  /\ select_count (sent (run_forwarded accepting "INBOX" cmds c)) = 0%nat
  /\ (select_ok_count (sent (run_forwarded accepting "INBOX" cmds c)) <= 1)%nat.
Proof.
  intros c cmds.
  destruct (select_cached_within_lock_hold accepting c "INBOX" eq_refl)
    as (H1 & H2 & H3).
  split; [|split].
  - apply (H1 false ("OK", []) ∅). reflexivity.
  - apply (H2 cmds). exists ("OK", []), ∅. reflexivity.
  - apply (H3 cmds). intros f []. exists ("OK", []), tt. reflexivity.
Defined.

(** A server that refuses the SELECT sees it once per forwarded
    command. *)
Lemma select_refused_is_repeated :
  let c := Conn true (Some tt) None false [] in
  ~ (select_count
       (sent (run_forwarded refusing "INBOX"
                [("noop", [], []); ("noop", [], [])] c)) <= 1)%nat.
Proof. vm_compute. lia. Qed.

Lemma mailbox_info_after_close_raises :
  forall (T : Type) call (c : SharedImapConn T) k default,
    _lock c = true ->
    fst (mailbox_info k default (snd (close call c))) =
    raise TypeError "'NoneType' object has no attribute '__getitem__'".
Proof.
  intros T call c k default Hl. unfold close, sbind, assert_locked.
  rewrite Hl. simpl.
  unfold conn_call; simpl. destruct (_conn c) as [t|]; simpl; [|reflexivity].
  destruct (call "close" [] [] t); reflexivity.
Qed.

(** C5. Before any select, and again after [close], there is no
    selection, and [mailbox_info] raises [TypeError] whatever the key
    and the default: it does not return the default. *)
Theorem mailbox_info_unselected_raises :
  forall (T : Type) call (t : T) (debug : bool) k default,
    let fresh := new_conn debug t in
    let closed := snd (close call (set_lock true fresh)) in
    mailbox_info k default fresh =
      (raise TypeError "'NoneType' object has no attribute '__getitem__'",
       fresh)
    /\ fst (mailbox_info k default closed) =
       raise TypeError "'NoneType' object has no attribute '__getitem__'".
Proof.
  intros T call t debug k default fresh closed. split.
  - reflexivity.
  - subst closed. now apply mailbox_info_after_close_raises.
Qed.

Lemma select_not_ok_keeps_selection_witness :
  let c := Conn true (Some tt) (Some (("Sent", false), ("OK", []), ∅)) false [] in
  _selected (snd (select refusing "INBOX" false c)) = _selected c.
Proof.
  intros c.
  apply (select_not_ok_keeps_selection refusing c "INBOX" false tt
           (Returned ("NO", [IStr "no such folder"])) tt).
  - reflexivity.
  - reflexivity.
  - intros rv [= <-]. reflexivity.
Defined.

End SharedConnFacts.

Module MailSourceFacts.
Import Tokenizer Imap MailSource.

(** With no [throw], a refused login records the error on the event and
    gives back a [WithaBool] that is false, also as the value of a
    [with] statement. *)
Lemma open_bad_login_returns_false :
  let r := _unlocked_open mock_call NoDns NoDns (Some BadLogin) None
             fresh_source in
  r.1.1 = Returned (WithaBool false)
  /\ truth (WithaBool false) = false
  /\ WithaBool_enter false = false
  /\ r.1.2 !! "conn_error" = Some (DStr "Bad username or password").
Proof. vm_compute. repeat split; reflexivity. Qed.

(** A [throw] class that no handler of the function takes goes out with
    the message of the refused login. *)
Lemma open_bad_login_throws_uncaught :
  let r := _unlocked_open mock_call NoDns NoDns (Some BadLogin)
             (Some ValueError) fresh_source in
  r.1.1 = raise ValueError "Bad username or password"
  /\ r.1.2 !! "conn_error" = Some (DStr "Bad username or password").
Proof. vm_compute. repeat split; reflexivity. Qed.

(** C8. With [throw=IMAP_IOError], which is what the mailboxes pass, the
    error raised for a refused login is taken by the function's own
    handler of [IMAP_IOError]: what comes out, and what the event keeps,
    is the protocol error message, not the one of the bad password. *)
Theorem open_bad_login_throw_overwritten :
  let r := _unlocked_open mock_call NoDns NoDns (Some BadLogin)
             (Some IMAP_IOError) fresh_source in
  r.1.1 = raise IMAP_IOError "An IMAP protocol error occurred"
  /\ r.1.2 !! "conn_error" = Some (DStr "An IMAP protocol error occurred").
Proof. vm_compute. repeat split; reflexivity. Qed.

(** The same for every class the handlers take. *)
Lemma conn_error_for_throw cls msg :
  conn_error_for (Exn cls msg) =
  match cls with
  | TimedOut => Some "Connection timed out"
  | IMAP_IOError | IMAP4_error => Some "An IMAP protocol error occurred"
  | IOError | AttributeError | socket_error => Some "A network error occurred"
  | _ => None
  end.
Proof. destruct cls; reflexivity. Qed.

End MailSourceFacts.

Module MailboxFacts.
Import Tokenizer Imap PyNum MailSource Mailbox.

(** *** Sorting by insertion *)

Section Sorting.

Context {A : Type} (le : A -> A -> bool).

Lemma insert_by_perm x l : Permutation (insert_by le x l) (x :: l).
Proof.
  induction l as [|y l IH]; simpl; [reflexivity|].
  destruct (le x y); [reflexivity|].
  rewrite IH. apply perm_swap.
Qed.

Lemma sort_by_perm l : Permutation (sort_by le l) l.
Proof.
  induction l as [|x l IH]; simpl; [reflexivity|].
  rewrite insert_by_perm. now constructor.
Qed.

Hypothesis le_total : forall a b, le a b = false -> le b a = true.

Lemma insert_by_sorted x l :
  Sorted (fun a b => le a b = true) l ->
  Sorted (fun a b => le a b = true) (insert_by le x l).
Proof.
  induction 1 as [|y l Hs IH Hd]; simpl.
  { repeat constructor. }
  destruct (le x y) eqn:E.
  { constructor; [now constructor|now constructor]. }
  constructor; [exact IH|].
  destruct l as [|z l]; simpl.
  { constructor. now apply le_total. }
  destruct (le x z); constructor.
  - now apply le_total.
  - now inversion Hd.
Qed.

Lemma sort_by_sorted l : Sorted (fun a b => le a b = true) (sort_by le l).
Proof.
  induction l as [|x l IH]; simpl; [constructor|].
  now apply insert_by_sorted.
Qed.

End Sorting.

Lemma sort_by_map {A B} (f : A -> B) le1 le2 l :
  (forall a b, le2 (f a) (f b) = le1 a b) ->
  sort_by le2 (map f l) = map f (sort_by le1 l).
Proof.
  intros H. induction l as [|x l IH]; simpl; [reflexivity|].
  rewrite IH. generalize (sort_by le1 l) as s. clear IH.
  induction s as [|y s IH]; simpl; [reflexivity|].
  rewrite H. destruct (le1 x y); simpl; [reflexivity|]. now rewrite IH.
Qed.

Lemma string_leb_total a b : String.leb a b = false -> String.leb b a = true.
Proof.
  intros H. destruct (String.leb_total a b) as [E|E]; congruence.
Qed.

(** *** Cutting a string into chunks *)

Lemma substring_drop b : forall a m s,
  substring (b + a) m s = substring a m (drop_str b s).
Proof.
  induction b as [|b IH]; intros a m s; [reflexivity|].
  destruct s as [|c s]; simpl.
  - destruct a, m; reflexivity.
  - apply IH.
Qed.

Lemma substring_take_drop m : forall s,
  substring 0 m s +:+ drop_str m s = s.
Proof.
  induction m as [|m IH]; intros s; destruct s as [|c s]; simpl;
    try reflexivity.
  rewrite TokenizerFacts.append_cons. now rewrite IH.
Qed.

Lemma length_drop_str m : forall s,
  String.length (drop_str m s) = (String.length s - m)%nat.
Proof.
  induction m as [|m IH]; intros s; destruct s as [|c s]; simpl; auto.
Qed.

Lemma join_chunks cs n : forall body,
  (String.length body <= n * cs)%nat ->
  Urllib.join (map (fun k => substring (k * cs) cs body) (seq 0 n)) = body.
Proof.
  induction n as [|n IH]; intros body Hlen.
  { destruct body; [reflexivity|simpl in Hlen; lia]. }
  cbn [seq map Urllib.join]. rewrite <- seq_shift, map_map.
  rewrite (map_ext _ (fun k => substring (k * cs) cs (drop_str cs body))).
  - rewrite IH by (rewrite length_drop_str; simpl in Hlen; lia).
    apply substring_take_drop.
  - intros k. replace (S k * cs)%nat with (cs + k * cs)%nat by lia.
    apply substring_drop.
Qed.

Lemma floor_vs_ceil s cs :
  (0 <= s)%Z -> (0 < cs)%Z ->
  (s / cs + 1 =
   if s mod cs =? 0 then ceil_div s cs + 1 else ceil_div s cs)%Z.
Proof.
  intros Hs Hcs. unfold ceil_div.
  pose proof (Z.div_mod s cs ltac:(lia)) as Hdm.
  pose proof (Z.mod_pos_bound s cs Hcs) as Hm.
  destruct (s mod cs =? 0)%Z eqn:E.
  - apply Z.eqb_eq in E. f_equal.
    apply (Z.div_unique _ _ _ (cs - 1)); lia.
  - apply Z.eqb_neq in E.
    apply (Z.div_unique _ _ _ (s mod cs - 1)); lia.
Qed.

(** *** Keys *)

Lemma split_on_nodot s :
  all_chars nodot s = true -> Urllib.split_on "."%char s = [s].
Proof.
  induction s as [|c s IH]; [reflexivity|]. cbn [all_chars Urllib.split_on].
  intros [Hc Hs]%andb_prop. unfold nodot in Hc.
  destruct (Ascii.eqb c "."%char); [discriminate|]. now rewrite IH.
Qed.

Lemma split_on_dot a b :
  all_chars nodot a = true ->
  Urllib.split_on "."%char (a +:+ "." +:+ b) = a :: Urllib.split_on "."%char b.
Proof.
  induction a as [|c a IH]; [reflexivity|]. cbn [all_chars].
  intros [Hc Ha]%andb_prop. unfold nodot in Hc.
  rewrite TokenizerFacts.append_cons. cbn [Urllib.split_on].
  destruct (Ascii.eqb c "."%char); [discriminate|]. now rewrite IH.
Qed.

(** A key reads back as the two numbers it was made of. *)
Lemma parse_key_of (v u : N) :
  parse_key (key_of (Z.of_N v) (Z.of_N u)) = Returned (Z.of_N v, Z.of_N u).
Proof.
  unfold parse_key, key_of.
  destruct (PyNumFacts.to_base_all nodot 36 v
              PyNumFacts.digit_char_nodot ltac:(lia)) as [Hv _].
  destruct (PyNumFacts.to_base_all nodot 36 u
              PyNumFacts.digit_char_nodot ltac:(lia)) as [Hu _].
  unfold b36 at 1 2. rewrite !N2Z.id.
  rewrite split_on_dot, split_on_nodot by assumption.
  fold (b36 (Z.of_N v)). 
  replace (to_base 36 v) with (b36 (Z.of_N v))
    by (unfold b36; now rewrite N2Z.id).
  replace (to_base 36 u) with (b36 (Z.of_N u))
    by (unfold b36; now rewrite N2Z.id).
  now rewrite !PyNumFacts.py_int_b36.
Qed.

Lemma emit_keys_uids (v : N) (order : list N) :
  emit_keys (IStr (uid_text v)) (map (fun u => Atom (uid_text u)) order) =
  Returned (map (fun u => key_of (Z.of_N v) (Z.of_N u)) order).
Proof.
  induction order as [|u order IH]; [reflexivity|].
  cbn [map emit_keys]. rewrite IH.
  unfold int_of_value, int_of_item, uid_text.
  rewrite !PyNumFacts.py_int_str. reflexivity.
Qed.

Section Transport.

Context {T : Type}.
Variable call : string -> list arg -> kwargs -> T -> result reply * T.
Variables IMAP4 IMAP4_SSL : string -> Z -> result T.
Variable MBX_ID_LEN : nat.
Variable path : string.
Variable conn_cls : option (string -> Z -> result T).

(** A [with] block gives a value only if its body does. *)
Lemma with_imap_returns {A} (body : SR (SharedImapConn T) A) src a src' :
  with_imap call IMAP4 IMAP4_SSL conn_cls body src = (Returned a, src') ->
  exists c c', body c = (Returned a, c').
Proof.
  unfold with_imap.
  destruct (open call IMAP4 IMAP4_SSL conn_cls (Some IMAP_IOError) src)
    as [[[o|e|] ev] src1]; try discriminate.
  destruct o; [|discriminate].
  destruct (conn src1) as [c|]; [|discriminate].
  destruct (conn_enter c) as [[u|e|] c1]; try discriminate.
  destruct (body c1) as [r c2] eqn:E. intros [= -> <-]. eauto.
Qed.

(** A [with] block on a source whose connection is alive, unlocked and
    answers the NOOP of [open] with OK: the body runs on that connection,
    locked, and the lock is released after it whatever it gives. *)
Lemma with_imap_live {A} (body : SR (SharedImapConn T) A)
    (src : ImapMailSource T) c t rv t' :
  conn src = Some c ->
  _conn c = Some t ->
  _lock c = false ->
  call "noop" [] [] t = (Returned rv, t') ->
  fst rv = "OK" ->
  with_imap call IMAP4 IMAP4_SSL conn_cls body src =
  let c1 := Conn true (Some t') (_selected c) (debug_imap c)
              (sent c ++ [Command "noop" [] [] (Returned rv)]) in
  (fst (body c1), set_source_conn (Some (conn_exit (snd (body c1)))) src).
Proof.
  intros Hc Ht Hl Hcall Hok.
  unfold with_imap, open, _unlocked_open, check_existing, conn_enter.
  rewrite Hc, Ht, Hl.
  unfold proxy_method, scatch, sbind, assert_locked, conn_call.
  cbn [set_lock _lock _conn]. rewrite Ht, Hcall. cbn. rewrite Hok. cbn.
  destruct (body _) as [r c2]. reflexivity.
Qed.

(** C2, amended. When the UID search gives the UIDs [uids] and the
    selection info the UIDVALIDITY [v], [iterkeys] emits one key
    [b36(v).b36(uid)] per UID (the keys are those of a permutation of
    [uids]); each key reads back, in base 36, as [v] and its UID; the
    keys come in ascending order of the text of the UIDs, compared as
    strings, not of their numeric value. *)
Theorem iterkeys_keys (src src' : ImapMailSource T) (v : N) (uids : list N) :
  with_imap call IMAP4 IMAP4_SSL conn_cls (iterkeys_query call path) src =
    (Returned (IStr (uid_text v), map (fun u => Atom (uid_text u)) uids),
     src') ->
  exists order,
    iterkeys call IMAP4 IMAP4_SSL path conn_cls src =
      (Returned (map (fun u => key_of (Z.of_N v) (Z.of_N u)) order), src')
    /\ Permutation order uids
    /\ Sorted (fun a b => String.leb (uid_text a) (uid_text b) = true) order
    /\ Forall (fun u => parse_key (key_of (Z.of_N v) (Z.of_N u)) =
                        Returned (Z.of_N v, Z.of_N u)) order.
Proof.
  intros Hq.
  exists (sort_by (fun a b => String.leb (uid_text a) (uid_text b)) uids).
  split; [|split; [|split]].
  - unfold iterkeys, sbind. rewrite Hq. cbn [fst snd]. unfold sorted.
    rewrite (sort_by_map (fun u => Atom (uid_text u))
               (fun a b => String.leb (uid_text a) (uid_text b)))
      by reflexivity.
    unfold slift. now rewrite emit_keys_uids.
  - apply sort_by_perm.
  - apply sort_by_sorted. intros a b. apply string_leb_total.
  - apply Forall_forall. intros u _. apply parse_key_of.
Qed.

(** A forwarded [uid] command on a ready connection goes straight to
    the transport. *)
Lemma forward_uid_ready (c : SharedImapConn T) args t r t' :
  ready path c ->
  _conn c = Some t ->
  call "uid" args [] t = (Returned r, t') ->
  forward call "uid" args (Some path) [] c =
  (Returned r,
   Conn true (Some t') (_selected c) (debug_imap c)
     (sent c ++ [Command "uid" args [] (Returned r)])).
Proof.
  intros (Hl & _ & rv & info & Hs & Hok) Ht Hcall.
  unfold forward. cbn [existsb proxied String.eqb Ascii.eqb Bool.eqb orb].
  unfold proxy_method, scatch, sbind, assert_locked. rewrite Hl.
  rewrite (SharedConnFacts.select_hit call c path false rv info Hl Hs).
  rewrite Hok. cbn [negb]. unfold conn_call. rewrite Ht, Hcall, Hl.
  reflexivity.
Qed.

Lemma body_fetch_count_snoc log cmd :
  body_fetch_count (log ++ [cmd]) =
  (body_fetch_count log + if is_body_fetch cmd then 1 else 0)%nat.
Proof.
  unfold body_fetch_count. rewrite List.filter_app, length_app. simpl.
  destruct (is_body_fetch cmd); reflexivity.
Qed.

Lemma is_body_fetch_request uid offset size r :
  is_body_fetch (Command "uid" [AStr "FETCH"; uid;
                                AStr (body_request offset size)] [] r) = true.
Proof. reflexivity. Qed.

(** The loop of [get] against a transport that serves the message. *)
Lemma fetch_chunks_serves uid cs body :
  (0 < cs)%Z ->
  serves call uid cs body ->
  forall m i acc (c : SharedImapConn T),
    ready path c ->
    (Z.of_nat (i + m) <= Z.of_nat (String.length body) / cs + 1)%Z ->
    exists c',
      fetch_chunks call path uid cs (map Z.of_nat (seq i m)) acc c =
      (Returned (acc ++ map (fun k => substring (k * Z.to_nat cs)
                                        (Z.to_nat cs) body) (seq i m))%list,
       c')
      /\ ready path c'
      /\ body_fetch_count (sent c') = (body_fetch_count (sent c) + m)%nat.
Proof.
  intros Hcs Hserve. induction m as [|m IH]; intros i acc c Hr Hi.
  { exists c. cbn [seq map fetch_chunks]. rewrite app_nil_r.
    split; [reflexivity|]. split; [exact Hr|lia]. }
  cbn [seq map fetch_chunks].
  pose proof Hr as (Hl & [t Ht] & rv & info & Hs & Hok).
  destruct (Hserve t (Z.of_nat i) ltac:(lia)) as (hdr & rest & t' & Hcall).
  unfold sbind at 1.
  rewrite (forward_uid_ready c _ t _ t' Hr Ht Hcall).
  unfold timed. cbn [fst snd].
  unfold sbind at 1. cbn [_assert String.eqb Ascii.eqb Bool.eqb sret].
  unfold sbind at 1. cbn [slift first_payload first rbind].
  set (c1 := Conn _ _ _ _ _).
  assert (Hr1 : ready path c1).
  { subst c1. split; [reflexivity|]. split; [cbn; eauto|].
    exists rv, info. cbn. auto. }
  destruct (IH (S i) (acc ++ [substring (Z.to_nat (Z.of_nat i * cs))
                                (Z.to_nat cs) body])%list c1 Hr1 ltac:(lia))
    as (c' & E & Hr' & Hn).
  exists c'. rewrite E. split; [|split; [exact Hr'|]].
  - f_equal. rewrite <- app_assoc. cbn [app]. do 3 f_equal.
    rewrite Z2Nat.inj_mul, Nat2Z.id by lia. reflexivity.
  - rewrite Hn. subst c1. cbn [sent].
    rewrite body_fetch_count_snoc, is_body_fetch_request. lia.
Qed.

(** [open] leaves the timeout of the source alone. *)
Lemma open_keeps_timeout throw (src : ImapMailSource T) :
  timeout (snd (open call IMAP4 IMAP4_SSL conn_cls throw src)) = timeout src.
Proof.
  unfold open, _unlocked_open.
  assert (Hc : timeout (snd (check_existing call src)) = timeout src).
  { unfold check_existing. destruct (conn src) as [c|]; [|reflexivity].
    destruct (conn_enter c) as [[u|e|] c1].
    - destruct (proxy_method call "noop" [] None [] c1) as [[rv|e|] c2];
        cbn [timed].
      + destruct (String.eqb rv.1 "OK"); reflexivity.
      + destruct (caught_by e (CONN_ERRORS ++ [AttributeError]));
          reflexivity.
      + reflexivity.
    - destruct (caught_by e (CONN_ERRORS ++ [AttributeError])); reflexivity.
    - reflexivity. }
  destruct (check_existing call src) as [[[|]|e|] src0]; cbn [snd] in *;
    try exact Hc.
  set (src1 := set_source_conn None src0).
  set (factory := match conn_cls with Some cls => cls | None => _ end).
  set (ev0 := delete "conn_error" (default ∅ (event src1))).
  assert (Hk : forall r l ev s,
             connect call factory throw ev0 src1 = (r, l, ev, s) ->
             timeout s = timeout src).
  { unfold connect, timed, timed_imap, timed. intros r l ev s.
    destruct (factory _ _) as [t0|e|]; [|intros [= _ _ _ <-]; exact Hc..].
    destruct (call "login" _ [] t0) as [r1 t1]. cbn [rbind].
    destruct r1 as [rv1|e|]; cbn [rbind];
      [|intros [= _ _ _ <-]; exact Hc..].
    destruct (_parse_imap rv1) as [[[|] d1]|e|];
      [| destruct throw; intros [= _ _ _ <-]; exact Hc
       | intros [= _ _ _ <-]; exact Hc..].
    destruct (call "capability" [] [] t1) as [r2 t2].
    destruct r2 as [rv2|e|]; cbn [rbind];
      [|intros [= _ _ _ <-]; exact Hc..].
    destruct (_parse_imap rv2) as [[ok data]|e|];
      [|intros [= _ _ _ <-]; exact Hc..].
    destruct (if ok then join_atoms data else Returned "") as [j|e|];
      intros [= _ _ _ <-]; exact Hc. }
  destruct (connect call factory throw ev0 src1) as [[[r l] ev] s] eqn:E.
  specialize (Hk r l ev s eq_refl).
  assert (Hs : forall e, timeout (store_event e s) = timeout src).
  { intros e. unfold store_event. destruct (event s); exact Hk. }
  destruct r as [o|e|]; cbn [snd]; [apply Hs| |apply Hs].
  destruct (conn_error_for e) as [msg|]; [|apply Hs].
  destruct (teardown call l) as [u|e'|]; cbn [snd]; try apply Hs.
  destruct throw; apply Hs.
Qed.

(** A [with] block that gives a value ran its body on a locked
    connection, which the source holds, unlocked, afterwards. *)
Lemma with_imap_returns_state {A} (body : SR (SharedImapConn T) A)
    src a src1 :
  with_imap call IMAP4 IMAP4_SSL conn_cls body src = (Returned a, src1) ->
  exists c1 c2,
    _lock c1 = true
    /\ body c1 = (Returned a, c2)
    /\ conn src1 = Some (conn_exit c2)
    /\ timeout src1 = timeout src.
Proof.
  unfold with_imap.
  pose proof (open_keeps_timeout (Some IMAP_IOError) src) as Ht.
  destruct (open call IMAP4 IMAP4_SSL conn_cls (Some IMAP_IOError) src)
    as [[[o|e|] ev] src0]; try discriminate.
  cbn [snd] in Ht.
  destruct o; [|discriminate].
  destruct (conn src0) as [c|]; [|discriminate].
  unfold conn_enter. destruct (_conn c); [|discriminate].
  destruct (_lock c); [discriminate|].
  destruct (body (set_lock true c)) as [r c2] eqn:E. intros [= -> <-].
  exists (set_lock true c), c2. auto.
Qed.

(** A [select] that returns an OK reply leaves the folder selected. *)
Lemma select_returns_ok mailbox readonly (c : SharedImapConn T) rv c' :
  _lock c = true ->
  select call mailbox readonly c = (Returned rv, c') ->
  status_ok (fst rv) = true ->
  _lock c' = true
  /\ exists info, _selected c' = Some ((mailbox, readonly), rv, info).
Proof.
  intros Hl Hs Hok. rewrite (SharedConnFacts.select_locked call) in Hs by exact Hl.
  assert (Hu : select_uncached call mailbox readonly c = (Returned rv, c') ->
               _lock c' = true
               /\ exists info,
                    _selected c' = Some ((mailbox, readonly), rv, info)).
  { unfold select_uncached, sbind.
    pose proof (SharedConnFacts.conn_call_frame call "select" []
                  (select_kw mailbox readonly) c) as [_ Hl1].
    destruct (conn_call call "select" [] (select_kw mailbox readonly) c)
      as [[rv1|e|] c1]; try discriminate.
    cbn [snd] in Hl1.
    destruct (status_ok rv1.1) eqn:E1.
    - pose proof (SharedConnFacts.responses_frame call info_fields ∅ c1)
        as [_ Hl2].
      destruct (responses call info_fields ∅ c1) as [[info|e|] c2];
        try discriminate.
      cbn [snd] in Hl2. unfold sret. intros [= <- <-]. split.
      + cbn. congruence.
      + eexists. reflexivity.
    - destruct (debug_imap c1); [discriminate|].
      intros [= <- _]. congruence. }
  destruct (_selected c) as [[[key rv0] info]|] eqn:Es; [|now apply Hu].
  destruct (decide (key = (mailbox, readonly))) as [->|_]; [|now apply Hu].
  injection Hs as <- <-. split; [exact Hl|]. eauto.
Qed.

(** A forwarded command that names its folder and comes back with an OK
    reply leaves a connection on which the folder is selected. *)
Lemma forward_returns_ok method args kw mailbox (c : SharedImapConn T)
    rv c' :
  _lock c = true ->
  forward call method args (Some mailbox) kw c = (Returned rv, c') ->
  status_ok (fst rv) = true ->
  ready mailbox c'.
Proof.
  intros Hl Hf Hok. unfold forward in Hf.
  destruct (existsb (String.eqb method) proxied); [|discriminate].
  unfold proxy_method, scatch, sbind, assert_locked in Hf.
  rewrite Hl in Hf.
  destruct (select call mailbox false c) as [[rvs|e|] cs] eqn:Es.
  - destruct (status_ok rvs.1) eqn:Eok; cbn [negb] in Hf.
    + destruct (select_returns_ok mailbox false c rvs cs Hl Es Eok)
        as (Hls & info & Hsel).
      unfold conn_call in Hf. destruct (_conn cs) as [t|].
      * destruct (call method args kw t) as [[r|e|] t'].
        -- injection Hf as <- <-. split; [exact Hls|].
           split; [cbn; eauto|]. exists rvs, info. cbn. auto.
        -- destruct (subclass (exn_cls e) IMAP4_error); discriminate.
        -- discriminate.
      * discriminate.
    + unfold sret in Hf. injection Hf as <- <-. congruence.
  - destruct (subclass (exn_cls e) IMAP4_error); discriminate.
  - discriminate.
Qed.

Lemma parse_imap_ok rv ok data :
  _parse_imap rv = Returned (ok, data) -> ok = status_ok (fst rv).
Proof.
  unfold _parse_imap, status_ok.
  destruct (parse_lines rv.2 (PState [] [])); cbn [rbind]; try discriminate.
  now intros [= <- _].
Qed.

(** What a [get_info] that returns leaves behind: the dict holds the
    two integers of the key, and the source an unlocked, live
    connection with the folder selected; its timeout is untouched. *)
Lemma get_info_returns key (src src1 : ImapMailSource T) info :
  get_info call IMAP4 IMAP4_SSL path conn_cls key src = (Returned info, src1) ->
  exists uidv uid d c,
    parse_key key = Returned (uidv, uid)
    /\ info = <["UID" := VInt uid]> (<["UIDVALIDITY" := VInt uidv]> d)
    /\ conn src1 = Some (conn_exit c)
    /\ ready path c
    /\ timeout src1 = timeout src.
Proof.
  intros H. unfold get_info in H.
  apply with_imap_returns_state in H as (c1 & c2 & Hl & Hb & Hc & Ht).
  unfold sbind at 1 in Hb. unfold slift at 1 in Hb.
  destruct (parse_key key) as [[uidv uid]|e|]; try discriminate.
  cbn [fst snd] in Hb. unfold sbind at 1 in Hb.
  destruct (forward call "uid" _ (Some path) [] c1) as [[rv|e|] cf] eqn:Ef;
    try discriminate.
  unfold sbind at 1 in Hb. unfold parsed, slift, timed_imap, timed in Hb.
  cbn [rbind] in Hb.
  destruct (_parse_imap rv) as [[ok data]|e|] eqn:Ep; try discriminate.
  pose proof (parse_imap_ok _ _ _ Ep) as Hok. cbn [fst snd] in Hb.
  destruct ok; cbn [negb] in Hb; [|discriminate].
  pose proof (forward_returns_ok _ _ _ _ _ _ _ Hl Ef (eq_sym Hok)) as Hr.
  pose proof Hr as (_ & _ & rvs & i & Hsel & _).
  unfold sbind, mailbox_info, _assert, sret, sraise in Hb.
  rewrite Hsel in Hb.
  destruct (str_in _ _) as [[|]|e|]; try discriminate.
  destruct (second data) as [x|e|]; try discriminate.
  destruct (dict_of_pairs (iter_value x) ∅) as [d|e|]; try discriminate.
  injection Hb as <- <-.
  exists uidv, uid, d, cf. auto.
Qed.

Lemma body_fetches_snoc log cmd :
  body_fetches (log ++ [cmd]) =
  (body_fetches log ++ if is_body_fetch cmd then [cmd_args cmd] else [])%list.
Proof.
  unfold body_fetches. rewrite List.filter_app, map_app. cbn [List.filter].
  destruct (is_body_fetch cmd); reflexivity.
Qed.

Lemma body_fetches_count log :
  body_fetch_count log = length (body_fetches log).
Proof. unfold body_fetch_count, body_fetches. now rewrite length_map. Qed.

(** The loop of [get] against a transport that answers the partial
    fetches numbered up to [hi] with OK and a payload. *)
Lemma fetch_chunks_payloads uid cs (chunk : Z -> string) hi :
  (forall t k, (0 <= k <= hi)%Z ->
     exists data t',
       call "uid" [AStr "FETCH"; uid;
                   AStr (body_request (k * cs) cs)] [] t =
       (Returned ("OK", data), t')
       /\ first_payload data = Returned (chunk k)) ->
  forall m i acc (c : SharedImapConn T),
    ready path c ->
    (Z.of_nat (i + m) <= hi + 1)%Z ->
    exists c',
      fetch_chunks call path uid cs (map Z.of_nat (seq i m)) acc c =
      (Returned (acc ++ map chunk (map Z.of_nat (seq i m)))%list, c')
      /\ ready path c'
      /\ body_fetches (sent c') =
         (body_fetches (sent c) ++
          map (fun k => [AStr "FETCH"; uid; AStr (body_request (k * cs) cs)])
            (map Z.of_nat (seq i m)))%list.
Proof.
  intros Hserve. induction m as [|m IH]; intros i acc c Hr Hi.
  { exists c. cbn [seq map fetch_chunks]. rewrite !app_nil_r.
    split; [reflexivity|]. split; [exact Hr|reflexivity]. }
  cbn [seq map fetch_chunks].
  pose proof Hr as (Hl & [t Ht] & rv & info & Hs & Hok).
  destruct (Hserve t (Z.of_nat i) ltac:(lia)) as (data & t' & Hcall & Hp).
  unfold sbind at 1.
  rewrite (forward_uid_ready c _ t _ t' Hr Ht Hcall).
  unfold timed. cbn [fst snd].
  unfold sbind at 1. cbn [_assert String.eqb Ascii.eqb Bool.eqb sret].
  unfold sbind at 1. unfold slift at 1. rewrite Hp.
  set (c1 := Conn _ _ _ _ _).
  assert (Hr1 : ready path c1).
  { subst c1. split; [reflexivity|]. split; [cbn; eauto|].
    exists rv, info. cbn. auto. }
  destruct (IH (S i) (acc ++ [chunk (Z.of_nat i)])%list c1 Hr1 ltac:(lia))
    as (c' & E & Hr' & Hn).
  exists c'. rewrite E. split; [|split; [exact Hr'|]].
  - now rewrite <- app_assoc.
  - rewrite Hn. subst c1. cbn [sent].
    rewrite body_fetches_snoc, is_body_fetch_request. cbn [cmd_args].
    now rewrite <- app_assoc.
Qed.

(** The body of [get] against a transport that serves a message of [s]
    bytes whole: [floor(s / (t * 1024)) + 1] partial-body fetches, and
    the message comes back as it is. *)
Lemma get_body_chunks (uid : arg) (body : string) (t : Z)
    (c : SharedImapConn T) :
  let s := Z.of_nat (String.length body) in
  let chunk_size := (t * 1024)%Z in
  (0 < t)%Z ->
  serves call uid chunk_size body ->
  ready path c ->
  exists c',
    get_body call path uid s t c = (Returned body, c')
    /\ Z.of_nat (body_fetch_count (sent c')) =
       (Z.of_nat (body_fetch_count (sent c)) + (s / chunk_size + 1))%Z
    /\ (s / chunk_size + 1 =
        if s mod chunk_size =? 0 then ceil_div s chunk_size + 1
        else ceil_div s chunk_size)%Z.
Proof.
  intros s cs Ht Hserve Hr.
  assert (Hcs : (0 < cs)%Z) by (subst cs; lia).
  assert (Hs : (0 <= s)%Z) by (subst s; lia).
  assert (Hq : (0 <= s / cs)%Z) by (apply Z.div_pos; lia).
  unfold get_body. fold cs.
  replace (cs =? 0)%Z with false by (symmetry; apply Z.eqb_neq; lia).
  unfold range0.
  destruct (fetch_chunks_serves uid cs body Hcs Hserve
              (Z.to_nat (1 + s / cs)) 0%nat [] c Hr ltac:(fold s; lia))
    as (c' & E & _ & Hn).
  exists c'. unfold sbind. rewrite E. cbn [app]. unfold sret.
  split; [|split].
  - f_equal. f_equal. apply join_chunks.
    assert (H : (s < (s / cs + 1) * cs)%Z).
    { pose proof (Z.div_mod s cs ltac:(lia)).
      pose proof (Z.mod_pos_bound s cs Hcs). lia. }
    apply Nat2Z.inj_le. rewrite Nat2Z.inj_mul, !Z2Nat.id by lia.
    fold s. lia.
  - rewrite Hn. lia.
  - apply floor_vs_ceil; assumption.
Qed.

(** C3, amended. For a message whose reported RFC822.SIZE is [s] and a
    positive timeout [t] of the source, [get(key)] -- the server
    answering the NOOP of [open] with OK and each partial fetch with OK
    and a literal -- asks for the body in chunks of [t * 1024] bytes, at
    the offsets [k * t * 1024] for [k] from 0 to [floor(s / (t * 1024))],
    under the UID of the key: exactly [floor(s / (t * 1024)) + 1]
    partial-body fetches, and it returns the literals joined.  That
    count is [ceil(s / (t * 1024)) + 1] when [s] is a multiple of the
    chunk size (0 included: a message without bytes takes one fetch),
    and [ceil(s / (t * 1024))] otherwise. *)
Theorem get_chunks key (src src1 : ImapMailSource T) info uidv uid s
    (chunk : Z -> string) :
  let t := timeout src in
  let chunk_size := (t * 1024)%Z in
  (0 < t)%Z ->
  (0 <= s)%Z ->
  parse_key key = Returned (uidv, uid) ->
  get_info call IMAP4 IMAP4_SSL path conn_cls key src = (Returned info, src1) ->
  int_of_info (info !! "RFC822.SIZE") = Returned s ->
  (forall tr, exists rv tr',
      call "noop" [] [] tr = (Returned rv, tr') /\ fst rv = "OK") ->
  (forall tr k, (0 <= k <= s / chunk_size)%Z ->
     exists data tr',
       call "uid" [AStr "FETCH"; AInt uid;
                   AStr (body_request (k * chunk_size) chunk_size)] [] tr =
       (Returned ("OK", data), tr')
       /\ first_payload data = Returned (chunk k)) ->
  exists src2 c1 c2,
    get call IMAP4 IMAP4_SSL path conn_cls key src =
      (Returned (info,
                 Urllib.join (map chunk (range0 (s / chunk_size + 1)))),
       src2)
    /\ conn src1 = Some c1
    /\ conn src2 = Some c2
    /\ body_fetches (sent c2) =
       (body_fetches (sent c1) ++
        map (fun k => [AStr "FETCH"; AInt uid;
                       AStr (body_request (k * chunk_size) chunk_size)])
          (range0 (s / chunk_size + 1)))%list
    /\ Z.of_nat (body_fetch_count (sent c2)) =
       (Z.of_nat (body_fetch_count (sent c1)) + (s / chunk_size + 1))%Z
    /\ (s / chunk_size + 1 =
        if s mod chunk_size =? 0 then ceil_div s chunk_size + 1
        else ceil_div s chunk_size)%Z.
Proof.
  intros t cs Ht Hs Hkey Hinfo Hsize Hnoop Hserve.
  assert (Hcs : (0 < cs)%Z) by (subst cs; lia).
  assert (Hq : (0 <= s / cs)%Z) by (apply Z.div_pos; lia).
  destruct (get_info_returns key src src1 info Hinfo)
    as (uidv' & uid' & d & c & Hkey' & Hi & Hconn & Hr & Htm).
  rewrite Hkey in Hkey'. injection Hkey' as <- <-.
  assert (Harg : arg_of_info (info !! "UID") = Returned (AInt uid)).
  { rewrite Hi.
    replace (<["UID" := VInt uid]> (<["UIDVALIDITY" := VInt uidv]> d)
               !! "UID") with (Some (VInt uid))
      by (symmetry; apply lookup_insert_eq).
    reflexivity. }
  pose proof Hr as (Hl & [t0 Ht0] & rvs & i & Hsel & Hok).
  destruct (Hnoop t0) as (rv & t1 & Hcall & Hrv).
  unfold get. unfold sbind at 1. rewrite Hinfo.
  unfold sbind at 1. unfold slift at 1. rewrite Hsize.
  match goal with
  | |- context [with_imap _ _ _ _ ?b _] => set (body := b)
  end.
  rewrite (with_imap_live body src1 (conn_exit c) t0 rv t1 Hconn Ht0
             eq_refl Hcall Hrv).
  cbn zeta.
  set (c1 := Conn true (Some t1) (_selected (conn_exit c))
               (debug_imap (conn_exit c)) _).
  assert (Hr1 : ready path c1).
  { split; [reflexivity|]. split; [cbn; eauto|].
    exists rvs, i. cbn. auto. }
  destruct (fetch_chunks_payloads (AInt uid) cs chunk (s / cs) Hserve
              (Z.to_nat (1 + s / cs)) 0%nat [] c1 Hr1 ltac:(lia))
    as (c2 & E & Hr2 & Hn).
  assert (Hrange : map Z.of_nat (seq 0 (Z.to_nat (1 + s / cs))) =
                   range0 (s / cs + 1)).
  { unfold range0. now rewrite Z.add_comm. }
  rewrite Hrange in E, Hn. cbn [app] in E.
  assert (Eb : body c1 =
               (Returned (info, Urllib.join (map chunk (range0 (s / cs + 1)))),
                c2)).
  { subst body. unfold sbind at 1. unfold slift at 1. rewrite Harg.
    unfold sbind at 1. unfold get_body. rewrite Htm. fold t. fold cs.
    replace (cs =? 0)%Z with false by (symmetry; apply Z.eqb_neq; lia).
    unfold sbind at 1. unfold range0 at 1. rewrite Hrange, E.
    reflexivity. }
  rewrite Eb. cbn [fst snd].
  exists (set_source_conn (Some (conn_exit c2)) src1), (conn_exit c),
    (conn_exit c2).
  split; [reflexivity|]. split; [exact Hconn|]. split; [reflexivity|].
  assert (Hlog : body_fetches (sent (conn_exit c2)) =
                 (body_fetches (sent (conn_exit c)) ++
                  map (fun k => [AStr "FETCH"; AInt uid;
                                 AStr (body_request (k * cs) cs)])
                    (range0 (s / cs + 1)))%list).
  { cbn [conn_exit set_lock sent]. rewrite Hn. subst c1. cbn [sent].
    rewrite body_fetches_snoc. cbn [is_body_fetch cmd_method String.eqb
      Ascii.eqb Bool.eqb andb]. now rewrite app_nil_r. }
  split; [exact Hlog|]. split.
  - rewrite !body_fetches_count, Hlog, length_app, !length_map.
    unfold range0. rewrite length_map, length_seq. lia.
  - apply floor_vs_ceil; assumption.
Qed.

(** C4. [remove] never gets as far as a STORE: [store] is not among the
    methods a [SharedImapConn] forwards, so looking it up raises
    [AttributeError], whatever the key; [remove] returns for no key and
    no state of the source. *)
Theorem remove_never_stores key (src : ImapMailSource T) :
  (forall c, fst (forward call "store" [AStr "+FLAGS"; AStr "\Deleted"]
                    (Some path) [] c) =
             raise AttributeError
               "'SharedImapConn' object has no attribute 'store'")
  /\ ((exists e, fst (remove call IMAP4 IMAP4_SSL path conn_cls key src)
                 = Raised e)
      \/ fst (remove call IMAP4 IMAP4_SSL path conn_cls key src) = Hangs).
Proof.
  split; [reflexivity|].
  destruct (remove call IMAP4 IMAP4_SSL path conn_cls key src)
    as [[u|e|] src'] eqn:E; simpl; eauto.
  apply with_imap_returns in E as (c & c' & E).
  unfold sbind in E. simpl in E. discriminate.
Qed.

(** C9. A message pointer is the mailbox id followed by the quoted
    key; dropping the id, which is [MBX_ID_LEN] characters wide, and
    unquoting gives the key back, so [get_file_by_ptr] on the pointer is
    [get_file] on the key. *)
Theorem get_file_by_ptr_of_msg_ptr (mbx_id k : string) :
  String.length mbx_id = MBX_ID_LEN ->
  get_msg_ptr mbx_id k = mbx_id +:+ Urllib.quote k
  /\ Urllib.unquote (drop_str MBX_ID_LEN (get_msg_ptr mbx_id k)) = k
  /\ get_file_by_ptr call IMAP4 IMAP4_SSL MBX_ID_LEN path conn_cls
       (get_msg_ptr mbx_id k) =
     get_file call IMAP4 IMAP4_SSL path conn_cls k.
Proof.
  intros <-. unfold get_file_by_ptr, get_msg_ptr.
  rewrite TokenizerFacts.drop_str_app, UrllibFacts.unquote_quote. auto.
Qed.

End Transport.

Lemma iterkeys_keys_witness :
  let srv := Demo.server 13 [2; 10; 33] "From: Bjarni" 1024 in
  exists order,
    fst (iterkeys srv Demo.connect_to Demo.connect_to "INBOX"
           (Some Demo.connect_to) (Demo.source 1)) =
      Returned (map (fun u => key_of 13 (Z.of_N u)) order)
    /\ Permutation order [2; 10; 33]%N.
Proof.
  intros srv.
  destruct (with_imap srv Demo.connect_to Demo.connect_to
              (Some Demo.connect_to) (iterkeys_query srv "INBOX")
              (Demo.source 1)) as [r src'] eqn:E.
  destruct (iterkeys_keys srv Demo.connect_to Demo.connect_to "INBOX"
              (Some Demo.connect_to) (Demo.source 1) src' 13 [2; 10; 33]%N)
    as (order & H1 & H2 & _).
  - rewrite E. vm_compute in E. injection E as <- <-. reflexivity.
  - exists order. rewrite H1. split; [reflexivity|exact H2].
Defined.

(** UIDs 2 and 10: the key of 10 comes first. *)
Lemma iterkeys_not_in_numeric_order :
  let srv := Demo.server 13 [2; 10] "From: Bjarni" 1024 in
  match fst (iterkeys srv Demo.connect_to Demo.connect_to "INBOX"
               (Some Demo.connect_to) (Demo.source 1)) with
  | Returned keys =>
      keys = ["d.a"; "d.2"] /\ key_uids keys = [Returned 10%Z; Returned 2%Z]
      /\ ascending (key_uids keys) = false
  | _ => False
  end.
Proof. vm_compute. repeat split; reflexivity. Qed.

(** A message of 1030 bytes, timeout 1: two fetches of 1024 bytes. *)
Lemma get_chunks_witness :
  let srv := Demo.server 13 [2] (Demo.repeat_char "x" 1030) 1024 in
  exists info payload src2 c2,
    get srv Demo.connect_to Demo.connect_to "INBOX"
      (Some Demo.connect_to) "d.2" (Demo.source 1) =
    (Returned (info, payload), src2)
    /\ conn src2 = Some c2
    /\ body_fetches (sent c2) =
       [[AStr "FETCH"; AInt 2; AStr "(BODY[]<0.1024>)"];
        [AStr "FETCH"; AInt 2; AStr "(BODY[]<1024.1024>)"]].
Proof.
  intros srv.
  pose (chunk := fun k : Z =>
          substring (Z.to_nat (k * 1024)) 1024 (Demo.repeat_char "x" 1030)).
  let v := eval vm_compute in
             (get_info srv Demo.connect_to Demo.connect_to "INBOX"
                (Some Demo.connect_to) "d.2" (Demo.source 1)) in
  match v with
  | (Returned ?info, ?src1) =>
      assert (E : get_info srv Demo.connect_to Demo.connect_to "INBOX"
                    (Some Demo.connect_to) "d.2" (Demo.source 1) =
                  (Returned info, src1)) by (vm_compute; reflexivity);
      assert (Hsize : int_of_info (info !! "RFC822.SIZE") = Returned 1030%Z)
        by (vm_compute; reflexivity);
      destruct (get_chunks srv Demo.connect_to Demo.connect_to "INBOX"
                  (Some Demo.connect_to) "d.2" (Demo.source 1) src1 info
                  13 2 1030 chunk ltac:(cbn; lia) ltac:(lia)
                  ltac:(vm_compute; reflexivity) E Hsize)
        as (src2 & c1 & c2 & Hget & Hc1 & Hc2 & Hlog & _)
  end.
  - intros []. exists ("OK", [IStr "done"]), tt. split; reflexivity.
  - intros [] k Hk.
    assert (Hq : (1030 / (timeout (Demo.source 1) * 1024) = 1)%Z)
      by (vm_compute; reflexivity).
    rewrite Hq in Hk.
    assert (Hcases : k = 0%Z \/ k = 1%Z) by lia.
    destruct Hcases as [-> | ->].
    + exists [ITuple "1 (UID 2 BODY[]" (chunk 0%Z); IStr ")"], tt.
      split; vm_compute; reflexivity.
    + exists [ITuple "1 (UID 2 BODY[]" (chunk 1%Z); IStr ")"], tt.
      split; vm_compute; reflexivity.
  - eexists _, _, src2, c2. split; [exact Hget|]. split; [exact Hc2|].
    rewrite Hlog. injection Hc1 as <-. vm_compute. reflexivity.
Defined.

Lemma get_body_chunks_witness :
  let body := Demo.repeat_char "x" 1024 in
  let srv := Demo.server 13 [2] body 1024 in
  let c := Conn true (Some tt)
             (Some (("INBOX", false), ("OK", [IStr "1"]), ∅)) false [] in
  exists c',
    get_body srv "INBOX" (AInt 2) 1024 1 c = (Returned body, c')
    /\ Z.of_nat (body_fetch_count (sent c')) = 2%Z.
Proof.
  intros body srv c.
  destruct (get_body_chunks srv "INBOX" (AInt 2) body 1 c)
    as (c' & H1 & H2 & _).
  - lia.
  - intros [] k Hk.
    assert (Hlen : (Z.of_nat (String.length body) / (1 * 1024) = 1)%Z)
      by (vm_compute; reflexivity).
    rewrite Hlen in Hk.
    assert (Hcases : k = 0%Z \/ k = 1%Z) by lia.
    destruct Hcases as [-> | ->];
      exists "1 (UID 2 BODY[]", [IStr ")"], tt; vm_compute; reflexivity.
  - split; [reflexivity|]. split; [eexists; reflexivity|].
    eexists; eexists; split; reflexivity.
  - exists c'. split; [exact H1|]. rewrite H2. reflexivity.
Defined.

(** A message of one byte, timeout 1: one partial fetch, where
    [ceil(1 / 1024) + 1] is 2. *)
Lemma get_one_byte_fetches_once :
  let srv := Demo.server 13 [2] "x" 1024 in
  let r := get srv Demo.connect_to Demo.connect_to "INBOX"
             (Some Demo.connect_to) "d.2" (Demo.source 1) in
  match r.1, conn r.2 with
  | Returned (_, payload), Some c =>
      payload = "x"
      /\ Z.of_nat (body_fetch_count (sent c)) = 1%Z
      /\ (ceil_div 1 (1 * 1024) + 1 = 2)%Z
      /\ Z.of_nat (body_fetch_count (sent c)) <> (ceil_div 1 (1 * 1024) + 1)%Z
  | _, _ => False
  end.
Proof. vm_compute. repeat split; discriminate. Qed.

(** A message without bytes: one fetch, the empty string. *)
Lemma get_empty_message :
  let srv := Demo.server 13 [2] "" 1024 in
  let r := get srv Demo.connect_to Demo.connect_to "INBOX"
             (Some Demo.connect_to) "d.2" (Demo.source 1) in
  match r.1, conn r.2 with
  | Returned (_, payload), Some c =>
      payload = "" /\ body_fetch_count (sent c) = 1%nat
  | _, _ => False
  end.
Proof. vm_compute. split; reflexivity. Qed.

(** [remove] against a server that would take the STORE: it never gets
    one. *)
Lemma remove_on_demo_server :
  let srv := Demo.server 13 [100] "From: Bjarni" 1024 in
  let r := remove srv Demo.connect_to Demo.connect_to "INBOX"
             (Some Demo.connect_to) "d.2s" (Demo.source 1) in
  r.1 = raise AttributeError
          "'SharedImapConn' object has no attribute 'store'"
  /\ match conn r.2 with
     | Some c => sent c = [] /\ _lock c = false
     | None => False
     end.
Proof. vm_compute. repeat split; reflexivity. Qed.

Lemma get_file_by_ptr_of_msg_ptr_witness :
  let srv := Demo.server 13 [100] "From: Bjarni" 1024 in
  let k := "d.2s %/x" in
  get_msg_ptr "0000" k = "0000d.2s%20%25/x"
  /\ Urllib.unquote (drop_str 4 (get_msg_ptr "0000" k)) = k
  /\ get_file_by_ptr srv Demo.connect_to Demo.connect_to 4 "INBOX"
       (Some Demo.connect_to) (get_msg_ptr "0000" k) =
     get_file srv Demo.connect_to Demo.connect_to "INBOX"
       (Some Demo.connect_to) k.
Proof.
  intros srv k.
  destruct (get_file_by_ptr_of_msg_ptr srv Demo.connect_to Demo.connect_to
              4 "INBOX" (Some Demo.connect_to) "0000" k eq_refl)
    as (H1 & H2 & H3).
  split; [|split]; [rewrite H1; reflexivity|exact H2|exact H3].
Defined.

End MailboxFacts.

(** * Further properties of the code *)

Module TokenizerMore.
Import Tokenizer TokenizerFacts.

Lemma no_quote_no_match s :
  writable (Atom s) = true -> IMAP_TOKEN_match (String dquote s) = None.
Proof.
  cbn [writable]. intros Hs.
  assert (Hu : upto_quote s = None).
  { induction s as [|c s IH]; [reflexivity|]. cbn [all_chars] in Hs.
    apply andb_prop in Hs as [Hc Hs]. apply negb_true_iff in Hc.
    cbn [upto_quote]. rewrite Hc, (IH Hs). reflexivity. }
  change (IMAP_TOKEN_match (String dquote s))
    with (or_else (option_map (String dquote) (upto_quote s)) None).
  now rewrite Hu.
Qed.

(** X1. A quote that is never closed ends the parsing of its line: what
    stands before it on the line is kept, the quote and all that
    follows it on that line is dropped, without an error. *)
Theorem unterminated_quote_truncates status vs s :
  forallb writable vs = true ->
  writable (Atom s) = true ->
  _parse_imap (status, text [render_all vs +:+ " " +:+ String dquote s]) =
  Returned (String.eqb (upper status) "OK", vs).
Proof.
  intros Hvs Hs. rewrite parse_imap_run_tokens.
  unfold all_tokens. cbn [map concat]. rewrite app_nil_r.
  unfold render_all.
  rewrite lexes_list; [| apply Forall_forall; intros v _; apply lexes_value
                       | exact Hvs | reflexivity ].
  rewrite line_tokens_app by (apply match_blank; reflexivity).
  assert (Hq : line_tokens (String dquote s) = []).
  { unfold line_tokens. cbn [tokens]. now rewrite no_quote_no_match. }
  rewrite Hq, (runs_list vs); [reflexivity|].
  apply Forall_forall. intros v _. apply runs_value.
Qed.

Lemma unterminated_quote_truncates_witness :
  _parse_imap ("OK", text [render_all [Atom "One"; List [Atom "Two"]]
                           +:+ " " +:+ String dquote "Four (Five)"]) =
  Returned (true, [Atom "One"; List [Atom "Two"]]).
Proof.
  apply (unterminated_quote_truncates "OK" [Atom "One"; List [Atom "Two"]]
           "Four (Five)"); reflexivity.
Defined.

Lemma parse_lines_app l1 l2 st :
  parse_lines (l1 ++ l2) st =
  do st' <- parse_lines l1 st; parse_lines l2 st'.
Proof.
  revert st; induction l1 as [|x l1 IH]; intros st; [reflexivity|].
  destruct x as [|d|h p]; cbn [app parse_lines]; try reflexivity.
  destruct (parse_line (S (String.length d)) d st); cbn [rbind]; auto.
Qed.

(** X2. A reply whose data holds something that is no text line --
    [None], as [imaplib] gives for a command without data, or a
    (header, literal) tuple -- makes the tokenizer raise [TypeError]
    once the text lines before it are read. *)
Theorem parse_imap_non_text_raises status pre x rest :
  closes_matched 0 (all_tokens pre) = true ->
  match x with
  | IStr _ => True
  | _ => _parse_imap (status, (text pre ++ x :: rest)%list) =
         raise TypeError "expected string or buffer"
  end.
Proof.
  intros Hpre.
  pose proof (run_tokens_total (all_tokens pre) (PState [] [])) as H.
  cbn [stack length] in H. rewrite Hpre in H. destruct H as [st Hst].
  destruct x as [|d|h p]; [|exact I|]; unfold _parse_imap; cbn [fst snd];
    rewrite parse_lines_app, parse_lines_run_tokens, Hst; reflexivity.
Qed.

Lemma parse_imap_non_text_raises_witness :
  _parse_imap ("OK", (text ["1 (UID 5)"] ++ [INone])%list) =
  raise TypeError "expected string or buffer".
Proof.
  apply (parse_imap_non_text_raises "OK" ["1 (UID 5)"] INone []).
  reflexivity.
Defined.

Lemma step_prepend q t st st1 :
  step t st = Returned st1 ->
  step t (prepend_bottom q st) = Returned (prepend_bottom q st1).
Proof.
  destruct st as [p stk]. unfold prepend_bottom. cbn [stack pdata].
  destruct t as [|c t]; cbn [step].
  { intros [= <-]. destruct stk; cbn; now rewrite ?app_assoc. }
  destruct (Ascii.eqb c dquote).
  { intros [= <-]. destruct stk; cbn; now rewrite ?app_assoc. }
  destruct (Ascii.eqb c lparen).
  { intros [= <-]. destruct stk; reflexivity. }
  destruct (Ascii.eqb c rparen).
  { destruct stk as [|b [|y r]]; cbn; [discriminate| |];
      intros [= <-]; cbn; now rewrite ?app_assoc. }
  destruct (in_ws_tuple c).
  { intros [= <-]. reflexivity. }
  intros [= <-]. destruct stk; cbn; now rewrite ?app_assoc.
Qed.

Lemma run_tokens_prepend q toks : forall st st1,
  run_tokens toks st = Returned st1 ->
  run_tokens toks (prepend_bottom q st) = Returned (prepend_bottom q st1).
Proof.
  induction toks as [|t toks IH]; intros st st1; cbn [run_tokens].
  { now intros [= <-]. }
  destruct (step t st) as [st'| |] eqn:E; cbn [rbind]; try discriminate.
  intros H. rewrite (step_prepend q t st st' E). cbn [rbind]. now apply IH.
Qed.

Lemma run_tokens_depth toks : forall st d,
  depth_after (length (stack st)) toks = Some d ->
  exists st1, run_tokens toks st = Returned st1 /\ length (stack st1) = d.
Proof.
  induction toks as [|t toks IH]; intros [p stk] d; cbn [depth_after run_tokens].
  { intros [= <-]. eauto. }
  destruct t as [|c t]; cbn [starts_with step].
  { intros H. apply (IH (PState _ stk)), H. }
  destruct (Ascii.eqb c dquote) eqn:Hq.
  { destruct (starts_with_quote_not_paren c Hq) as [-> ->].
    intros H. apply (IH (PState _ stk)), H. }
  destruct (Ascii.eqb c lparen).
  { intros H. apply (IH (PState [] (p :: stk))), H. }
  destruct (Ascii.eqb c rparen).
  { cbn [stack length]. destruct stk as [|b stk]; [discriminate|].
    intros H. apply (IH (PState _ stk)), H. }
  destruct (in_ws_tuple c); intros H; apply (IH (PState _ stk)), H.
Qed.

(** X3. A reply of several lines in which every group is closed on the
    lines it was opened on can be read in pieces: the data of the whole
    is the data of the first lines followed by the data of the rest. *)
Theorem parse_imap_balanced_app status l1 l2 :
  balanced l1 = true -> balanced l2 = true ->
  exists p1 p2,
    _parse_imap (status, text l1) =
      Returned (String.eqb (upper status) "OK", p1)
    /\ _parse_imap (status, text l2) =
       Returned (String.eqb (upper status) "OK", p2)
    /\ _parse_imap (status, text (l1 ++ l2)) =
       Returned (String.eqb (upper status) "OK", (p1 ++ p2)%list).
Proof.
  unfold balanced. intros H1 H2.
  destruct (depth_after 0 (all_tokens l1)) as [[|d1]|] eqn:E1;
    try discriminate.
  destruct (depth_after 0 (all_tokens l2)) as [[|d2]|] eqn:E2;
    try discriminate.
  destruct (run_tokens_depth _ (PState [] []) 0 E1) as ([p1 s1] & R1 & L1).
  destruct (run_tokens_depth _ (PState [] []) 0 E2) as ([p2 s2] & R2 & L2).
  cbn [stack] in L1, L2.
  destruct s1; [|discriminate]. destruct s2; [|discriminate].
  exists p1, p2. rewrite !parse_imap_run_tokens, all_tokens_app,
    run_tokens_app, R1, R2. cbn [rbind pdata].
  repeat split.
  pose proof (run_tokens_prepend p1 _ _ _ R2) as H.
  unfold prepend_bottom in H. cbn [stack pdata] in H.
  rewrite app_nil_r in H. now rewrite H.
Qed.

Lemma parse_imap_balanced_app_witness :
  exists p1 p2,
    _parse_imap ("OK", text ["a (b"; "c)"]) = Returned (true, p1)
    /\ _parse_imap ("OK", text ["(d) e"]) = Returned (true, p2)
    /\ _parse_imap ("OK", text (["a (b"; "c)"] ++ ["(d) e"])) =
       Returned (true, (p1 ++ p2)%list).
Proof.
  apply (parse_imap_balanced_app "OK" ["a (b"; "c)"] ["(d) e"]);
    reflexivity.
Defined.

(** X21. With a group left open, the reply is read as if it started
    after the last parenthesis that is never closed: when the tokens
    that follow an opening parenthesis are those of lines in which
    every group is closed, the tokenizer returns what it returns for
    these lines alone.  What stands before that parenthesis, and the
    enclosing groups, are not in the result. *)
Theorem parse_imap_returns_innermost status lines pre t rest :
  all_tokens lines = (pre ++ t :: all_tokens rest)%list ->
  starts_with lparen t = true ->
  closes_matched 0 pre = true ->
  balanced rest = true ->
  _parse_imap (status, text lines) = _parse_imap (status, text rest).
Proof.
  intros Htoks Ht Hpre Hrest.
  rewrite !parse_imap_run_tokens, Htoks, run_tokens_app.
  pose proof (run_tokens_total pre (PState [] [])) as H.
  cbn [stack length] in H. rewrite Hpre in H. destruct H as [[p1 s1] ->].
  cbn [rbind run_tokens].
  assert (Hstep : step t (PState p1 s1) = Returned (PState [] (p1 :: s1))).
  { destruct t as [|c t']; [discriminate|]. cbn [starts_with] in Ht.
    apply Ascii.eqb_eq in Ht. subst c. reflexivity. }
  rewrite Hstep. cbn [rbind].
  unfold balanced in Hrest.
  destruct (depth_after 0 (all_tokens rest)) as [[|d]|] eqn:E;
    try discriminate.
  destruct (run_tokens_depth _ (PState [] []) 0 E) as ([p s] & Hrun & Hlen).
  cbn [stack] in Hlen. destruct s; [|discriminate].
  pose proof (run_tokens_frame _ [] [] (p1 :: s1) p [] Hrun) as Hf.
  cbn [app] in Hf. rewrite Hf, Hrun. reflexivity.
Qed.

Lemma parse_imap_returns_innermost_witness :
  _parse_imap ("OK", text ["One (Two (Th ree) x"]) =
  Returned (true, [Atom "Two"; List [Atom "Th"; Atom "ree"]; Atom "x"]).
Proof.
  exact (parse_imap_returns_innermost "OK" ["One (Two (Th ree) x"]
           ["One"; " "] "(" ["Two (Th ree) x"]
           eq_refl eq_refl eq_refl eq_refl).
Defined.

Lemma space_not_special c :
  is_space c = true ->
  Ascii.eqb c dquote = false /\ Ascii.eqb c lparen = false
  /\ Ascii.eqb c rparen = false.
Proof.
  intros Hc. repeat split.
  - destruct (Ascii.eqb c dquote) eqn:E; [|reflexivity].
    apply Ascii.eqb_eq in E; subst c; discriminate.
  - destruct (Ascii.eqb c lparen) eqn:E; [|reflexivity].
    apply Ascii.eqb_eq in E; subst c; discriminate.
  - destruct (Ascii.eqb c rparen) eqn:E; [|reflexivity].
    apply Ascii.eqb_eq in E; subst c; discriminate.
Qed.

(** X4. Blanks are not all skipped: a run of blanks that starts with a
    form feed or a vertical tab -- a blank for the pattern, but none of
    the four the loop tests for -- is kept as an atom. *)
Theorem parse_imap_keeps_form_feed status c ws :
  is_space c = true -> in_ws_tuple c = false ->
  all_chars is_space ws = true ->
  _parse_imap (status, text [String c ws]) =
  Returned (String.eqb (upper status) "OK", [Atom (String c ws)]).
Proof.
  intros Hc Hw Hws.
  destruct (space_not_special c Hc) as (Hq & Hl & Hr).
  assert (Hm : IMAP_TOKEN_match (String c ws +:+ "") = Some (String c ws)).
  { assert (Ht : take_while is_space (String c ws +:+ "") = String c ws).
    { apply take_while_app; [cbn [all_chars]; now rewrite Hc|reflexivity]. }
    rewrite append_cons in *.
    unfold IMAP_TOKEN_match, or_else, alt_quoted, alt_paren.
    rewrite Hq, Hl, Hr.
    assert (Ha : alt_plus is_atom_char (String c (ws +:+ "")) = None).
    { unfold alt_plus, is_atom_char. cbn [take_while].
      rewrite Hc, !orb_true_r. reflexivity. }
    rewrite Ha. unfold alt_plus. rewrite Ht. reflexivity. }
  assert (Hlt : line_tokens (String c ws) = [String c ws]).
  { rewrite <- (append_nil_r (String c ws)) at 1.
    now rewrite (line_tokens_app _ _ Hm). }
  rewrite parse_imap_run_tokens. unfold all_tokens. cbn [map concat].
  rewrite app_nil_r, Hlt.
  cbn [run_tokens step]. rewrite Hq, Hl, Hr, Hw. reflexivity.
Qed.

Lemma parse_imap_keeps_form_feed_witness :
  _parse_imap ("OK", text [String (ascii_of_nat 12) " "]) =
  Returned (true, [Atom (String (ascii_of_nat 12) " ")]).
Proof.
  apply (parse_imap_keeps_form_feed "OK" (ascii_of_nat 12) " ");
    reflexivity.
Defined.

End TokenizerMore.

Module SharedConnMore.
Import Tokenizer Imap SharedConnFacts.

Section Transport.

Context {T : Type}.
Variable call : string -> list arg -> kwargs -> T -> result reply * T.

Lemma select_by_hit mailbox readonly (c : SharedImapConn T) :
  _lock c = true ->
  select call mailbox readonly c =
  if hit mailbox readonly c
  then match _selected c with
       | Some (_, rv, _) => (Returned rv, c)
       | None => select_uncached call mailbox readonly c
       end
  else select_uncached call mailbox readonly c.
Proof.
  intros Hl. rewrite (select_locked call _ _ _ Hl). unfold hit.
  destruct (_selected c) as [[[key rv] info]|]; [|reflexivity].
  destruct (decide (key = (mailbox, readonly))) as [E|E].
  - now rewrite bool_decide_eq_true_2.
  - now rewrite bool_decide_eq_false_2.
Qed.

(** X5. Without the lock nothing gets through: a forwarded command, a
    [select] and a [close] on a connection whose lock is not held raise
    [AssertionError] (not turned into an I/O error) and leave the
    connection, its log of transport calls included, as it was. *)
Theorem unlocked_use_asserts (c : SharedImapConn T) method args mailbox kw
    folder readonly :
  _lock c = false ->
  existsb (String.eqb method) proxied = true ->
  forward call method args mailbox kw c = (raise AssertionError "", c)
  /\ select call folder readonly c = (raise AssertionError "", c)
  /\ close call c = (raise AssertionError "", c).
Proof.
  intros Hl Hp. repeat split.
  - unfold forward. rewrite Hp.
    unfold proxy_method, scatch, sbind, assert_locked. now rewrite Hl.
  - unfold select, sbind, assert_locked. now rewrite Hl.
  - unfold close, sbind, assert_locked. now rewrite Hl.
Qed.

(** X6. What the transport raises in a forwarded command comes out as
    [IMAP_IOError], an [IOError], when it is an [IMAP4.error], and
    unchanged otherwise; the connection stays alive and locked, and
    keeps its selection. *)
Theorem forward_converts_errors (c : SharedImapConn T) method args kw t e t' :
  _lock c = true ->
  _conn c = Some t ->
  existsb (String.eqb method) proxied = true ->
  call method args kw t = (Raised e, t') ->
  let out := forward call method args None kw c in
  fst out =
    (if subclass (exn_cls e) IMAP4_error
     then raise IMAP_IOError ("Failed " +:+ method) else Raised e)
  /\ subclass IMAP_IOError IOError = true
  /\ _conn (snd out) = Some t'
  /\ _lock (snd out) = true
  /\ _selected (snd out) = _selected c.
Proof.
  intros Hl Hc Hp Hcall out. subst out. unfold forward. rewrite Hp.
  unfold proxy_method, scatch, sbind, assert_locked, conn_call.
  rewrite Hl, Hc, Hcall.
  destruct (subclass (exn_cls e) IMAP4_error); cbn; auto.
Qed.

Lemma responses_select_count fields : forall info (c : SharedImapConn T),
  select_count (sent (snd (responses call fields info c))) =
  select_count (sent c).
Proof.
  induction fields as [|f fields IH]; intros info c; [reflexivity|].
  cbn [responses]. unfold sbind.
  destruct (conn_call_other call "response" [AStr f] [] c eq_refl)
    as (H1 & _).
  destruct (conn_call call "response" [AStr f] [] c) as [[kv|e|] c1];
    cbn [snd] in *; try exact H1.
  now rewrite IH.
Qed.

(** X7. [select] goes to the server exactly when the pair asked for is
    not the cached one: under the lock, on a live connection, it sends
    one SELECT on a miss and none on a hit; and after [close] every
    pair is a miss. *)
Theorem select_sends_on_miss (c : SharedImapConn T) mailbox readonly :
  _lock c = true ->
  is_Some (_conn c) ->
  select_count (sent (snd (select call mailbox readonly c))) =
    (select_count (sent c) + if hit mailbox readonly c then 0 else 1)%nat
  /\ hit mailbox readonly (snd (close call c)) = false.
Proof.
  intros Hl [t Ht]. split.
  - rewrite (select_by_hit _ _ _ Hl).
    assert (Hmiss :
      select_count (sent (snd (select_uncached call mailbox readonly c))) =
      (select_count (sent c) + 1)%nat).
    { unfold select_uncached, sbind. unfold conn_call at 1. rewrite Ht.
      destruct (call "select" [] (select_kw mailbox readonly) t) as [r t'].
      set (c1 := Conn _ _ _ _ _).
      assert (H1 : select_count (sent c1) = (select_count (sent c) + 1)%nat)
        by (subst c1; cbn [sent]; now rewrite select_count_snoc).
      clearbody c1. destruct r as [rv| |]; [|exact H1..].
      destruct (status_ok rv.1).
      - pose proof (responses_select_count info_fields ∅ c1) as H2.
        destruct (responses call info_fields ∅ c1) as [[info|e|] c2];
          cbn [snd fst set_selected sent sret] in *; congruence.
      - destruct (debug_imap c1); exact H1. }
    unfold hit. destruct (_selected c) as [[[key rv] info]|]; [|exact Hmiss].
    destruct (bool_decide (key = (mailbox, readonly))); [|exact Hmiss].
    cbn [snd]. lia.
  - unfold close, sbind, assert_locked. rewrite Hl. cbn.
    unfold conn_call. cbn [_conn set_selected]. rewrite Ht.
    destruct (call "close" [] [] t). reflexivity.
Qed.

(** X8. A SELECT the server refuses stops the forwarded command that
    asked for it: the command itself is never sent, and the caller gets
    the reply of the SELECT -- or, when IMAP debugging is on, an
    [UnboundLocalError], the debug line of [select] reading [info]
    which only a successful SELECT sets. *)
Theorem refused_select_stops_command (c : SharedImapConn T) method args kw
    mailbox t rv t' :
  _lock c = true ->
  _conn c = Some t ->
  hit mailbox false c = false ->
  existsb (String.eqb method) proxied = true ->
  call "select" [] (select_kw mailbox false) t = (Returned rv, t') ->
  status_ok rv.1 = false ->
  let out := forward call method args (Some mailbox) kw c in
  fst out =
    (if debug_imap c
     then raise UnboundLocalError
            "local variable 'info' referenced before assignment"
     else Returned rv)
  /\ sent (snd out) =
     (sent c ++ [Command "select" [] (select_kw mailbox false)
                   (Returned rv)])%list
  /\ _selected (snd out) = _selected c.
Proof.
  intros Hl Ht Hh Hp Hcall Hno out.
  assert (E : out =
    (if debug_imap c
     then raise UnboundLocalError
            "local variable 'info' referenced before assignment"
     else Returned rv,
     Conn (_lock c) (Some t') (_selected c) (debug_imap c)
       (sent c ++ [Command "select" [] (select_kw mailbox false)
                     (Returned rv)]))).
  { subst out. unfold forward. rewrite Hp. unfold proxy_method, scatch.
    unfold sbind at 1. unfold assert_locked at 1. rewrite Hl.
    unfold sbind. rewrite (select_by_hit _ _ _ Hl), Hh.
    unfold select_uncached, sbind, conn_call. rewrite Ht, Hcall.
    cbn [fst]. rewrite Hno. cbn [debug_imap]. rewrite ?Hl.
    destruct (debug_imap c); [reflexivity|]. cbn. now rewrite Hno. }
  rewrite E. cbn. auto.
Qed.

End Transport.

Lemma select_sends_on_miss_witness :
  let c := Conn true (Some tt) (Some (("INBOX", false), ("OK", []), ∅))
             false [] in
  select_count (sent (snd (select accepting "INBOX" true c))) = 1%nat.
Proof.
  intros c.
  exact (proj1 (select_sends_on_miss accepting c "INBOX" true eq_refl
                  (ex_intro _ tt eq_refl))).
Defined.

Lemma refused_select_stops_command_witness :
  let c := Conn true (Some tt) None true [] in
  fst (forward refusing "noop" [] (Some "INBOX") [] c) =
  raise UnboundLocalError
    "local variable 'info' referenced before assignment".
Proof.
  intros c.
  exact (proj1 (refused_select_stops_command refusing c "noop" [] []
                  "INBOX" tt ("NO", [IStr "no such folder"]) tt
                  eq_refl eq_refl eq_refl eq_refl eq_refl eq_refl)).
Defined.

(** A transport whose every call fails with a protocol error. *)
Lemma forward_converts_errors_witness :
  let failing := fun (m : string) (a : list arg) (k : kwargs) (t : unit) =>
                   (@raise reply IMAP4_error "command illegal in state", t) in
  let c := Conn true (Some tt) None false [] in
  fst (forward failing "noop" [] None [] c) =
  raise IMAP_IOError "Failed noop".
Proof.
  intros failing c.
  exact (proj1 (forward_converts_errors failing c "noop" [] []
                  tt (Exn IMAP4_error "command illegal in state") tt
                  eq_refl eq_refl eq_refl eq_refl)).
Defined.

Lemma unlocked_use_asserts_witness :
  let c := Conn false (Some tt) None false [] in
  forward accepting "noop" [] (Some "INBOX") [] c = (raise AssertionError "", c).
Proof.
  intros c.
  exact (proj1 (unlocked_use_asserts accepting c "noop" [] (Some "INBOX") []
                  "INBOX" false eq_refl eq_refl)).
Defined.

End SharedConnMore.

Module MailSourceMore.
Import Tokenizer Imap MailSource.

Section Transport.

Context {T : Type}.
Variable call : string -> list arg -> kwargs -> T -> result reply * T.
Variables IMAP4 IMAP4_SSL : string -> Z -> result T.

(** Once the connection at hand is found unusable, [open] goes on as if
    there had been none. *)
Lemma open_after_check conn_cls throw (src : ImapMailSource T) :
  check_existing call src = (Returned false, set_source_conn None src) ->
  _unlocked_open call IMAP4 IMAP4_SSL conn_cls throw src =
  _unlocked_open call IMAP4 IMAP4_SSL conn_cls throw
    (set_source_conn None src).
Proof.
  intros H. unfold _unlocked_open. rewrite H. reflexivity.
Qed.

(** X9. A shared connection that was quit is recycled: [open] on a
    source holding a dead connection does what it does on a source
    holding none, whatever the transport. *)
Theorem open_recycles_dead conn_cls throw (src : ImapMailSource T) c :
  conn src = Some c ->
  _conn c = None ->
  check_existing call src = (Returned false, set_source_conn None src)
  /\ _unlocked_open call IMAP4 IMAP4_SSL conn_cls throw src =
     _unlocked_open call IMAP4 IMAP4_SSL conn_cls throw
       (set_source_conn None src).
Proof.
  intros Hc Hd.
  assert (H : check_existing call src =
              (Returned false, set_source_conn None src)).
  { unfold check_existing, conn_enter. now rewrite Hc, Hd. }
  split; [exact H|now apply open_after_check].
Qed.

(** X10. With a live, unlocked connection at hand, [open] sends one NOOP
    through it.  If the status of the reply is [OK], letter for letter,
    [open] returns that connection, unlocked again, its selection kept,
    without building a transport; if it is anything else (also [ok] in
    lower case), the connection is dropped and [open] goes on as if
    there had been none. *)
Theorem open_checks_with_noop conn_cls throw (src : ImapMailSource T)
    c t rv t' :
  conn src = Some c ->
  _conn c = Some t ->
  _lock c = false ->
  call "noop" [] [] t = (Returned rv, t') ->
  _unlocked_open call IMAP4 IMAP4_SSL conn_cls throw src =
  if String.eqb (fst rv) "OK"
  then (Returned TheConn, default ∅ (event src),
        set_source_conn
          (Some (Conn false (Some t') (_selected c) (debug_imap c)
                   (sent c ++ [Command "noop" [] [] (Returned rv)])))
          src)
  else _unlocked_open call IMAP4 IMAP4_SSL conn_cls throw
         (set_source_conn None src).
Proof.
  intros Hc Ht Hl Hcall.
  assert (H : check_existing call src =
    if String.eqb (fst rv) "OK"
    then (Returned true,
          set_source_conn
            (Some (Conn false (Some t') (_selected c) (debug_imap c)
                     (sent c ++ [Command "noop" [] [] (Returned rv)])))
            src)
    else (Returned false, set_source_conn None src)).
  { unfold check_existing, conn_enter. rewrite Hc, Ht, Hl.
    unfold proxy_method, scatch, sbind, assert_locked, conn_call.
    cbn [set_lock _lock _conn]. rewrite Ht, Hcall. cbn.
    destruct (String.eqb (fst rv) "OK"); reflexivity. }
  destruct (String.eqb (fst rv) "OK") eqn:E.
  - unfold _unlocked_open. rewrite H. reflexivity.
  - now apply open_after_check.
Qed.

(** X11. When the transport cannot be built, [open] classifies the
    error: a timeout, a protocol error or a network error is recorded
    in [conn_error] with its message, and [open] returns a false
    [WithaBool], or raises the [throw] class with that message; any
    other exception goes through as it is, [conn_error] staying
    cleared.  No connection is kept. *)
Theorem open_classifies_failure factory throw (src : ImapMailSource T) e :
  conn src = None ->
  factory (host (my_config src)) (port (my_config src)) = Raised e ->
  let r := _unlocked_open call IMAP4 IMAP4_SSL (Some factory) throw src in
  r.1.1 =
    match conn_error_for e with
    | Some msg =>
        match throw with
        | Some cls => raise cls msg
        | None => Returned (WithaBool false)
        end
    | None => Raised e
    end
  /\ r.1.2 !! "conn_error" = DStr <$> conn_error_for e
  /\ conn r.2 = None.
Proof.
  intros Hc Hf r.
  set (ev0 := delete "conn_error" (default ∅ (event src))).
  assert (E : r =
    match conn_error_for e with
    | Some msg =>
        (match throw with
         | Some cls => raise cls msg
         | None => Returned (WithaBool false)
         end,
         <["conn_error" := DStr msg]> ev0,
         store_event (<["conn_error" := DStr msg]> ev0)
           (set_source_conn None src))
    | None => (Raised e, ev0, store_event ev0 (set_source_conn None src))
    end).
  { subst r. unfold _unlocked_open, check_existing.
    rewrite Hc. unfold connect, timed. cbn [my_config set_source_conn].
    rewrite Hf. fold ev0.
    destruct (conn_error_for e) as [msg|]; [|reflexivity].
    cbn [teardown]. destruct throw; reflexivity. }
  rewrite E. clear E.
  assert (Hconn : forall ev, conn (store_event ev (set_source_conn None src))
                             = None).
  { intros ev. unfold store_event. cbn. destruct (event src); reflexivity. }
  destruct (conn_error_for e) as [msg|]; cbn [fst snd fmap option_fmap option_map].
  - split; [reflexivity|]. split; [apply lookup_insert_eq|apply Hconn].
  - split; [reflexivity|]. split; [apply lookup_delete_eq|apply Hconn].
Qed.

(** X12. A login the server refuses ends [open] at once: the error is
    recorded as a bad username or password, no connection is kept, and
    [open] returns a false [WithaBool] -- or raises the [throw] class
    with that message when none of the function's handlers takes that
    class. *)
Theorem open_refused_login factory throw (src : ImapMailSource T)
    t0 rv t1 d :
  conn src = None ->
  factory (host (my_config src)) (port (my_config src)) = Returned t0 ->
  call "login" [AStr (username (my_config src));
                AStr (password (my_config src))] [] t0 = (Returned rv, t1) ->
  _parse_imap rv = Returned (false, d) ->
  match throw with
  | Some cls => conn_error_for (Exn cls "Bad username or password") = None
  | None => True
  end ->
  let r := _unlocked_open call IMAP4 IMAP4_SSL (Some factory) throw src in
  r.1.1 =
    match throw with
    | Some cls => raise cls "Bad username or password"
    | None => Returned (WithaBool false)
    end
  /\ r.1.2 !! "conn_error" = Some (DStr "Bad username or password")
  /\ conn r.2 = None.
Proof.
  intros Hc Hf Hlogin Hparse Hthrow r.
  set (ev1 := <["conn_error" := DStr "Bad username or password"]>
                (delete "conn_error" (default ∅ (event src)))).
  assert (E : r =
    (match throw with
     | Some cls => raise cls "Bad username or password"
     | None => Returned (WithaBool false)
     end, ev1, store_event ev1 (set_source_conn None src))).
  { subst r. unfold _unlocked_open, check_existing.
    rewrite Hc. unfold connect, timed, timed_imap, timed.
    cbn [my_config set_source_conn]. rewrite Hf, Hlogin.
    cbn [rbind]. rewrite Hparse. fold ev1.
    destruct throw as [cls|]; [|reflexivity].
    unfold raise. rewrite Hthrow. reflexivity. }
  rewrite E. cbn [fst snd]. split; [reflexivity|].
  split; [apply lookup_insert_eq|].
  unfold store_event. cbn. destruct (event src); reflexivity.
Qed.

(** X13. When the login is accepted [open] succeeds whatever becomes of
    the capability question, as long as its reply can be read: the
    capabilities are the upper-cased words of an OK reply and empty
    otherwise; the new shared connection is unlocked, without a
    selection and with an empty log; an earlier [conn_error] is gone
    from the event, whose [uidvalidity] and [uidnext] maps exist, the
    ones it had before being kept. *)
Theorem open_succeeds factory throw (src : ImapMailSource T)
    t0 rv1 t1 d1 rv2 t2 ok data joined :
  conn src = None ->
  factory (host (my_config src)) (port (my_config src)) = Returned t0 ->
  call "login" [AStr (username (my_config src));
                AStr (password (my_config src))] [] t0 = (Returned rv1, t1) ->
  _parse_imap rv1 = Returned (true, d1) ->
  call "capability" [] [] t1 = (Returned rv2, t2) ->
  _parse_imap rv2 = Returned (ok, data) ->
  (if ok then join_atoms data else Returned EmptyString) = Returned joined ->
  let r := _unlocked_open call IMAP4 IMAP4_SSL (Some factory) throw src in
  r.1.1 = Returned TheConn
  /\ capabilities r.2 =
     (if ok then list_to_set (words (upper joined)) else ∅)
  /\ conn r.2 = Some (Conn false (Some t2) None (debug src) [])
  /\ r.1.2 !! "conn_error" = None
  /\ is_Some (r.1.2 !! "uidvalidity") /\ is_Some (r.1.2 !! "uidnext")
  /\ (forall ev k v,
        event src = Some ev -> k <> "conn_error" -> ev !! k = Some v ->
        r.1.2 !! k = Some v).
Proof.
  intros Hc Hf Hlogin Hp1 Hcap Hp2 Hjoin r.
  set (ev0 := delete "conn_error" (default ∅ (event src))).
  set (ensure := fun (d : string) (e : Event) =>
                   match e !! d with
                   | Some _ => e
                   | None => <[d := DDict ∅]> e
                   end).
  set (ev2 := ensure "uidnext" (ensure "uidvalidity" ev0)).
  assert (E : r =
    (Returned TheConn, ev2,
     store_event ev2
       (set_source_conn (Some (new_conn (debug src) t2))
          (set_capabilities
             (if ok then list_to_set (words (upper joined)) else ∅)
             (set_source_conn None src))))).
  { subst r. unfold _unlocked_open, check_existing.
    rewrite Hc. unfold connect, timed, timed_imap, timed.
    cbn [my_config set_source_conn]. rewrite Hf, Hlogin.
    cbn [rbind]. rewrite Hp1, Hcap. cbn [rbind]. rewrite Hp2, Hjoin.
    reflexivity. }
  rewrite E. cbn [fst snd]. clear E r.
  assert (Hens : forall d (e : Event) k,
             ensure d e !! k =
             match e !! k with
             | Some v => Some v
             | None => if decide (d = k) then Some (DDict ∅) else None
             end).
  { intros d e k. unfold ensure. destruct (e !! d) eqn:Ed.
    - destruct (e !! k) eqn:Ek; [reflexivity|].
      destruct (decide (d = k)); [congruence|reflexivity].
    - destruct (decide (d = k)) as [->|Hne].
      + rewrite Ed. apply lookup_insert_eq.
      + transitivity (e !! k); [apply lookup_insert_ne; exact Hne|].
        destruct (e !! k); [reflexivity|].
        destruct (decide (d = k)); [contradiction|reflexivity]. }
  split; [reflexivity|].
  split; [unfold store_event; cbn; destruct (event src); reflexivity|].
  split; [unfold store_event, new_conn; cbn; destruct (event src);
          reflexivity|].
  assert (H0 : ev0 !! "conn_error" = None) by apply lookup_delete_eq.
  split.
  { subst ev2. rewrite !Hens, H0. reflexivity. }
  split.
  { subst ev2. rewrite !Hens. destruct (ev0 !! "uidvalidity"); cbn; eauto. }
  split.
  { subst ev2. rewrite !Hens. destruct (ev0 !! "uidnext"); cbn; eauto. }
  intros ev k v Hev Hk Hv. subst ev2. rewrite !Hens.
  assert (H : ev0 !! k = Some v).
  { subst ev0. rewrite Hev. cbn [default].
    transitivity (ev !! k); [|exact Hv].
    apply lookup_delete_ne. congruence. }
  now rewrite H.
Qed.

End Transport.

Lemma open_refused_login_witness :
  let r := _unlocked_open mock_call NoDns NoDns (Some BadLogin) None
             fresh_source in
  r.1.1 = Returned (WithaBool false).
Proof.
  intros r.
  assert (Ht : BadLogin "imap.gmail.com" 993 = Returned (_ : MockImap))
    by reflexivity.
  exact (proj1 (open_refused_login mock_call NoDns NoDns BadLogin None
                  fresh_source _ _ _ _ eq_refl Ht eq_refl eq_refl I)).
Defined.

(** The capabilities of the mock, as the docstring of [_MockImap] has
    them. *)
Lemma open_succeeds_witness :
  let r := _unlocked_open mock_call NoDns NoDns (Some (mock_new ∅)) None
             fresh_source in
  r.1.1 = Returned TheConn
  /\ capabilities r.2 = {["X-MAGIC-BEANS"; "IMAP4REV1"]}.
Proof.
  intros r.
  assert (Ht : mock_new ∅ "imap.gmail.com" 993 = Returned (_ : MockImap))
    by reflexivity.
  destruct (open_succeeds mock_call NoDns NoDns (mock_new ∅) None
              fresh_source _ _ _ _ _ _ true _ "X-MAGIC-BEANS IMAP4rev1"
              eq_refl Ht eq_refl eq_refl eq_refl eq_refl eq_refl)
    as (H1 & H2 & _).
  split; [exact H1|]. etransitivity; [exact H2|]. vm_compute. reflexivity.
Defined.

Lemma open_recycles_dead_witness :
  let src := Source imap_config 15 ∅
               (Some (conn_quit (new_conn false (∅ : MockImap)))) None false in
  _unlocked_open mock_call NoDns NoDns (Some (mock_new ∅)) None src =
  _unlocked_open mock_call NoDns NoDns (Some (mock_new ∅)) None
    (set_source_conn None src).
Proof.
  intros src.
  exact (proj2 (open_recycles_dead mock_call NoDns NoDns (Some (mock_new ∅))
                  None src _ eq_refl eq_refl)).
Defined.

Lemma open_checks_with_noop_witness :
  let t : MockImap := DEFAULT_RESULTS in
  let src := Source imap_config 15 ∅ (Some (new_conn false t)) None false in
  (_unlocked_open mock_call NoDns NoDns None None src).1.1 = Returned TheConn.
Proof.
  intros t src.
  rewrite (open_checks_with_noop mock_call NoDns NoDns None None src
             (new_conn false t) t ("OK", []) t eq_refl eq_refl eq_refl
             eq_refl).
  reflexivity.
Defined.

Lemma open_classifies_failure_witness :
  let r := _unlocked_open mock_call NoDns NoDns (Some NoDns) None
             fresh_source in
  r.1.1 = Returned (WithaBool false)
  /\ r.1.2 !! "conn_error" = Some (DStr "A network error occurred").
Proof.
  intros r.
  destruct (open_classifies_failure mock_call NoDns NoDns NoDns None
              fresh_source (Exn socket_error "Oops") eq_refl eq_refl)
    as (H1 & H2 & _).
  split; [exact H1|exact H2].
Defined.

(** The cut of [split('/', 1)] is at the first separator. *)
Lemma split_once_first sep pre rest :
  all_chars (fun c => negb (Ascii.eqb c sep)) pre = true ->
  split_once sep (pre +:+ String sep rest) = [pre; rest].
Proof.
  induction pre as [|c pre IH]; intros H.
  - rewrite TokenizerFacts.append_nil. cbn [split_once].
    now rewrite Ascii.eqb_refl.
  - cbn [all_chars] in H. apply andb_prop in H as [Hc Hpre].
    rewrite TokenizerFacts.append_cons. cbn [split_once].
    apply negb_true_iff in Hc. rewrite Hc, (IH Hpre). reflexivity.
Qed.

Lemma split_once_none sep s :
  all_chars (fun c => negb (Ascii.eqb c sep)) s = true ->
  split_once sep s = [s].
Proof.
  induction s as [|c s IH]; intros H; [reflexivity|].
  cbn [all_chars] in H. apply andb_prop in H as [Hc Hs].
  cbn [split_once]. apply negb_true_iff in Hc.
  rewrite Hc, (IH Hs). reflexivity.
Qed.

(** X19. The paths [_fmt_path] makes open the folder they were made
    for: when the key of the source's configuration has no slash,
    [open_mailbox] on [_fmt_path] of a folder path gives the mailbox of
    that very path, slashes in it included.  A name without any slash
    is a [ValueError]. *)
Theorem open_mailbox_fmt_path key path :
  all_chars (fun c => negb (Ascii.eqb c "/")) key = true ->
  open_mailbox true (_fmt_path key path) = Returned (Some path)
  /\ open_mailbox true ("src:" +:+ key) =
     raise ValueError "need more than 1 value to unpack".
Proof.
  intros H.
  assert (Hp : all_chars (fun c => negb (Ascii.eqb c "/")) ("src:" +:+ key)
               = true).
  { rewrite !TokenizerFacts.append_cons, TokenizerFacts.append_nil.
    cbn [all_chars]. rewrite H. reflexivity. }
  split.
  - unfold open_mailbox, _fmt_path.
    replace ("src:" +:+ key +:+ "/" +:+ path)
      with (("src:" +:+ key) +:+ String "/" path).
    + now rewrite (split_once_first "/" _ path Hp).
    + rewrite !TokenizerFacts.append_cons, !TokenizerFacts.append_nil.
      reflexivity.
  - unfold open_mailbox. now rewrite (split_once_none "/" _ Hp).
Qed.

Lemma open_mailbox_fmt_path_witness :
  open_mailbox true (_fmt_path "imap-0" "Lists/rocq") =
  Returned (Some "Lists/rocq").
Proof.
  exact (proj1 (open_mailbox_fmt_path "imap-0" "Lists/rocq" eq_refl)).
Defined.

End MailSourceMore.

Module MailboxMore.
Import Tokenizer Imap PyNum MailSource Mailbox.

Section Transport.

Context {T : Type}.
Variable call : string -> list arg -> kwargs -> T -> result reply * T.
Variables IMAP4 IMAP4_SSL : string -> Z -> result T.
Variable path : string.
Variable conn_cls : option (string -> Z -> result T).

(** The outcome of a [with] block that gets no connection is that of
    [open]. *)
Lemma with_imap_open_raises {A} (body : SR (SharedImapConn T) A)
    (src : ImapMailSource T) e :
  fst (fst (open call IMAP4 IMAP4_SSL conn_cls (Some IMAP_IOError) src)) =
    Raised e ->
  fst (with_imap call IMAP4 IMAP4_SSL conn_cls body src) = Raised e.
Proof.
  unfold with_imap.
  destruct (open call IMAP4 IMAP4_SSL conn_cls (Some IMAP_IOError) src)
    as [[[o|e'|] ev] src1]; cbn; try discriminate.
  now intros [= ->].
Qed.

(** X14. Whatever the server sends, the dict [get_info] returns has
    under [UIDVALIDITY] and [UID] the two integers the key stands for
    in base 36: [get_info] returns only for a key of that form, and what
    the server sent under these names is replaced. *)
Theorem get_info_keeps_key key (src src' : ImapMailSource T) info :
  get_info call IMAP4 IMAP4_SSL path conn_cls key src = (Returned info, src') ->
  exists uidv uid,
    parse_key key = Returned (uidv, uid)
    /\ info !! "UIDVALIDITY" = Some (VInt uidv)
    /\ info !! "UID" = Some (VInt uid).
Proof.
  intros H. unfold get_info in H.
  apply (MailboxFacts.with_imap_returns call IMAP4 IMAP4_SSL conn_cls)
    in H as (c & c' & E).
  unfold sbind, slift in E.
  destruct (parse_key key) as [[uidv uid]|e|]; try discriminate.
  exists uidv, uid. split; [reflexivity|].
  cbn [fst snd] in E.
  repeat match type of E with
         | context [match ?x with _ => _ end] =>
             destruct x eqn:?; try discriminate
         | context [if ?x then _ else _] =>
             destruct x eqn:?; try discriminate
         end.
  unfold sret in E. injection E as <- _.
  assert (H1 : forall (d : gmap string info_val),
             <["UID" := VInt uid]> (<["UIDVALIDITY" := VInt uidv]> d)
               !! "UIDVALIDITY" = Some (VInt uidv)).
  { intros d. rewrite lookup_insert_ne by discriminate.
    apply lookup_insert_eq. }
  assert (H2 : forall (d : gmap string info_val),
             <["UID" := VInt uid]> (<["UIDVALIDITY" := VInt uidv]> d)
               !! "UID" = Some (VInt uid)).
  { intros d. apply lookup_insert_eq. }
  split; [apply H1|apply H2].
Qed.

(** The chunks before chunk [j] are served, the fetch of chunk [j] is
    answered with a status that is not [OK]. *)
Lemma fetch_chunks_fails uid cs j :
  (forall t k, (0 <= k < j)%Z ->
     exists data p t',
       call "uid" [AStr "FETCH"; uid;
                   AStr (body_request (k * cs) cs)] [] t =
       (Returned ("OK", data), t')
       /\ first_payload data = Returned p) ->
  (forall t, exists typ data t',
     call "uid" [AStr "FETCH"; uid;
                 AStr (body_request (j * cs) cs)] [] t =
     (Returned (typ, data), t')
     /\ String.eqb typ "OK" = false) ->
  forall m i rest acc (c : SharedImapConn T),
    ready path c ->
    Z.of_nat (i + m) = j ->
    exists c',
      fetch_chunks call path uid cs
        (map Z.of_nat (seq i m) ++ j :: rest)%list acc c =
      (raise IMAP_IOError ("Fetching chunk " +:+ str_of_int j +:+ " failed"),
       c')
      /\ ready path c'
      /\ body_fetch_count (sent c') = (body_fetch_count (sent c) + m + 1)%nat.
Proof.
  intros Hserve Hfail. induction m as [|m IH]; intros i rest acc c Hr Hi.
  - cbn [seq map app fetch_chunks].
    pose proof Hr as (Hl & [t Ht] & rv & info & Hs & Hok).
    destruct (Hfail t) as (typ & data & t' & Hcall & Htyp).
    unfold sbind at 1.
    rewrite (MailboxFacts.forward_uid_ready call path c _ t _ t' Hr Ht Hcall).
    unfold timed. cbn [fst snd]. unfold sbind at 1.
    rewrite Htyp. cbn [_assert sraise].
    eexists. split; [reflexivity|]. split.
    + split; [reflexivity|]. split; [cbn; eauto|].
      exists rv, info. cbn. auto.
    + cbn [sent].
      rewrite MailboxFacts.body_fetch_count_snoc,
        MailboxFacts.is_body_fetch_request. lia.
  - cbn [seq map app fetch_chunks].
    pose proof Hr as (Hl & [t Ht] & rv & info & Hs & Hok).
    destruct (Hserve t (Z.of_nat i) ltac:(lia))
      as (data & p & t' & Hcall & Hp).
    unfold sbind at 1.
    rewrite (MailboxFacts.forward_uid_ready call path c _ t _ t' Hr Ht Hcall).
    unfold timed. cbn [fst snd].
    unfold sbind at 1. cbn [_assert String.eqb Ascii.eqb Bool.eqb sret].
    unfold sbind at 1. unfold slift at 1. rewrite Hp.
    set (c1 := Conn _ _ _ _ _).
    assert (Hr1 : ready path c1).
    { subst c1. split; [reflexivity|]. split; [cbn; eauto|].
      exists rv, info. cbn. auto. }
    destruct (IH (S i) rest (acc ++ [p])%list c1 Hr1 ltac:(lia))
      as (c' & E & Hr' & Hn).
    exists c'. rewrite E. split; [reflexivity|]. split; [exact Hr'|].
    rewrite Hn. subst c1. cbn [sent].
    rewrite MailboxFacts.body_fetch_count_snoc,
      MailboxFacts.is_body_fetch_request. lia.
Qed.

(** X15. A chunk that fails ends the download: when the fetches of the
    chunks before chunk [j] are answered with [OK] and that of chunk [j]
    with any other status ([OK] is compared letter for letter), the
    body of [get] raises [IMAP_IOError] naming chunk [j] after exactly
    [j + 1] partial fetches; what was fetched is dropped, the chunks
    after [j] are not asked for, and the connection stays usable. *)
Theorem get_body_chunk_failure (uid : arg) (s t j : Z)
    (c : SharedImapConn T) :
  let chunk_size := (t * 1024)%Z in
  (0 < t)%Z ->
  (0 <= j <= s / chunk_size)%Z ->
  ready path c ->
  (forall tr k, (0 <= k < j)%Z ->
     exists data p tr',
       call "uid" [AStr "FETCH"; uid;
                   AStr (body_request (k * chunk_size) chunk_size)] [] tr =
       (Returned ("OK", data), tr')
       /\ first_payload data = Returned p) ->
  (forall tr, exists typ data tr',
     call "uid" [AStr "FETCH"; uid;
                 AStr (body_request (j * chunk_size) chunk_size)] [] tr =
     (Returned (typ, data), tr')
     /\ String.eqb typ "OK" = false) ->
  exists c',
    get_body call path uid s t c =
      (raise IMAP_IOError ("Fetching chunk " +:+ str_of_int j +:+ " failed"),
       c')
    /\ ready path c'
    /\ Z.of_nat (body_fetch_count (sent c')) =
       (Z.of_nat (body_fetch_count (sent c)) + j + 1)%Z.
Proof.
  intros cs Ht Hj Hr Hserve Hfail.
  assert (Hcs : (0 < cs)%Z) by (subst cs; lia).
  unfold get_body. fold cs.
  replace (cs =? 0)%Z with false by (symmetry; apply Z.eqb_neq; lia).
  unfold range0.
  assert (Hsplit : map Z.of_nat (seq 0 (Z.to_nat (1 + s / cs))) =
                   (map Z.of_nat (seq 0 (Z.to_nat j)) ++
                    j :: map Z.of_nat
                           (seq (S (Z.to_nat j))
                              (Z.to_nat (s / cs) - Z.to_nat j)))%list).
  { replace (Z.to_nat (1 + s / cs))
      with (Z.to_nat j + S (Z.to_nat (s / cs) - Z.to_nat j))%nat by lia.
    rewrite seq_app, map_app. cbn [seq map Nat.add].
    rewrite Z2Nat.id by lia. reflexivity. }
  rewrite Hsplit.
  destruct (fetch_chunks_fails uid cs j Hserve Hfail (Z.to_nat j) 0%nat
              (map Z.of_nat (seq (S (Z.to_nat j))
                               (Z.to_nat (s / cs) - Z.to_nat j)))
              [] c Hr ltac:(lia)) as (c' & E & Hr' & Hn).
  exists c'. unfold sbind. rewrite E.
  split; [reflexivity|]. split; [exact Hr'|]. rewrite Hn. lia.
Qed.

(** X16. A timeout that is not positive breaks the download without a
    word to the server: with timeout 0 the body of [get] raises
    [ZeroDivisionError]; with a negative timeout and a message that has
    bytes, the range of chunks is empty and the body of [get] returns
    the empty string.  In both cases nothing is sent. *)
Theorem get_body_nonpositive_timeout (uid : arg) (s t : Z)
    (c : SharedImapConn T) :
  (t <= 0)%Z ->
  (0 < s)%Z ->
  get_body call path uid s t c =
  (if (t =? 0)%Z
   then raise ZeroDivisionError "integer division or modulo by zero"
   else Returned EmptyString, c).
Proof.
  intros Ht Hs. unfold get_body.
  destruct (Z.eqb_spec t 0) as [->|Hne]; [reflexivity|].
  replace (t * 1024 =? 0)%Z with false by (symmetry; apply Z.eqb_neq; lia).
  assert (Hq : (s / (t * 1024) < 0)%Z).
  { pose proof (Z.mod_neg_bound s (t * 1024) ltac:(lia)) as Hm.
    pose proof (Z.div_mod s (t * 1024) ltac:(lia)) as Hd.
    nia. }
  unfold range0. replace (Z.to_nat (1 + s / (t * 1024))) with 0%nat by lia.
  reflexivity.
Qed.

(** X17. [__len__] does not look at the outcome of its NOOP.  When the
    folder of the mailbox cannot be selected (the SELECT is answered
    with a status other than OK) while another folder is the cached
    selection, no NOOP is sent and [__len__] gives the EXISTS count of
    that other folder, or ['0'] if it has none. *)
Theorem len_of_stale_selection (src : ImapMailSource T)
    c t rv0 t1 key rvs info rv2 t2 p :
  conn src = Some c ->
  _conn c = Some t ->
  _lock c = false ->
  debug_imap c = false ->
  call "noop" [] [] t = (Returned rv0, t1) ->
  fst rv0 = "OK" ->
  _selected c = Some (key, rvs, info) ->
  key <> (path, false) ->
  call "select" [] (select_kw path false) t1 = (Returned rv2, t2) ->
  status_ok (fst rv2) = false ->
  _parse_imap rv2 = Returned p ->
  let r := __len__ call IMAP4 IMAP4_SSL path conn_cls src in
  fst r = first (default [IStr "0"] (info !! "EXISTS"))
  /\ exists c', conn (snd r) = Some c'
       /\ _lock c' = false
       /\ _selected c' = Some (key, rvs, info)
       /\ sent c' = (sent c ++
                      [Command "noop" [] [] (Returned rv0);
                       Command "select" [] (select_kw path false)
                         (Returned rv2)])%list.
Proof.
  intros Hc Ht Hl Hd Hnoop Hok Hsel Hkey Hselect Hbad Hp r. subst r.
  unfold __len__.
  match goal with
  | |- context [with_imap _ _ _ _ ?b _] => set (body := b)
  end.
  rewrite (MailboxFacts.with_imap_live call IMAP4 IMAP4_SSL conn_cls body
             src c t rv0 t1 Hc Ht Hl Hnoop Hok).
  cbn zeta.
  set (c1 := Conn true (Some t1) (_selected c) (debug_imap c) _).
  set (c2 := Conn true (Some t2) (_selected c) (debug_imap c)
               (sent c1 ++ [Command "select" [] (select_kw path false)
                              (Returned rv2)])).
  assert (E : forward call "noop" [] (Some path) [] c1 = (Returned rv2, c2)).
  { unfold forward.
    cbn [existsb proxied String.eqb Ascii.eqb Bool.eqb orb].
    unfold proxy_method, scatch, sbind, assert_locked, select.
    cbn [_lock c1]. unfold sbind, assert_locked. subst c1.
    cbn [_lock _selected]. rewrite Hsel.
    destruct (decide (key = (path, false))) as [Heq|_]; [contradiction|].
    unfold select_uncached, sbind, conn_call.
    cbn [_conn _lock _selected debug_imap sent]. rewrite Hselect.
    cbn [fst snd]. rewrite Hbad. cbn [debug_imap]. rewrite Hd.
    cbn [fst negb]. rewrite Hbad. cbn [negb sret].
    subst c2. cbn [sent]. rewrite Hsel, Hd. reflexivity. }
  assert (Eb : body c1 =
               (first (default [IStr "0"] (info !! "EXISTS")), c2)).
  { subst body. unfold sbind at 1. rewrite E.
    unfold sbind at 1. unfold parsed, slift, timed_imap, timed.
    cbn [rbind]. rewrite Hp.
    unfold sbind, mailbox_info. subst c2. cbn [_selected]. rewrite Hsel.
    destruct (info !! "EXISTS"); reflexivity. }
  rewrite Eb. cbn [fst snd conn set_source_conn].
  split; [reflexivity|].
  eexists. split; [reflexivity|].
  subst c2 c1. unfold conn_exit, set_lock.
  cbn [_lock _selected sent _conn debug_imap].
  rewrite Hsel, <- app_assoc. auto.
Qed.

(** An exception none of the handlers of [open] takes is none that
    [__nonzero__] takes. *)
Lemma unclassified_not_caught e :
  conn_error_for e = None -> caught_by e [IOError; AttributeError] = false.
Proof.
  destruct e as [cls msg]. destruct cls; vm_compute; congruence.
Qed.

(** X18. A mailbox whose server cannot be reached is false, it does not
    raise: when building the transport fails with a timeout, a protocol
    error or a network error, [open] raises [IMAP_IOError] and
    [__nonzero__] turns it into [False].  An exception of another kind
    goes through [__nonzero__] as it is. *)
Theorem nonzero_unreachable factory (src : ImapMailSource T) e :
  conn src = None ->
  factory (host (my_config src)) (port (my_config src)) = Raised e ->
  fst (__nonzero__ call IMAP4 IMAP4_SSL path (Some factory) src) =
  match conn_error_for e with
  | Some _ => Returned false
  | None => Raised e
  end.
Proof.
  intros Hc Hf.
  unfold __nonzero__, scatch, with_imap, open, _unlocked_open,
    check_existing.
  rewrite Hc. unfold connect, timed. cbn [my_config set_source_conn].
  rewrite Hf.
  destruct (conn_error_for e) as [msg|] eqn:E.
  - reflexivity.
  - cbn [fst]. rewrite (unclassified_not_caught e E). reflexivity.
Qed.

(** X20. [key in mailbox] is not always a yes or a no.  On a live
    connection that has the folder selected, a FETCH the server refuses
    makes [__contains__] return [False]; but when the FETCH is accepted
    and the UIDVALIDITY of the key is not among the folder's,
    [__contains__] raises [IMAP_IOError] (mailbox out of sync) instead
    of answering. *)
Theorem contains_refused_or_out_of_sync key (src : ImapMailSource T)
    c t rv0 t1 rvs info uidv uid rv t2 ok data :
  conn src = Some c ->
  _conn c = Some t ->
  _lock c = false ->
  call "noop" [] [] t = (Returned rv0, t1) ->
  fst rv0 = "OK" ->
  _selected c = Some ((path, false), rvs, info) ->
  status_ok (fst rvs) = true ->
  parse_key key = Returned (uidv, uid) ->
  call "uid" [AStr "FETCH"; AInt uid; AStr "(RFC822.SIZE FLAGS ENVELOPE)"]
    [] t1 = (Returned rv, t2) ->
  _parse_imap rv = Returned (ok, data) ->
  str_in (str_of_int uidv)
    (Some (default [IStr "0"] (info !! "UIDVALIDITY"))) = Returned false ->
  fst (__contains__ call IMAP4 IMAP4_SSL path conn_cls key src) =
  if ok then raise IMAP_IOError "Mailbox is out of sync"
  else Returned false.
Proof.
  intros Hc Ht Hl Hnoop Hok Hsel Hrvs Hkey Hfetch Hp Hsync.
  unfold __contains__, scatch, sbind, get_info.
  match goal with
  | |- context [with_imap _ _ _ _ ?b _] => set (body := b)
  end.
  rewrite (MailboxFacts.with_imap_live call IMAP4 IMAP4_SSL conn_cls body
             src c t rv0 t1 Hc Ht Hl Hnoop Hok).
  cbn zeta.
  set (c1 := Conn true (Some t1) (_selected c) (debug_imap c) _).
  assert (Hr : ready path c1).
  { split; [reflexivity|]. split; [cbn; eauto|].
    exists rvs, info. cbn. auto. }
  assert (Eb : fst (body c1) =
               if ok then raise IMAP_IOError "Mailbox is out of sync"
               else raise KeyError "").
  { subst body. unfold sbind at 1. unfold slift at 1. rewrite Hkey.
    unfold sbind at 1. cbn [fst snd].
    rewrite (MailboxFacts.forward_uid_ready call path c1 _ t1 _ t2 Hr
               eq_refl Hfetch).
    unfold sbind at 1. unfold parsed, slift, timed_imap, timed.
    cbn [rbind]. rewrite Hp. cbn [fst snd negb].
    destruct ok; [|reflexivity].
    cbn [negb]. unfold sbind, mailbox_info. cbn [_selected c1].
    subst c1. cbn [_selected]. rewrite Hsel.
    replace (match info !! "UIDVALIDITY" with
             | Some v => Some v
             | None => Some [IStr "0"]
             end)
      with (Some (default [IStr "0"] (info !! "UIDVALIDITY")))
      by (destruct (info !! "UIDVALIDITY"); reflexivity).
    rewrite Hsync. reflexivity. }
  cbn [fst]. rewrite Eb. destruct ok; reflexivity.
Qed.

End Transport.

(** The key is of UIDVALIDITY 14, the folder of 13. *)
Lemma contains_refused_or_out_of_sync_witness :
  let srv := Demo.server 13 [2] "From: Bjarni" 1024 in
  let c := Conn false (Some tt)
             (Some (("INBOX", false), ("OK", [IStr "1"]),
                    {["UIDVALIDITY" := [IStr "13"]]})) false [] in
  let src := Source imap_config 15 ∅ (Some c) None false in
  fst (__contains__ srv Demo.connect_to Demo.connect_to "INBOX" None
         "e.2" src) =
  raise IMAP_IOError "Mailbox is out of sync".
Proof.
  intros srv c src.
  exact (contains_refused_or_out_of_sync srv Demo.connect_to Demo.connect_to
           "INBOX" None "e.2" src c tt ("OK", [IStr "done"]) tt
           ("OK", [IStr "1"]) {["UIDVALIDITY" := [IStr "13"]]} 14 2
           ("OK", [IStr "1 (UID 2 RFC822.SIZE 12 FLAGS (\Seen) ENVELOPE (NIL))"])
           tt true
           [Atom "1"; List [Atom "UID"; Atom "2"; Atom "RFC822.SIZE";
                            Atom "12"; Atom "FLAGS"; List [Atom "\Seen"];
                            Atom "ENVELOPE"; List [Atom "NIL"]]]
           eq_refl eq_refl eq_refl eq_refl eq_refl eq_refl eq_refl eq_refl
           eq_refl eq_refl eq_refl).
Defined.

Lemma nonzero_unreachable_witness :
  fst (__nonzero__ mock_call NoDns NoDns "INBOX" (Some NoDns) fresh_source) =
  Returned false.
Proof.
  exact (nonzero_unreachable mock_call NoDns NoDns "INBOX" NoDns fresh_source
           (Exn socket_error "Oops") eq_refl eq_refl).
Defined.

(** The folder INBOX is the selection, with 7 messages; the mailbox is
    on a folder the server does not have. *)
Lemma len_of_stale_selection_witness :
  let srv := fun method args kw (t : unit) =>
    if String.eqb method "select"
    then (Returned ("NO", [IStr "no such folder"]), t)
    else (Returned ("OK", @nil item), t) in
  let c := Conn false (Some tt)
             (Some (("INBOX", false), ("OK", [IStr "7"]),
                    {["EXISTS" := [IStr "7"]]})) false [] in
  let src := Source imap_config 15 ∅ (Some c) None false in
  fst (__len__ srv Demo.connect_to Demo.connect_to "Gone" None src) =
  Returned (IStr "7").
Proof.
  intros srv c src.
  exact (proj1 (len_of_stale_selection srv Demo.connect_to Demo.connect_to
                  "Gone" None src c tt ("OK", []) tt ("INBOX", false)
                  ("OK", [IStr "7"]) {["EXISTS" := [IStr "7"]]}
                  ("NO", [IStr "no such folder"]) tt
                  (false, [Atom "no"; Atom "such"; Atom "folder"])
                  eq_refl eq_refl eq_refl eq_refl eq_refl eq_refl eq_refl
                  ltac:(discriminate) eq_refl eq_refl eq_refl)).
Defined.

Lemma get_body_nonpositive_timeout_witness :
  let srv := Demo.server 13 [2] "From: Bjarni" 1024 in
  let c := Conn true (Some tt)
             (Some (("INBOX", false), ("OK", [IStr "1"]), ∅)) false [] in
  get_body srv "INBOX" (AInt 2) 12 (-1) c = (Returned EmptyString, c).
Proof.
  intros srv c.
  exact (get_body_nonpositive_timeout srv "INBOX" (AInt 2) 12 (-1) c
           ltac:(lia) ltac:(lia)).
Defined.

(** The server refuses the second chunk of a message announced with
    2000 bytes. *)
Lemma get_body_chunk_failure_witness :
  let srv := fun method args kw t =>
    match args with
    | [AStr "FETCH"; _; AStr "(BODY[]<1024.1024>)"] =>
        (Returned ("NO", [IStr "try later"]), t)
    | _ => Demo.server 13 [2] "From: Bjarni" 1024 method args kw t
    end in
  let c := Conn true (Some tt)
             (Some (("INBOX", false), ("OK", [IStr "1"]), ∅)) false [] in
  exists c',
    get_body srv "INBOX" (AInt 2) 2000 1 c =
      (raise IMAP_IOError "Fetching chunk 1 failed", c')
    /\ Z.of_nat (body_fetch_count (sent c')) = 2%Z.
Proof.
  intros srv c.
  destruct (get_body_chunk_failure srv "INBOX" (AInt 2) 2000 1 1 c)
    as (c' & H1 & _ & H2).
  - lia.
  - split; [lia|]. vm_compute. discriminate.
  - split; [reflexivity|]. split; [eexists; reflexivity|].
    eexists; eexists; split; reflexivity.
  - intros [] k Hk. assert (k = 0%Z) as -> by lia.
    exists [ITuple "1 (UID 2 BODY[]" "From: Bjarni"; IStr ")"],
      "From: Bjarni", tt.
    split; reflexivity.
  - intros []. exists "NO", [IStr "try later"], tt.
    split; reflexivity.
  - exists c'. split; [exact H1|]. rewrite H2. reflexivity.
Defined.

Lemma get_info_keeps_key_witness :
  let srv := Demo.server 13 [2] "From: Bjarni" 1024 in
  exists info src',
    get_info srv Demo.connect_to Demo.connect_to "INBOX"
      (Some Demo.connect_to) "D.2" (Demo.source 1) = (Returned info, src')
    /\ info !! "UIDVALIDITY" = Some (VInt 13)
    /\ info !! "UID" = Some (VInt 2).
Proof.
  intros srv.
  let v := eval vm_compute in
             (get_info srv Demo.connect_to Demo.connect_to "INBOX"
                (Some Demo.connect_to) "D.2" (Demo.source 1)) in
  match v with
  | (Returned ?info, ?src1) =>
      assert (E : get_info srv Demo.connect_to Demo.connect_to "INBOX"
                    (Some Demo.connect_to) "D.2" (Demo.source 1) =
                  (Returned info, src1)) by (vm_compute; reflexivity);
      exists info, src1; split; [exact E|];
      destruct (get_info_keeps_key srv Demo.connect_to Demo.connect_to
                  "INBOX" (Some Demo.connect_to) "D.2" (Demo.source 1)
                  src1 info E)
        as (uidv & uid & Hk & H1 & H2)
  end.
  vm_compute in Hk. injection Hk as <- <-. split; assumption.
Defined.

End MailboxMore.
